(** * RdfaSerializer: a shallow embedding of [rdfa.py]

    The serializer walks an RDF graph and writes nested [<div>] elements.
    This development embeds the session state (the visited table
    [__serialized], the prefix tables, the output stream) as an explicit
    state record, the two mutually recursive emitters [subject] and
    [predicate] as a fuel-indexed fixpoint, and the driver [serialize] as a
    sequence of three passes over the store's subjects. *)

From Stdlib Require Import ZArith Ascii String.
From stdpp Require Import base strings list gmap fin_sets.

Local Open Scope string_scope.
Local Open Scope list_scope.
Local Open Scope Z_scope.

(** ** Terms, statements, the store *)

(** rdflib's three term classes.  All of them are unicode subclasses; the
    string carried by a [URIRef] is the IRI, by a [BNode] its node id, by a
    [Literal] its lexical form. *)
Inductive Term : Type :=
  | URIRef (iri : string)
  | BNode (id : string)
  | Literal (lexical : string) (language : option string) (datatype : option string).

Global Instance Term_eq_dec : EqDecision Term.
Proof. solve_decision. Defined.

Definition Term_enc (t : Term) : string + string + string * option string * option string :=
  match t with
  | URIRef s => inl (inl s)
  | BNode s => inl (inr s)
  | Literal l a d => inr (l, a, d)
  end.

Definition Term_dec (x : string + string + string * option string * option string) : Term :=
  match x with
  | inl (inl s) => URIRef s
  | inl (inr s) => BNode s
  | inr (l, a, d) => Literal l a d
  end.

Global Instance Term_countable : Countable Term.
Proof. apply (inj_countable' Term_enc Term_dec). by intros []. Defined.

(** [unicode(term)], what [%s] and [startswith] see. *)
Definition term_str (t : Term) : string :=
  match t with
  | URIRef s => s
  | BNode s => s
  | Literal l _ _ => l
  end.

Definition isURIRef (t : Term) : bool := match t with URIRef _ => true | _ => false end.
Definition isBNode (t : Term) : bool := match t with BNode _ => true | _ => false end.
Definition isLiteral (t : Term) : bool := match t with Literal _ _ _ => true | _ => false end.

(** Python truth value of a unicode (sub)class instance: non-empty. *)
Definition str_truthy (s : string) : bool :=
  match s with EmptyString => false | String _ _ => true end.

Definition truthy (t : Term) : bool := str_truthy (term_str t).

Definition Triple : Type := Term * Term * Term.

Definition t_subj (t : Triple) : Term := t.1.1.
Definition t_pred (t : Triple) : Term := t.1.2.
Definition t_obj (t : Triple) : Term := t.2.

(** The store as the serializer sees it: the statements in the store's
    iteration order, the namespace manager's [compute_qname] ([None] when
    it raises) and the store's [prefix] lookup.  [compute_qname] caches its
    answer per IRI, so over one session it is a function of the IRI. *)
Record Store : Type := {
  triples : list Triple;
  compute_qname : string -> option (string * string * string);
  store_prefix : string -> option string
}.

Definition RDF_NS : string := "http://www.w3.org/1999/02/22-rdf-syntax-ns#".
Definition RDFS_NS : string := "http://www.w3.org/2000/01/rdf-schema#".
Definition OWL_NS : string := "http://www.w3.org/2002/07/owl#".

Definition RDF_type : Term := URIRef (RDF_NS +:+ "type").
Definition RDF_first : Term := URIRef (RDF_NS +:+ "first").
Definition RDF_rest : Term := URIRef (RDF_NS +:+ "rest").
Definition RDF_nil : Term := URIRef (RDF_NS +:+ "nil").
Definition RDFS_Resource : Term := URIRef (RDFS_NS +:+ "Resource").
Definition RDFS_Class : Term := URIRef (RDFS_NS +:+ "Class").
Definition OWL_Class : Term := URIRef (OWL_NS +:+ "Class").

Section Queries.
Variable g : list Triple.

(** [store.subjects()]: one subject per statement. *)
Definition subjects : list Term := t_subj <$> g.

(** [store.predicates()] *)
Definition predicates : list Term := t_pred <$> g.

(** [store.objects(s, p)] *)
Definition objects (s p : Term) : list Term :=
  t_obj <$> filter (fun t => t_subj t = s /\ t_pred t = p) g.

(** [store.objects()] *)
Definition all_objects : list Term := t_obj <$> g.

(** [store.objects(None, p)] *)
Definition objects_of_pred (p : Term) : list Term :=
  t_obj <$> filter (fun t => t_pred t = p) g.

(** [store.predicate_objects(s)] *)
Definition predicate_objects (s : Term) : list (Term * Term) :=
  (fun t => (t_pred t, t_obj t)) <$> filter (fun t => t_subj t = s) g.

(** [store.triples((None, None, o))] *)
Definition triples_to (o : Term) : list Triple :=
  filter (fun t => t_obj t = o) g.

(** [store.subjects(object=o)] *)
Definition subjects_of_obj (o : Term) : list Term := t_subj <$> triples_to o.

(** [(s, None, None) in store] *)
Definition has_outgoing (s : Term) : bool :=
  bool_decide (Exists (fun t => t_subj t = s) g).

(** [(None, None, o) in store] *)
Definition has_incoming (o : Term) : bool :=
  bool_decide (Exists (fun t => t_obj t = o) g).

(** [(s, None, o) in store] *)
Definition has_edge (s o : Term) : bool :=
  bool_decide (Exists (fun t => t_subj t = s /\ t_obj t = o) g).

(** [store.triples_choices((s, p, choices))] *)
Definition triples_choices (s p : Term) (choices : list Term) : list Triple :=
  filter (fun t => t_subj t = s /\ t_pred t = p /\ t_obj t ∈ choices) g.
End Queries.

(** [rdflib.util.first] and [rdflib.util.more_than] *)
Definition first {A : Type} (l : list A) : option A := head l.

Definition more_than {A : Type} (l : list A) (n : nat) : bool :=
  bool_decide (n < length l)%nat.

(** ** String helpers *)

(** The double-quote character of the format strings. *)
Definition Q : string := String (ascii_of_nat 34) EmptyString.
Definition NL : string := String (ascii_of_nat 10) EmptyString.

Definition indent_string : string := "  ".

(** [s * n] for a string and an int: empty when [n <= 0]. *)
Fixpoint str_repeat (s : string) (n : nat) : string :=
  match n with
  | O => EmptyString
  | S k => s +:+ str_repeat s k
  end.

Definition str_mul (s : string) (n : Z) : string := str_repeat s (Z.to_nat n).

(** [s[n:]] *)
Fixpoint str_drop (n : nat) (s : string) : string :=
  match n, s with
  | O, _ => s
  | S k, EmptyString => EmptyString
  | S k, String _ r => str_drop k r
  end.

(** [c in s] for a one-character [c] *)
Fixpoint str_contains (c : ascii) (s : string) : bool :=
  match s with
  | EmptyString => false
  | String a r => if decide (a = c) then true else str_contains c r
  end.

(** [fix]: strip off [_:] from node ids. *)
Definition fix_id (val : string) : string :=
  if String.prefix "_:" val then str_drop 2 val else val.

(** [Serializer.relativize]: drop the base when the IRI starts with it. *)
Definition relativize (base : option string) (uri : string) : string :=
  match base with
  | Some b => if String.prefix b uri then str_drop (String.length b) uri else uri
  | None => uri
  end.

(** [%s] applied to the result of [getQName], which may be [None]. *)
Definition fmt (o : option string) : string :=
  match o with Some s => s | None => "None" end.

(** ** Session state and the execution monad *)

Inductive Exn : Type :=
  AssertionError | QNameError | TypeError | NameError | AttributeError.

(** How a call ends: normally, by a Python exception, or because the model
    ran out of fuel (the Python code would still be running). *)
Inductive Outcome (A : Type) : Type :=
  | Ok (a : A)
  | Raise (e : Exn)
  | OutOfFuel.
Arguments Ok {A} a.
Arguments Raise {A} e.
Arguments OutOfFuel {A}.

(** Ghost events: the opening and the closing block of a subject, and a
    reference-only element that points to an object. *)
Inductive Event : Type :=
  | Open (s : Term)
  | Close (s : Term)
  | Ref (o : Term).

Global Instance Event_eq_dec : EqDecision Event.
Proof. solve_decision. Defined.

(** The attributes of the serializer object that the emitters read and
    write.  [serialized] is [self.__serialized]: a dict used as a set, or
    [None] outside a [serialize] call (unset before the first call, reset
    to [None] at the end of each).  [stream] lists the arguments of the
    successive [write] calls, oldest first.  [trace] is a ghost field, not
    an attribute of the Python object: the structure of what the current
    session has written so far, oldest event first. *)
Record Session : Type := {
  serialized : option (gset Term);
  namespaces : gmap string string;
  ns_rewrite : gmap string string;
  max_depth : option Z;
  base : option string;
  stream : list string;
  trace : list Event
}.

Definition set_serialized (v : option (gset Term)) (st : Session) : Session :=
  {| serialized := v; namespaces := namespaces st; ns_rewrite := ns_rewrite st;
     max_depth := max_depth st; base := base st; stream := stream st;
     trace := trace st |}.

Definition set_ns_rewrite (m : gmap string string) (st : Session) : Session :=
  {| serialized := serialized st; namespaces := namespaces st; ns_rewrite := m;
     max_depth := max_depth st; base := base st; stream := stream st;
     trace := trace st |}.

Definition set_max_depth (d : option Z) (st : Session) : Session :=
  {| serialized := serialized st; namespaces := namespaces st;
     ns_rewrite := ns_rewrite st; max_depth := d; base := base st;
     stream := stream st; trace := trace st |}.

Definition set_base (b : option string) (st : Session) : Session :=
  {| serialized := serialized st; namespaces := namespaces st;
     ns_rewrite := ns_rewrite st; max_depth := max_depth st; base := b;
     stream := stream st; trace := trace st |}.

Definition set_stream (s : list string) (st : Session) : Session :=
  {| serialized := serialized st; namespaces := namespaces st;
     ns_rewrite := ns_rewrite st; max_depth := max_depth st; base := base st;
     stream := s; trace := trace st |}.

Definition set_trace (b : list Event) (st : Session) : Session :=
  {| serialized := serialized st; namespaces := namespaces st;
     ns_rewrite := ns_rewrite st; max_depth := max_depth st; base := base st;
     stream := stream st; trace := b |}.

Definition M (A : Type) : Type := Session -> Session * Outcome A.

Definition ret {A : Type} (a : A) : M A := fun st => (st, Ok a).

Definition bind {A B : Type} (m : M A) (k : A -> M B) : M B :=
  fun st =>
    match m st with
    | (st', Ok a) => k a st'
    | (st', Raise e) => (st', Raise e)
    | (st', OutOfFuel) => (st', OutOfFuel)
    end.

Definition raise {A : Type} (e : Exn) : M A := fun st => (st, Raise e).
Definition out_of_fuel {A : Type} : M A := fun st => (st, OutOfFuel).
Definition get {A : Type} (f : Session -> A) : M A := fun st => (st, Ok (f st)).
Definition modify (f : Session -> Session) : M unit := fun st => (f st, Ok tt).

Notation "x <- m ;; k" := (bind m (fun x => k))
  (at level 100, m at next level, right associativity).
Notation "m ;;; k" := (bind m (fun _ => k))
  (at level 100, right associativity).

(** [for x in xs: body x] *)
Fixpoint for_each {A : Type} (xs : list A) (body : A -> M unit) : M unit :=
  match xs with
  | [] => ret tt
  | x :: r => body x ;;; for_each r body
  end.

(** [self.write(s)] *)
Definition write (s : string) : M unit :=
  modify (fun st => set_stream (stream st ++ [s]) st).

(** [t in self.__serialized]; a [TypeError] when the table is [None]. *)
Definition is_serialized (t : Term) : M bool :=
  fun st =>
    match serialized st with
    | Some V => (st, Ok (bool_decide (t ∈ V)))
    | None => (st, Raise TypeError)
    end.

(** [self.__serialized[t] = 1] *)
Definition mark (t : Term) : M unit :=
  fun st =>
    match serialized st with
    | Some V => (set_serialized (Some ({[t]} ∪ V)) st, Ok tt)
    | None => (st, Raise TypeError)
    end.

(** [self.max_depth]; an [AttributeError] before [serialize] has set it. *)
Definition get_max_depth : M Z :=
  fun st =>
    match max_depth st with
    | Some d => (st, Ok d)
    | None => (st, Raise AttributeError)
    end.

(** Ghost step: append an event to the trace. *)
Definition log (e : Event) : M unit :=
  modify (fun st => set_trace (trace st ++ [e]) st).

(** ** Namespace prefixes: [addNamespace] and [getQName] *)

(** The loop [while p in self.namespaces: p = "p" + p], with a bound on the
    number of iterations. *)
Fixpoint fresh_prefix (fuel : nat) (ns : gmap string string) (p : string) : option string :=
  match fuel with
  | O => None
  | S f =>
      if decide (is_Some (ns !! p)) then fresh_prefix f ns ("p" +:+ p) else Some p
  end.

(** [prefix > '' and prefix[0] == '_'] *)
Definition reserved_marked (prefix : string) : bool :=
  match prefix with
  | EmptyString => false
  | String c _ => bool_decide (c = "_"%char)
  end.

(** [self.namespaces.get(prefix, namespace) != namespace] *)
Definition mapped_elsewhere (ns : gmap string string) (prefix namespace : string) : bool :=
  bool_decide (default namespace (ns !! prefix) ≠ namespace).

Definition addNamespace (prefix namespace : string) : M string :=
  nss <- get namespaces;;
  rw <- get ns_rewrite;;
  (if reserved_marked prefix || mapped_elsewhere nss prefix namespace then
     if decide (is_Some (rw !! prefix)) then ret tt
     else
       match fresh_prefix (S (size nss)) nss ("p" +:+ prefix) with
       | Some p => modify (set_ns_rewrite (<[prefix := p]> rw))
       | None => out_of_fuel
       end
   else ret tt);;;
  rw' <- get ns_rewrite;;
  ret (default prefix (rw' !! prefix)).

Section Emitters.
Variable store : Store.

Let g : list Triple := triples store.

(** [getQName(uri)] with the default [gen_prefix=True], as at every call
    site of the file. *)
Definition getQName (uri : Term) : M (option string) :=
  match uri with
  | URIRef u =>
      let parts :=
        match compute_qname store u with
        | Some parts => Some parts
        | None =>
            match store_prefix store u with
            | Some pfx => Some (pfx, u, EmptyString)
            | None => None
            end
        end in
      match parts with
      | None => ret None
      | Some (prefix, namespace, local) =>
          if str_contains "."%char local then ret None
          else
            prefix' <- addNamespace prefix namespace;;
            ret (Some (prefix' +:+ ":" +:+ local))
      end
  | _ => ret None
  end.

(** The type shown in [typeof]: the first [rdf:type] object when the
    namespace manager can compute its qname, else nothing. *)
Definition subject_type (s : Term) : option Term :=
  match first (objects g s RDF_type) with
  | Some t =>
      match compute_qname store (term_str t) with
      | Some _ => Some t
      | None => None
      end
  | None => None
  end.

(** [type or RDFS.Resource] *)
Definition type_element (type : option Term) : Term :=
  match type with
  | Some t => if truthy t then t else RDFS_Resource
  | None => RDFS_Resource
  end.

(** [not (predicate == RDF.type and object == type)] *)
Definition not_type_edge (type : option Term) (po : Term * Term) : bool :=
  negb (bool_decide (po.1 = RDF_type) && bool_decide (Some po.2 = type)).

Definition indent_of (depth : Z) : string := NL +:+ str_mul indent_string depth.

(** Lines 156-162: the opening block of a subject. *)
Definition open_block (s : Term) (type : option Term) (indent : string) : M unit :=
  if isBNode s then
    if more_than (triples_to g s) 1 then
      q <- getQName (type_element type);;
      write (indent +:+ "<div typeof=" +:+ Q +:+ fmt q +:+ Q +:+ " about=" +:+ Q
             +:+ fix_id (term_str s) +:+ Q +:+ ">")
    else
      q <- getQName (type_element type);;
      write (indent +:+ "<div typeof=" +:+ Q +:+ fmt q +:+ Q +:+ ">")
  else
    q <- getQName (type_element type);;
    b <- get base;;
    write (indent +:+ "<div typeof=" +:+ Q +:+ fmt q +:+ Q +:+ " about=" +:+ Q
           +:+ relativize b (term_str s) +:+ Q +:+ ">").

(** Modelled from the spec: the iteration of rdflib's [Collection], which
    is not part of this file.  It follows the first/rest chain from the
    head: at each cell the first [rdf:first] object, when there is one, is
    handed to the loop body, and the walk goes on at the first [rdf:rest]
    object, until a cell has none. *)
Fixpoint for_collection (fuel : nat) (cell : option Term) (body : Term -> M unit) : M unit :=
  match cell with
  | None => ret tt
  | Some c =>
      match fuel with
      | O => out_of_fuel
      | S f =>
          match first (objects g c RDF_first) with
          | Some item => body item
          | None => ret tt
          end;;;
          for_collection f (first (objects g c RDF_rest)) body
      end
  end.

(** Lines 205-212: the body of the loop over the items of a collection. *)
Definition list_item (predicate : Term) (indent : string) (item : Term) : M unit :=
  (match item with
   | BNode _ =>
       q <- getQName predicate;;
       write (indent +:+ "<div inlist=" +:+ Q +:+ Q +:+ " rel=" +:+ Q +:+ fmt q +:+ Q
              +:+ " resource=" +:+ Q +:+ fix_id (term_str item) +:+ Q +:+ "></div>")
   | URIRef _ =>
       q <- getQName predicate;;
       b <- get base;;
       write (indent +:+ "<div inlist=" +:+ Q +:+ Q +:+ " rel=" +:+ Q +:+ fmt q +:+ Q
              +:+ " resource=" +:+ Q +:+ relativize b (term_str item) +:+ Q +:+ "></div>")
   | Literal _ _ _ =>
       q <- getQName predicate;;
       write (indent +:+ "<div inlist=" +:+ Q +:+ Q +:+ " property=" +:+ Q +:+ fmt q +:+ Q
              +:+ " content=" +:+ Q +:+ term_str item +:+ Q +:+ "></div>")
   end);;;
  (if isURIRef item then ret tt else mark item).

(** Lines 203-212: [for item in Collection(store, object): ...] *)
Definition flatten_collection (fuel : nat) (predicate object : Term) (indent : string)
    : M unit :=
  for_collection fuel (Some object) (list_item predicate indent).

(** Lines 176-183: a literal object. *)
Definition literal_element (predicate object : Term) (indent : string) : M unit :=
  q <- getQName predicate;;
  write (indent +:+ "<div property=" +:+ Q +:+ fmt q +:+ Q);;;
  (match object with
   | Literal _ (Some lang) dt =>
       if str_truthy lang then write (" xml:lang=" +:+ Q +:+ lang +:+ Q)
       else
         match dt with
         | Some d =>
             if str_truthy d then
               qd <- getQName (URIRef d);;
               write (" datatype=" +:+ Q +:+ fmt qd +:+ Q)
             else ret tt
         | None => ret tt
         end
   | Literal _ None (Some d) =>
       if str_truthy d then
         qd <- getQName (URIRef d);;
         write (" datatype=" +:+ Q +:+ fmt qd +:+ Q)
       else ret tt
   | _ => ret tt
   end);;;
  write (" content=" +:+ Q +:+ term_str object +:+ Q +:+ ">");;;
  write "</div>".

(** Lines 185-190: a reference to an object that is already serialized or
    has no statements of its own. *)
Definition reference_element (predicate object : Term) (indent : string) : M unit :=
  q <- getQName predicate;;
  write (indent +:+ "<div rel=" +:+ Q +:+ fmt q +:+ Q);;;
  log (Ref object);;;
  (if isBNode object && more_than (triples_to g object) 0 then
     write (" resource=" +:+ Q +:+ fix_id (term_str object) +:+ Q +:+ ">")
   else
     b <- get base;;
     write (" resource=" +:+ Q +:+ relativize b (term_str object) +:+ Q +:+ ">"));;;
  write "</div>".

(** [first(store.triples_choices((object, RDF.type, [OWL.Class, RDFS.Class])))
    and isinstance(object, URIRef)] *)
Definition is_class_resource (object : Term) : bool :=
  match first (triples_choices g object RDF_type [OWL_Class; RDFS_Class]) with
  | Some _ => isURIRef object
  | None => false
  end.

(** The truth value of [first(store.objects(object, RDF.first))]. *)
Definition is_collection_head (object : Term) : bool :=
  match first (objects g object RDF_first) with
  | Some item => truthy item
  | None => false
  end.

(** [predicate], over the [subject] it calls back (lines 171-242). *)
Definition predicate_with (fuel : nat) (subject_rec : Term -> Z -> M unit)
    (predicate object : Term) (depth : Z) : M unit :=
  let indent := indent_of depth in
  if isLiteral object then literal_element predicate object indent
  else
    seen <- is_serialized object;;
    if seen || negb (has_outgoing g object) then
      reference_element predicate object indent
    else
      if is_collection_head object then
        (* the [UserWarning] issued here leaves the session as it is *)
        mark object;;;
        flatten_collection fuel predicate object indent
      else
        q <- getQName predicate;;
        write (indent +:+ "<div rel=" +:+ Q +:+ fmt q +:+ Q);;;
        (if is_class_resource object then
           b <- get base;;
           log (Ref object);;;
           write (" resource=" +:+ Q +:+ relativize b (term_str object) +:+ Q +:+ ">")
         else
         md <- get_max_depth;;
         if bool_decide (depth <= md) then
           write ">";;;
           subject_rec object (depth + 1);;;
           write indent
         else if isBNode object then
           seen' <- is_serialized object;;
           if negb seen' && has_outgoing g object
              && bool_decide (length (subjects_of_obj g object) = 1%nat)
           then
             write ">";;;
             subject_rec object (depth + 1);;;
             write indent
           else
             log (Ref object);;;
             write (" resource=" +:+ Q +:+ fix_id (term_str object) +:+ Q +:+ ">")
         else
           b <- get base;;
           log (Ref object);;;
           write (" resource=" +:+ Q +:+ relativize b (term_str object) +:+ Q +:+ ">"));;;
        write "</div>".

(** [subject] (lines 140-169).  Fuel is spent only when a block is
    actually opened: one unit per nesting level of materialized
    subjects. *)
Fixpoint subject (fuel : nat) (s : Term) (depth : Z) {struct fuel} : M unit :=
  let indent := indent_of depth in
  seen <- is_serialized s;;
  if seen then ret tt
  else
    match fuel with
    | O => out_of_fuel
    | S f =>
        mark s;;;
        let type := subject_type s in
        log (Open s);;;
        open_block s type indent;;;
        (if has_outgoing g s then
           for_each (predicate_objects g s)
             (fun po =>
                if not_type_edge type po
                then predicate_with f (subject f) po.1 po.2 (depth + 1)
                else ret tt)
         else ret tt);;;
        log (Close s);;;
        write (indent +:+ "</div>")
    end.

Definition predicate (fuel : nat) (p o : Term) (depth : Z) : M unit :=
  predicate_with fuel (subject fuel) p o depth.

(** The local [namespaces] dict of [serialize], in insertion order. *)
Fixpoint dict_set (k v : string) (d : list (string * string)) : list (string * string) :=
  match d with
  | [] => [(k, v)]
  | (k', v') :: r => if decide (k = k') then (k, v) :: r else (k', v') :: dict_set k v r
  end.

(** [possible] (lines 100-101): the predicates, the objects of [rdf:type]
    and the datatypes of the literal objects, as a set. *)
Definition literal_datatype (o : Term) : option Term :=
  match o with
  | Literal _ _ (Some d) => if str_truthy d then Some (URIRef d) else None
  | _ => None
  end.

Definition possible : list Term :=
  remove_dups (predicates g ++ objects_of_pred g RDF_type
               ++ omap literal_datatype (all_objects g)).

(** Lines 104-106; [None] when [compute_qname] raises. *)
Fixpoint declare_namespaces (ps : list Term) (d : list (string * string))
    : option (list (string * string)) :=
  match ps with
  | [] => Some d
  | p :: r =>
      match compute_qname store (term_str p) with
      | Some (prefix, namespace, _) => declare_namespaces r (dict_set prefix namespace d)
      | None => None
      end
  end.

(** Lines 115-120: subjects that can not be inlined. *)
Definition pass_roots (fuel : nat) : M unit :=
  for_each (subjects g)
    (fun s =>
       if has_incoming g s then
         if has_edge g s s then subject fuel s 1 else ret tt
       else subject fuel s 1).

(** Lines 124-129: everything but blank nodes. *)
Definition pass_resources (fuel : nat) : M unit :=
  for_each (subjects g) (fun s => if isBNode s then ret tt else subject fuel s 1).

Definition bnodes : list Term := remove_dups (filter (fun s => isBNode s = true) (subjects g)).

(** Lines 132-134.  The call is on [subject], the variable of the loop
    before: the last element of [store.subjects()]. *)
Definition pass_bnodes (fuel : nat) : M unit :=
  for_each bnodes
    (fun bnode =>
       seen <- is_serialized bnode;;
       if seen then ret tt
       else
         match last (subjects g) with
         | Some s => subject fuel s 1
         | None => raise NameError
         end).

(** [serialize(stream, base, encoding, **args)]; [stream0] is what the
    stream holds before the call, [max_depth_arg] the keyword argument
    [max_depth] when given. *)
Definition serialize (fuel : nat) (stream0 : list string) (base0 : option string)
    (max_depth_arg : option Z) : M unit :=
  modify (set_serialized (Some ∅));;;
  modify (set_trace []);;;   (* ghost: the trace is the trace of this call *)
  modify (set_base base0);;;
  modify (set_stream stream0);;;
  modify (set_max_depth (Some (default 3 max_depth_arg)));;;
  md <- get_max_depth;;
  if bool_decide (md > 0) then
    match declare_namespaces possible [("rdf", RDF_NS)] with
    | None => raise QNameError
    | Some nss =>
        write ("<div xmlns=" +:+ Q +:+ "http://www.w3.org/1999/xhtml" +:+ Q);;;
        for_each nss
          (fun pn => write (NL +:+ "  xmlns:" +:+ pn.1 +:+ "=" +:+ Q +:+ pn.2 +:+ Q));;;
        write ">";;;
        pass_roots fuel;;;
        pass_resources fuel;;;
        pass_bnodes fuel;;;
        write (NL +:+ "</div>");;;
        modify (set_serialized None)
    end
  else raise AssertionError.
End Emitters.

(** [RdfaSerializer(store, max_depth)]: the object after [__init__].  The
    attributes that only [serialize] creates are absent. *)
Record RdfaSerializer : Type := {
  self_store : Store;
  self_state : Session
}.

Definition init (store : Store) (max_depth : Z) : RdfaSerializer :=
  {| self_store := store;
     self_state := {| serialized := None; namespaces := ∅; ns_rewrite := ∅;
                      max_depth := None; base := None; stream := []; trace := [] |} |}.

(** [self.serialize(stream, base, **args)] on an object. *)
Definition run_serialize (self : RdfaSerializer) (fuel : nat) (stream0 : list string)
    (base0 : option string) (max_depth_arg : option Z) : Session * Outcome unit :=
  serialize (self_store self) fuel stream0 base0 max_depth_arg (self_state self).

(** The text a stream holds. *)
Definition text (chunks : list string) : string := foldr String.append EmptyString chunks.

(** ** Definitions used by the statements *)

(** The keys of the table that are at least as long as [p]: the candidates
    the prefix loop can still run into. *)
Definition longer_keys (ns : gmap string string) (p : string) : gset string :=
  filter (fun k => (String.length p <= String.length k)%nat) (dom ns).



(** ** Example stores *)

Module Examples.
(** A small namespace manager: the first binding whose namespace is a
    prefix of the IRI splits it. *)
Definition qname_of (bindings : list (string * string)) (uri : string)
    : option (string * string * string) :=
  (fun pn => (pn.1, pn.2, str_drop (String.length pn.2) uri))
    <$> head (filter (fun pn => String.prefix pn.2 uri = true) bindings).

Definition bindings : list (string * string) :=
  [("rdf", RDF_NS); ("rdfs", RDFS_NS); ("owl", OWL_NS); ("ex", "http://ex.org/")].

Definition ex (l : string) : Term := URIRef ("http://ex.org/" +:+ l).

Definition mk_store (g : list Triple) : Store :=
  {| triples := g; compute_qname := qname_of bindings; store_prefix := fun _ => None |}.

(** A -> B -> C -> D *)
Definition chain_store : Store :=
  mk_store [(ex "A", ex "p", ex "B"); (ex "B", ex "p", ex "C"); (ex "C", ex "p", ex "D")].

(** Two blank nodes that point at each other, and one resource. *)
Definition cycle_store : Store :=
  mk_store [(BNode "a", ex "p", BNode "b"); (BNode "b", ex "p", BNode "a");
            (ex "X", ex "q", Literal "v" None None)].

(** A resource that is typed as a class. *)
Definition class_store : Store :=
  mk_store [(ex "S", ex "p", ex "K"); (ex "K", RDF_type, OWL_Class)].

(** A resource that is typed as a class and is the head of a list. *)
Definition class_list_store : Store :=
  mk_store [(ex "S", ex "p", ex "K"); (ex "K", RDF_type, OWL_Class);
            (ex "K", RDF_first, Literal "x" None None); (ex "K", RDF_rest, RDF_nil)].

(** A blank node with one statement of its own, referenced once. *)
Definition bnode_store : Store :=
  mk_store [(ex "S", ex "p", BNode "b"); (BNode "b", ex "q", Literal "v" None None)].

(** The list (1 2), referenced once through [ex:items]. *)
Definition list_store : Store :=
  mk_store [(ex "S", ex "items", BNode "l1");
            (BNode "l1", RDF_first, Literal "1" None None); (BNode "l1", RDF_rest, BNode "l2");
            (BNode "l2", RDF_first, Literal "2" None None); (BNode "l2", RDF_rest, RDF_nil)].

(** Two separate pairs of blank nodes that point at each other. *)
Definition two_cycles : list Triple :=
  [(BNode "a", ex "p", BNode "b"); (BNode "b", ex "p", BNode "a");
   (BNode "c", ex "p", BNode "d"); (BNode "d", ex "p", BNode "c")].

(** A predicate that the namespace manager cannot split. *)
Definition opaque_store : Store :=
  mk_store [(ex "A", URIRef "urn:x", ex "B")].

(** A session in the middle of a [serialize] call. *)
Definition running (V : gset Term) : Session :=
  {| serialized := Some V; namespaces := ∅; ns_rewrite := ∅; max_depth := Some 3;
     base := None; stream := []; trace := [] |}.
End Examples.

(** The subjects whose opening (closing) block a trace records. *)
Definition opens (l : list Event) : list Term :=
  omap (fun e => match e with Open s => Some s | _ => None end) l.

Definition closes (l : list Event) : list Term :=
  omap (fun e => match e with Close s => Some s | _ => None end) l.

(** What an emitter may do to the parts of the session it does not own:
    append to the stream, add prefix rewrites, and leave the rest. *)
Definition frame (st st' : Session) : Prop :=
  (exists w, stream st' = stream st ++ w)
  /\ namespaces st' = namespaces st
  /\ ns_rewrite st ⊆ ns_rewrite st'
  /\ max_depth st' = max_depth st
  /\ base st' = base st
  /\ (exists l, trace st' = trace st ++ l).

(** What an emitter may do to the visited table and the trace: the table
    grows, and the blocks it writes are blocks of subjects that were not
    visited before and are visited now, each opened and closed at most
    once. *)
Definition visits (st st' : Session) : Prop :=
  forall V, serialized st = Some V ->
    exists V' l,
      serialized st' = Some V' /\ V ⊆ V'
      /\ trace st' = trace st ++ l
      /\ NoDup (opens l) /\ NoDup (closes l)
      /\ (forall t, (t ∈ opens l \/ t ∈ closes l) -> (t ∉ V) /\ t ∈ V').

(** A computation that relates every state to the state it ends in. *)
Definition keeps {A : Type} (R : Session -> Session -> Prop) (m : M A) : Prop :=
  forall st, R st (m st).1.

(** A well-formed first/rest chain from [cell] with the given items: each
    cell has one [rdf:first] and one [rdf:rest] object, and the chain ends
    at a node ([rdf:nil]) that has neither. *)
Inductive chain (g : list Triple) : Term -> list Term -> Prop :=
  | chain_end (cell : Term) :
      objects g cell RDF_first = [] ->
      objects g cell RDF_rest = [] ->
      chain g cell []
  | chain_cell (cell item next : Term) (items : list Term) :
      objects g cell RDF_first = [item] ->
      objects g cell RDF_rest = [next] ->
      chain g next items ->
      chain g cell (item :: items).

(** The relations that every primitive step of the emitters keeps. *)
Class Stepwise (R : Session -> Session -> Prop) : Prop := {
  sw_refl : Reflexive R;
  sw_trans : Transitive R;
  sw_write : forall s, keeps R (write s);
  sw_mark : forall t, keeps R (mark t);
  sw_ref : forall o, keeps R (log (Ref o));
  sw_rewrite : forall m st, ns_rewrite st ⊆ m -> R st (set_ns_rewrite m st)
}.

(** [addNamespace] and [getQName] read and write the two prefix tables
    only; these are their results as functions of the tables. *)
Definition rewrite_of (nss rw : gmap string string) (prefix namespace : string)
    : gmap string string :=
  if reserved_marked prefix || mapped_elsewhere nss prefix namespace then
    if decide (is_Some (rw !! prefix)) then rw
    else
      match fresh_prefix (S (size nss)) nss ("p" +:+ prefix) with
      | Some p => <[prefix := p]> rw
      | None => rw
      end
  else rw.

Definition qname_parts (store : Store) (u : Term) : option (string * string * string) :=
  match u with
  | URIRef u =>
      match
        match compute_qname store u with
        | Some parts => Some parts
        | None =>
            match store_prefix store u with
            | Some pfx => Some (pfx, u, EmptyString)
            | None => None
            end
        end
      with
      | Some (prefix, namespace, local) =>
          if str_contains "."%char local then None else Some (prefix, namespace, local)
      | None => None
      end
  | _ => None
  end.

Definition qname_rewrite (store : Store) (nss rw : gmap string string) (u : Term)
    : gmap string string :=
  match qname_parts store u with
  | Some (prefix, namespace, _) => rewrite_of nss rw prefix namespace
  | None => rw
  end.

Definition qname_value (store : Store) (nss rw : gmap string string) (u : Term)
    : option string :=
  match qname_parts store u with
  | Some (prefix, namespace, local) =>
      Some (default prefix (rewrite_of nss rw prefix namespace !! prefix) +:+ ":" +:+ local)
  | None => None
  end.

(** The list-item element written for one item of a collection, given the
    qname of the predicate. *)
Definition item_element (q : option string) (b : option string) (indent : string)
    (item : Term) : string :=
  match item with
  | BNode _ =>
      indent +:+ "<div inlist=" +:+ Q +:+ Q +:+ " rel=" +:+ Q +:+ fmt q +:+ Q
      +:+ " resource=" +:+ Q +:+ fix_id (term_str item) +:+ Q +:+ "></div>"
  | URIRef _ =>
      indent +:+ "<div inlist=" +:+ Q +:+ Q +:+ " rel=" +:+ Q +:+ fmt q +:+ Q
      +:+ " resource=" +:+ Q +:+ relativize b (term_str item) +:+ Q +:+ "></div>"
  | Literal _ _ _ =>
      indent +:+ "<div inlist=" +:+ Q +:+ Q +:+ " property=" +:+ Q +:+ fmt q +:+ Q
      +:+ " content=" +:+ Q +:+ term_str item +:+ Q +:+ "></div>"
  end.

(** The visited table after the items of a collection have been written:
    every item that is not an IRI has been added. *)
Definition mark_items (items : list Term) (V : gset Term) : gset Term :=
  foldl (fun acc item => if isURIRef item then acc else {[item]} ∪ acc) V items.

(** Every subject of the store has had its block opened. *)
Definition all_materialized (store : Store) (st : Session) : bool :=
  forallb (fun s => bool_decide (s ∈ opens (trace st))) (subjects (triples store)).

(** A [serialize] call of a fresh object ends normally and leaves a subject
    without a block. *)
Definition leaves_subject_out (store : Store) (fuel : nat) : bool :=
  match run_serialize (init store 3) fuel [] None None with
  | (st, Ok _) => negb (all_materialized store st)
  | _ => false
  end.

(** A run that ends normally, seen through the parts of the session the
    control flow depends on: the visited table it ends with, the events it
    adds, and the depth limit, which it leaves alone. *)
Definition runs_to {A : Type} (m : M A) (st : Session) (V' : gset Term) (l : list Event)
    : Prop :=
  exists st' a,
    m st = (st', Ok a)
    /\ serialized st' = Some V'
    /\ trace st' = trace st ++ l
    /\ max_depth st' = max_depth st.

(** The event [e] occurs in the trace between the opening and the closing
    of the block of [outer]. *)
Fixpoint occurs_inside_from (outer : Term) (e : Event) (inside : bool) (tr : list Event)
    : bool :=
  match tr with
  | [] => false
  | x :: r =>
      if inside && bool_decide (x = e) then true
      else
        occurs_inside_from outer e
          (match x with
           | Open s => inside || bool_decide (s = outer)
           | Close s => inside && negb (bool_decide (s = outer))
           | Ref _ => inside
           end) r
  end.

Definition occurs_inside (outer : Term) (e : Event) (tr : list Event) : bool :=
  occurs_inside_from outer e false tr.

(** The depth-boundary property as the specification words it, for the
    chain A, B, C, D: B is inlined inside A, C inside B, and D is
    referenced and has no block. *)
Definition chain_inlined_twice (A B C D : Term) (tr : list Event) : Prop :=
  occurs_inside A (Open B) tr = true
  /\ occurs_inside B (Open C) tr = true
  /\ Ref D ∈ tr
  /\ Open D ∉ tr.

(** A run that ends normally, with the events it adds. *)
Definition ends_with (m : M unit) (st : Session) (l : list Event) : Prop :=
  exists st', m st = (st', Ok tt) /\ trace st' = trace st ++ l.

(** Expected outputs are written with apostrophes where the stream has
    double quotes. *)
Fixpoint dq (s : string) : string :=
  match s with
  | EmptyString => EmptyString
  | String c r => String (if decide (c = "'"%char) then ascii_of_nat 34 else c) (dq r)
  end.

(** [getQName] gives [None]: the term is not an IRI, or neither the
    namespace manager nor the store's prefix table knows it, or the local
    part has a dot. *)
Definition no_qname (store : Store) (u : Term) : bool :=
  match u with
  | URIRef i =>
      match compute_qname store i with
      | Some (_, _, local) => str_contains "."%char local
      | None =>
          match store_prefix store i with
          | Some _ => false
          | None => true
          end
      end
  | _ => true
  end.

(** The attribute written between the [property] and the [content] of a
    literal element: the language when there is one, else the datatype. *)
Definition literal_attribute (qd : option string) (lang dt : option string) : list string :=
  match lang, dt with
  | Some a, Some d =>
      if str_truthy a then [" xml:lang=" +:+ Q +:+ a +:+ Q]
      else if str_truthy d then [" datatype=" +:+ Q +:+ fmt qd +:+ Q] else []
  | Some a, None => if str_truthy a then [" xml:lang=" +:+ Q +:+ a +:+ Q] else []
  | None, Some d => if str_truthy d then [" datatype=" +:+ Q +:+ fmt qd +:+ Q] else []
  | None, None => []
  end.

(** The target of a reference-only element of case 2: a blank node that is
    the object of some statement is named by its fixed-up id. *)
Definition reference_target (store : Store) (b : option string) (o : Term) : string :=
  if isBNode o && more_than (triples_to (triples store) o) 0
  then fix_id (term_str o) else relativize b (term_str o).

(** The visited table, when there is one, only grows. *)
Definition grows (st st' : Session) : Prop :=
  forall V, serialized st = Some V -> exists V', serialized st' = Some V' /\ V ⊆ V'.

(** A store without collections: no node has a truthy [rdf:first] object. *)
Definition list_free (store : Store) : Prop :=
  forall o, is_collection_head store o = false.

(** The distinct subjects of the store, and how many are not visited. *)
Definition subject_set (store : Store) : gset Term := list_to_set (subjects (triples store)).

Definition unvisited (store : Store) (V : gset Term) : nat := size (subject_set store ∖ V).

(** Well-nested traces: references, and blocks that are closed where they
    were opened. *)
Inductive nested : list Event -> Prop :=
  | nested_nil : nested []
  | nested_ref (o : Term) (l : list Event) : nested l -> nested (Ref o :: l)
  | nested_block (s : Term) (l1 l2 : list Event) :
      nested l1 -> nested l2 -> nested (Open s :: l1 ++ Close s :: l2).

(** A run from the table [V] that ends normally with a well-nested trace,
    in a table that holds [V] and the subjects whose blocks it opened, and
    nothing else. *)
Definition settles {A : Type} (m : M A) (st : Session) (V : gset Term) : Prop :=
  exists V' l,
    runs_to m st V' l
    /\ nested l
    /\ (forall t, t ∈ V' <-> t ∈ V \/ t ∈ opens l).

(** A session in the middle of a call whose trace so far is well nested
    and whose table holds exactly the subjects with a block. *)
Definition clean_state (md : Z) (st : Session) (V : gset Term) : Prop :=
  serialized st = Some V
  /\ max_depth st = Some md
  /\ nested (trace st)
  /\ (forall t, t ∈ V <-> t ∈ opens (trace st)).

(** The first chunk of a document, and the chunk that declares one
    prefix. *)
Definition document_open : string :=
  "<div xmlns=" +:+ Q +:+ "http://www.w3.org/1999/xhtml" +:+ Q.

Definition xmlns_attribute (pn : string * string) : string :=
  NL +:+ "  xmlns:" +:+ pn.1 +:+ "=" +:+ Q +:+ pn.2 +:+ Q.

(** The prefix tables as the class keeps them: nothing ever writes
    [self.namespaces], and [self._ns_rewrite] only maps a prefix that
    starts with [_] to that prefix with one [p] in front. *)
Definition tidy (st : Session) : Prop :=
  namespaces st = ∅
  /\ (forall k v, ns_rewrite st !! k = Some v -> reserved_marked k = true /\ v = "p" +:+ k).

Definition keeps_tidy (st st' : Session) : Prop := tidy st -> tidy st'.

(** The qname of a term when the tables are tidy. *)
Definition qname_closed (store : Store) (u : Term) : option string :=
  match qname_parts store u with
  | Some (prefix, _, local) =>
      Some ((if reserved_marked prefix then "p" +:+ prefix else prefix) +:+ ":" +:+ local)
  | None => None
  end.

(** Two sessions that differ at most in the prefix rewrites they have
    cached so far. *)
Definition alike (st1 st2 : Session) : Prop :=
  serialized st1 = serialized st2
  /\ max_depth st1 = max_depth st2
  /\ base st1 = base st2
  /\ stream st1 = stream st2
  /\ trace st1 = trace st2
  /\ tidy st1 /\ tidy st2.

(** A computation that cannot tell such sessions apart. *)
Definition agree {A : Type} (m : M A) : Prop :=
  forall st1 st2, alike st1 st2 -> alike (m st1).1 (m st2).1 /\ (m st1).2 = (m st2).2.

(** * Properties *)

(** ** The prefix loop terminates *)

Section FreshPrefix.
Variable ns : gmap string string.


Lemma length_marker p : String.length ("p" +:+ p) = S (String.length p).
Proof. reflexivity. Qed.

Lemma str_repeat_shift n p :
  str_repeat "p" n +:+ ("p" +:+ p) = str_repeat "p" (S n) +:+ p.
Proof.
  induction n as [|n IHn]; [reflexivity |].
  change (str_repeat "p" (S n)) with ("p" +:+ str_repeat "p" n).
  change (str_repeat "p" (S (S n))) with ("p" +:+ str_repeat "p" (S n)).
  change (String "p" (str_repeat "p" n +:+ ("p" +:+ p))
          = String "p" (str_repeat "p" (S n) +:+ p)).
  by rewrite IHn.
Qed.

Lemma longer_keys_step p :
  is_Some (ns !! p) -> longer_keys ns ("p" +:+ p) ⊂ longer_keys ns p.
Proof.
  intros Hp. apply elem_of_dom in Hp. unfold longer_keys. split.
  - intros k. rewrite !elem_of_filter, length_marker. intros [? ?].
    split; [lia | done].
  - intros Hsub. assert (Hin : p ∈ filter (fun k => (String.length ("p" +:+ p) <= String.length k)%nat) (dom ns)).
    { apply Hsub. apply elem_of_filter. split; [lia | done]. }
    apply elem_of_filter in Hin as [Hlen _]. rewrite length_marker in Hlen. lia.
Qed.

Lemma fresh_prefix_enough fuel p :
  (size (longer_keys ns p) < fuel)%nat ->
  exists n, fresh_prefix fuel ns p = Some (str_repeat "p" n +:+ p)
            /\ ns !! (str_repeat "p" n +:+ p) = None.
Proof.
  revert p. induction fuel as [|fuel IH]; intros p Hsz; [lia |].
  cbn [fresh_prefix]. destruct (decide (is_Some (ns !! p))) as [Hin | Hout].
  - destruct (IH ("p" +:+ p)) as (n & Hn & Hfree).
    { pose proof (subset_size _ _ (longer_keys_step p Hin)). lia. }
    exists (S n). by rewrite <- str_repeat_shift.
  - exists O. split; [done |]. cbn [str_repeat String.append].
    by apply eq_None_not_Some.
Qed.

Lemma fresh_prefix_total p :
  exists n, fresh_prefix (S (size ns)) ns p = Some (str_repeat "p" n +:+ p)
            /\ ns !! (str_repeat "p" n +:+ p) = None.
Proof.
  apply fresh_prefix_enough. unfold longer_keys.
  pose proof (subseteq_size (filter (fun k => (String.length p <= String.length k)%nat) (dom ns)) (dom ns)) as Hle.
  rewrite size_dom in Hle. 
  assert (filter (fun k => (String.length p <= String.length k)%nat) (dom ns) ⊆ dom ns) as Hs.
  { intros k Hk. by apply elem_of_filter in Hk as [_ ?]. }
  specialize (Hle Hs). lia.
Qed.
End FreshPrefix.


(** ** The prefix resolver ([addNamespace]) *)

Lemma set_ns_rewrite_id st : set_ns_rewrite (ns_rewrite st) st = st.
Proof. by destruct st. Qed.

Lemma addNamespace_cached prefix namespace st p :
  ns_rewrite st !! prefix = Some p ->
  addNamespace prefix namespace st = (st, Ok p).
Proof.
  intros Hc. unfold addNamespace, bind, get, ret. cbn beta iota.
  destruct (reserved_marked prefix || mapped_elsewhere (namespaces st) prefix namespace).
  - destruct (decide (is_Some (ns_rewrite st !! prefix))) as [_ | Hn].
    + cbn. by rewrite Hc.
    + destruct Hn. by eexists.
  - cbn. by rewrite Hc.
Qed.

Lemma addNamespace_plain prefix namespace st :
  reserved_marked prefix || mapped_elsewhere (namespaces st) prefix namespace = false ->
  ns_rewrite st !! prefix = None ->
  addNamespace prefix namespace st = (st, Ok prefix).
Proof.
  intros Hc Hn. unfold addNamespace, bind, get, ret. cbn beta iota.
  rewrite Hc. cbn. by rewrite Hn.
Qed.

Lemma addNamespace_fresh prefix namespace st :
  reserved_marked prefix || mapped_elsewhere (namespaces st) prefix namespace = true ->
  ns_rewrite st !! prefix = None ->
  exists n,
    addNamespace prefix namespace st
    = (set_ns_rewrite (<[prefix := str_repeat "p" (S n) +:+ prefix]> (ns_rewrite st)) st,
       Ok (str_repeat "p" (S n) +:+ prefix))
    /\ namespaces st !! (str_repeat "p" (S n) +:+ prefix) = None.
Proof.
  intros Hc Hn. unfold addNamespace, bind, get, ret. cbn beta iota. rewrite Hc.
  destruct (decide (is_Some (ns_rewrite st !! prefix))) as [Hs | _].
  { rewrite Hn in Hs. by destruct Hs. }
  destruct (fresh_prefix_total (namespaces st) ("p" +:+ prefix)) as (n & Hf & Hfree).
  rewrite str_repeat_shift in Hf, Hfree.
  exists n. rewrite Hf. cbn. rewrite lookup_insert_eq. done.
Qed.

(** Whatever the call does, the tables only grow and the rest of the
    session is untouched. *)
Lemma addNamespace_effect prefix namespace st :
  exists p rw,
    addNamespace prefix namespace st = (set_ns_rewrite rw st, Ok p)
    /\ ns_rewrite st ⊆ rw
    /\ default prefix (rw !! prefix) = p.
Proof.
  destruct (ns_rewrite st !! prefix) as [p|] eqn:Hc.
  - exists p, (ns_rewrite st). rewrite set_ns_rewrite_id, Hc.
    split; [by apply addNamespace_cached | done].
  - destruct (reserved_marked prefix || mapped_elsewhere (namespaces st) prefix namespace) eqn:Hcond.
    + destruct (addNamespace_fresh prefix namespace st Hcond Hc) as (n & Hrun & _).
      eexists _, _. split; [exact Hrun |]. split; [by apply insert_subseteq |].
      by rewrite lookup_insert_eq.
    + exists prefix, (ns_rewrite st). rewrite set_ns_rewrite_id, Hc.
      split; [by apply addNamespace_plain | done].
Qed.




(** The resolver as a function of the two tables. *)
Lemma addNamespace_run prefix namespace st :
  addNamespace prefix namespace st
  = (set_ns_rewrite (rewrite_of (namespaces st) (ns_rewrite st) prefix namespace) st,
     Ok (default prefix
           (rewrite_of (namespaces st) (ns_rewrite st) prefix namespace !! prefix))).
Proof.
  unfold addNamespace, rewrite_of, bind, get, ret. cbn beta iota.
  destruct (reserved_marked prefix || mapped_elsewhere (namespaces st) prefix namespace).
  - destruct (decide (is_Some (ns_rewrite st !! prefix))) as [Hs | Hn].
    + cbn. by rewrite set_ns_rewrite_id.
    + destruct (fresh_prefix_total (namespaces st) ("p" +:+ prefix)) as (n & Hf & _).
      rewrite Hf. done.
  - cbn. by rewrite set_ns_rewrite_id.
Qed.




(** ** The driver's precondition *)

(** C4: a [max_depth] that is not positive makes [serialize] fail on its
    assertion; the stream holds what it held before the call and no block
    has been opened. *)
Theorem C4_nonpositive_depth_rejected (store : Store) (fuel : nat)
    (stream0 : list string) (base0 : option string) (d : Z) (st : Session) :
  d <= 0 ->
  exists st',
    serialize store fuel stream0 base0 (Some d) st = (st', Raise AssertionError)
    /\ stream st' = stream0
    /\ trace st' = [].
Proof.
  intros Hd. unfold serialize, bind, modify, get_max_depth. cbn.
  rewrite bool_decide_eq_false_2 by lia. by eexists.
Qed.

Lemma C4_nonpositive_depth_rejected_witness :
  exists st',
    serialize Examples.chain_store 5 ["<html>"] None (Some 0)
      (self_state (init Examples.chain_store 3))
    = (st', Raise AssertionError)
    /\ stream st' = ["<html>"]
    /\ trace st' = [].
Proof.
  apply (C4_nonpositive_depth_rejected Examples.chain_store 5 ["<html>"] None 0). lia.
Defined.

(** C10: the [max_depth] handed to the constructor is dropped: two objects
    built over the same store serialize alike, the object holds no depth
    limit after construction, and the limit in force is the keyword
    argument of [serialize], 3 when it is not given, whatever limit an
    earlier call left in the object. *)
Theorem C10_constructor_depth_ignored (store : Store) (d1 d2 : Z) (fuel : nat)
    (stream0 : list string) (base0 : option string) (arg : option Z) :
  run_serialize (init store d1) fuel stream0 base0 arg
  = run_serialize (init store d2) fuel stream0 base0 arg
  /\ run_serialize (init store d1) fuel stream0 base0 None
     = run_serialize (init store d1) fuel stream0 base0 (Some 3)
  /\ max_depth (self_state (init store d1)) = None
  /\ (forall (st : Session) (d : option Z),
        serialize store fuel stream0 base0 arg (set_max_depth d st)
        = serialize store fuel stream0 base0 arg st).
Proof. repeat split. Qed.

(** ** Reasoning about runs: relations kept by every step *)

Section Keeps.
Context {R : Session -> Session -> Prop} `{!Reflexive R} `{!Transitive R}.

Lemma keeps_ret {A : Type} (a : A) : keeps R (ret a).
Proof. intros st. reflexivity. Qed.

Lemma keeps_raise {A : Type} (e : Exn) : keeps R (@raise A e).
Proof. intros st. reflexivity. Qed.

Lemma keeps_out_of_fuel {A : Type} : keeps R (@out_of_fuel A).
Proof. intros st. reflexivity. Qed.

Lemma keeps_get {A : Type} (f : Session -> A) : keeps R (get f).
Proof. intros st. reflexivity. Qed.

Lemma keeps_get_max_depth : keeps R get_max_depth.
Proof. intros st. unfold get_max_depth. destruct (max_depth st); reflexivity. Qed.

Lemma keeps_is_serialized (t : Term) : keeps R (is_serialized t).
Proof. intros st. unfold is_serialized. destruct (serialized st); reflexivity. Qed.

Lemma keeps_bind {A B : Type} (m : M A) (k : A -> M B) :
  keeps R m -> (forall a, keeps R (k a)) -> keeps R (bind m k).
Proof.
  intros Hm Hk st. unfold bind. specialize (Hm st).
  destruct (m st) as [st1 [a | e |]]; cbn in *; [| done | done].
  etrans; [exact Hm | apply Hk].
Qed.

Lemma keeps_for_each {A : Type} (xs : list A) (body : A -> M unit) :
  (forall x, keeps R (body x)) -> keeps R (for_each xs body).
Proof.
  intros Hb. induction xs as [|x xs IH]; [apply keeps_ret |].
  cbn [for_each]. apply keeps_bind; [apply Hb | done].
Qed.
End Keeps.

Global Instance frame_refl : Reflexive frame.
Proof.
  intros st. repeat split; try done; exists []; by rewrite app_nil_r.
Qed.

Global Instance frame_trans : Transitive frame.
Proof.
  intros s1 s2 s3 ([w1 H1] & Hn1 & Hr1 & Hm1 & Hb1 & [l1 Ht1])
    ([w2 H2] & Hn2 & Hr2 & Hm2 & Hb2 & [l2 Ht2]).
  repeat split; try congruence.
  - exists (w1 ++ w2). by rewrite H2, H1, app_assoc.
  - by etrans.
  - exists (l1 ++ l2). by rewrite Ht2, Ht1, app_assoc.
Qed.

Lemma opens_app l1 l2 : opens (l1 ++ l2) = opens l1 ++ opens l2.
Proof. apply omap_app. Qed.

Lemma closes_app l1 l2 : closes (l1 ++ l2) = closes l1 ++ closes l2.
Proof. apply omap_app. Qed.

Global Instance visits_refl : Reflexive visits.
Proof.
  intros st V HV. exists V, []. rewrite app_nil_r.
  split; [done |]. split; [done |]. split; [done |].
  split; [apply NoDup_nil_2 |]. split; [apply NoDup_nil_2 |].
  intros t [Hin | Hin]; by apply not_elem_of_nil in Hin.
Qed.

Global Instance visits_trans : Transitive visits.
Proof.
  intros s1 s2 s3 H12 H23 V HV.
  destruct (H12 V HV) as (V2 & l1 & HV2 & Hsub1 & Ht1 & Ho1 & Hc1 & Hnew1).
  destruct (H23 V2 HV2) as (V3 & l2 & HV3 & Hsub2 & Ht2 & Ho2 & Hc2 & Hnew2).
  exists V3, (l1 ++ l2). rewrite opens_app, closes_app.
  split; [done |]. split; [by etrans |].
  split; [by rewrite Ht2, Ht1, app_assoc |].
  split; [| split].
  - apply NoDup_app. split; [done |]. split; [| done].
    intros t Hin1 Hin2. destruct (Hnew1 t (or_introl Hin1)) as [_ ?].
    destruct (Hnew2 t (or_introl Hin2)) as [? _]. done.
  - apply NoDup_app. split; [done |]. split; [| done].
    intros t Hin1 Hin2. destruct (Hnew1 t (or_intror Hin1)) as [_ ?].
    destruct (Hnew2 t (or_intror Hin2)) as [? _]. done.
  - intros t. rewrite !elem_of_app. intros [[H | H] | [H | H]].
    + destruct (Hnew1 t (or_introl H)) as [Hn Hv]. split; [done | by apply Hsub2].
    + destruct (Hnew2 t (or_introl H)) as [Hn Hv]. split; [| done].
      intros Hin. by apply Hn, Hsub1.
    + destruct (Hnew1 t (or_intror H)) as [Hn Hv]. split; [done | by apply Hsub2].
    + destruct (Hnew2 t (or_intror H)) as [Hn Hv]. split; [| done].
      intros Hin. by apply Hn, Hsub1.
Qed.

#[global] Existing Instance sw_refl.
#[global] Existing Instance sw_trans.

Lemma visits_same st st' :
  serialized st' = serialized st -> trace st' = trace st -> visits st st'.
Proof.
  intros Hs Ht V HV. exists V, []. rewrite app_nil_r, Hs, Ht.
  split; [done |]. split; [done |]. split; [done |].
  split; [apply NoDup_nil_2 |]. split; [apply NoDup_nil_2 |].
  intros t [Hin | Hin]; by apply not_elem_of_nil in Hin.
Qed.

Lemma frame_same st st' :
  stream st' = stream st -> namespaces st' = namespaces st ->
  ns_rewrite st ⊆ ns_rewrite st' -> max_depth st' = max_depth st ->
  base st' = base st -> trace st' = trace st -> frame st st'.
Proof.
  intros Hs Hn Hr Hm Hb Ht. repeat split; try done; exists []; by rewrite app_nil_r.
Qed.

Lemma frame_log e : keeps frame (log e).
Proof.
  intros st. repeat split; try done; [exists [] | exists [e]]; by rewrite ?app_nil_r.
Qed.

Global Instance frame_stepwise : Stepwise frame.
Proof.
  split; try apply _.
  - intros s st. repeat split; try done; [by exists [s] | exists []; by rewrite app_nil_r].
  - intros t st. unfold mark. destruct (serialized st); [| reflexivity].
    by apply frame_same.
  - intros o. apply frame_log.
  - intros m st Hm. by apply frame_same.
Qed.

Global Instance visits_stepwise : Stepwise visits.
Proof.
  split; try apply _.
  - intros s st. by apply visits_same.
  - intros t st V HV. unfold mark. rewrite HV. cbn.
    exists ({[t]} ∪ V), []. rewrite app_nil_r.
    split; [done |]. split; [apply union_subseteq_r |]. split; [done |].
    split; [apply NoDup_nil_2 |]. split; [apply NoDup_nil_2 |].
    intros x [Hin | Hin]; by apply not_elem_of_nil in Hin.
  - intros o st V HV. exists V, [Ref o]. cbn.
    split; [done |]. split; [done |]. split; [done |].
    split; [apply NoDup_nil_2 |]. split; [apply NoDup_nil_2 |].
    intros x [Hin | Hin]; by apply not_elem_of_nil in Hin.
  - intros m st _. by apply visits_same.
Qed.

Section StepwiseEmitters.
Context {R : Session -> Session -> Prop} `{!Stepwise R}.
Variable store : Store.

Lemma keeps_addNamespace prefix namespace : keeps R (addNamespace prefix namespace).
Proof.
  intros st. destruct (addNamespace_effect prefix namespace st) as (p & rw & Hrun & Hsub & _).
  rewrite Hrun. by apply sw_rewrite.
Qed.

Lemma keeps_getQName u : keeps R (getQName store u).
Proof.
  unfold getQName. destruct u as [u | |]; try apply keeps_ret.
  destruct (compute_qname store u) as [[[prefix namespace] local] |].
  - destruct (str_contains "." local); [apply keeps_ret |].
    apply keeps_bind; [apply keeps_addNamespace | intros; apply keeps_ret].
  - destruct (store_prefix store u); [| apply keeps_ret].
    destruct (str_contains "." EmptyString); [apply keeps_ret |].
    apply keeps_bind; [apply keeps_addNamespace | intros; apply keeps_ret].
Qed.

Ltac keeps_step :=
  first
    [ apply keeps_ret
    | apply keeps_out_of_fuel
    | apply keeps_get
    | apply keeps_get_max_depth
    | apply keeps_is_serialized
    | apply sw_write
    | apply sw_mark
    | apply sw_ref
    | apply keeps_getQName
    | assumption
    | apply keeps_bind; [| intros ?]
    | apply keeps_for_each; intros ?
    | match goal with
      | |- keeps _ (if ?b then _ else _) => destruct b
      | |- keeps _ (match ?x with _ => _ end) => destruct x
      end ].

Lemma keeps_open_block s type indent : keeps R (open_block store s type indent).
Proof. unfold open_block. repeat keeps_step. Qed.

Lemma keeps_list_item p indent item : keeps R (list_item store p indent item).
Proof. unfold list_item. repeat keeps_step. Qed.

Lemma keeps_for_collection fuel cell body :
  (forall item, keeps R (body item)) -> keeps R (for_collection store fuel cell body).
Proof.
  intros Hb. revert cell. induction fuel as [|fuel IH]; intros [c|]; cbn [for_collection];
    try apply keeps_ret; try apply keeps_out_of_fuel.
  apply keeps_bind; [| intros; apply IH].
  destruct (first _); [apply Hb | apply keeps_ret].
Qed.

Lemma keeps_literal_element p o indent : keeps R (literal_element store p o indent).
Proof. unfold literal_element. repeat keeps_step. Qed.

Lemma keeps_reference_element p o indent : keeps R (reference_element store p o indent).
Proof. unfold reference_element. repeat keeps_step. Qed.

Lemma keeps_predicate_with fuel subject_rec p o depth :
  (forall s d, keeps R (subject_rec s d)) ->
  keeps R (predicate_with store fuel subject_rec p o depth).
Proof.
  intros Hrec. unfold predicate_with.
  destruct (isLiteral o); [apply keeps_literal_element |].
  apply keeps_bind; [apply keeps_is_serialized | intros seen].
  destruct (seen || _); [apply keeps_reference_element |].
  destruct (is_collection_head store o).
  - apply keeps_bind; [apply sw_mark | intros _].
    apply keeps_for_collection. intros item. apply keeps_list_item.
  - pose proof (fun s d => Hrec s d). repeat keeps_step; apply Hrec.
Qed.

(** The part of [subject] between the opening and the closing block. *)
Lemma keeps_subject_edges fuel subject_rec s depth type :
  (forall s d, keeps R (subject_rec s d)) ->
  keeps R (if has_outgoing (triples store) s then
             for_each (predicate_objects (triples store) s)
               (fun po =>
                  if not_type_edge type po
                  then predicate_with store fuel subject_rec po.1 po.2 (depth + 1)
                  else ret tt)
           else ret tt).
Proof.
  intros Hrec. destruct (has_outgoing _ _); [| apply keeps_ret].
  apply keeps_for_each. intros po. destruct (not_type_edge type po); [| apply keeps_ret].
  by apply keeps_predicate_with.
Qed.
End StepwiseEmitters.

(** ** What the emitters keep *)

Lemma frame_subject store fuel s depth : keeps frame (subject store fuel s depth).
Proof.
  revert s depth. induction fuel as [|fuel IH]; intros s depth; cbn [subject].
  - apply keeps_bind; [apply keeps_is_serialized | intros [|]];
      [apply keeps_ret | apply keeps_out_of_fuel].
  - apply keeps_bind; [apply keeps_is_serialized | intros [|]]; [apply keeps_ret |].
    apply keeps_bind; [apply sw_mark | intros _].
    apply keeps_bind; [apply frame_log | intros _].
    apply keeps_bind; [apply keeps_open_block | intros _].
    apply keeps_bind; [by apply keeps_subject_edges | intros _].
    apply keeps_bind; [apply frame_log | intros _]. apply sw_write.
Qed.

Lemma frame_predicate store fuel p o depth : keeps frame (predicate store fuel p o depth).
Proof. apply keeps_predicate_with. intros s d. apply frame_subject. Qed.

(** The run of [subject] on a subject that is not visited yet, cut at the
    end of its edges. *)
Lemma subject_unseen store fuel s depth st V :
  serialized st = Some V -> s ∉ V ->
  subject store (S fuel) s depth st
  = (open_block store s (subject_type store s) (indent_of depth);;;
     (if has_outgoing (triples store) s then
        for_each (predicate_objects (triples store) s)
          (fun po =>
             if not_type_edge (subject_type store s) po
             then predicate_with store fuel (subject store fuel) po.1 po.2 (depth + 1)
             else ret tt)
      else ret tt);;;
     log (Close s);;;
     write (indent_of depth +:+ "</div>"))
      (set_trace (trace st ++ [Open s]) (set_serialized (Some ({[s]} ∪ V)) st)).
Proof.
  intros HV Hs. cbn [subject]. unfold bind at 1. unfold is_serialized. rewrite HV.
  rewrite bool_decide_eq_false_2 by done.
  unfold bind at 1. unfold mark. rewrite HV.
  unfold bind at 1. reflexivity.
Qed.

Lemma subject_seen store fuel s depth st V :
  serialized st = Some V -> s ∈ V -> subject store fuel s depth st = (st, Ok tt).
Proof.
  intros HV Hs. destruct fuel; cbn [subject]; unfold bind, is_serialized;
    rewrite HV; by rewrite bool_decide_eq_true_2.
Qed.

(** A block of [s], opened in a state where [s] was not visited, around
    events that are new with respect to the table with [s] added. *)
Lemma visits_block st st4 s V V4 l (closed : bool) :
  serialized st = Some V -> s ∉ V ->
  serialized st4 = Some V4 -> {[s]} ∪ V ⊆ V4 ->
  trace st4 = trace st ++ Open s :: l ++ (if closed then [Close s] else []) ->
  NoDup (opens l) -> NoDup (closes l) ->
  (forall t, (t ∈ opens l \/ t ∈ closes l) -> (t ∉ {[s]} ∪ V) /\ t ∈ V4) ->
  visits st st4.
Proof.
  intros HV Hs HV4 Hsub Ht Ho Hc Hnew V0 HV0. rewrite HV in HV0. injection HV0 as <-.
  exists V4, (Open s :: l ++ (if closed then [Close s] else [])).
  assert (s ∉ opens l) as Hso.
  { intros Hin. destruct (Hnew s (or_introl Hin)) as [Hn _].
    apply Hn, elem_of_union_l. by apply elem_of_singleton. }
  assert (s ∉ closes l) as Hsc.
  { intros Hin. destruct (Hnew s (or_intror Hin)) as [Hn _].
    apply Hn, elem_of_union_l. by apply elem_of_singleton. }
  assert (opens (Open s :: l ++ (if closed then [Close s] else [])) = s :: opens l) as ->.
  { cbn. rewrite opens_app. destruct closed; cbn; by rewrite app_nil_r. }
  assert (closes (Open s :: l ++ (if closed then [Close s] else []))
          = closes l ++ (if closed then [s] else [])) as ->.
  { cbn. rewrite closes_app. by destruct closed. }
  assert (s ∈ V4) as Hs4 by (apply Hsub, elem_of_union_l; by apply elem_of_singleton).
  assert (forall t, t ∉ {[s]} ∪ V -> t ∉ V) as Hweak.
  { intros t Hn HinV. by apply Hn, elem_of_union_r. }
  split; [done |]. split; [by etrans; [apply union_subseteq_r | exact Hsub] |].
  split; [done |].
  split; [| split].
  - apply NoDup_cons. by split.
  - apply NoDup_app. split; [done |]. split.
    + intros t Hin Hin'. destruct closed; [| by apply not_elem_of_nil in Hin'].
      apply list_elem_of_singleton in Hin' as ->. done.
    + destruct closed; [apply NoDup_singleton | apply NoDup_nil_2].
  - intros t [Hin | Hin].
    + apply elem_of_cons in Hin as [-> | Hin]; [done |].
      destruct (Hnew t (or_introl Hin)) as [Hn Hv]. split; [by apply Hweak | done].
    + apply elem_of_app in Hin as [Hin | Hin].
      * destruct (Hnew t (or_intror Hin)) as [Hn Hv]. split; [by apply Hweak | done].
      * destruct closed; [| by apply not_elem_of_nil in Hin].
        apply list_elem_of_singleton in Hin as ->. done.
Qed.

Lemma visits_subject store fuel s depth : keeps visits (subject store fuel s depth).
Proof.
  revert s depth. induction fuel as [|fuel IH]; intros s depth.
  { cbn [subject]. apply keeps_bind; [apply keeps_is_serialized | intros [|]];
      [apply keeps_ret | apply keeps_out_of_fuel]. }
  intros st. destruct (serialized st) as [V|] eqn:HV; [| intros V' HV'; congruence].
  destruct (decide (s ∈ V)) as [Hin | Hout].
  { rewrite (subject_seen store (S fuel) s depth st V HV Hin). reflexivity. }
  rewrite (subject_unseen store fuel s depth st V HV Hout).
  set (st2 := set_trace (trace st ++ [Open s]) (set_serialized (Some ({[s]} ∪ V)) st)).
  assert (Hedges : forall st4, visits st2 st4 -> forall (closed : bool) (st5 : Session),
            serialized st5 = serialized st4 ->
            trace st5 = trace st4 ++ (if closed then [Close s] else []) ->
            visits st st5).
  { intros st4 H24 closed st5 Hs5 Ht5.
    destruct (H24 ({[s]} ∪ V) eq_refl) as (V4 & l & HV4 & Hsub & Ht & Ho & Hc & Hnew).
    apply (visits_block st st5 s V V4 l closed); try done.
    - by rewrite Hs5.
    - rewrite Ht5, Ht. unfold st2. cbn. by rewrite <- !app_assoc. }
  unfold bind at 1.
  pose proof (keeps_open_block (R := visits) store s (subject_type store s)
                (indent_of depth) st2) as H1.
  destruct (open_block _ _ _ _ st2) as [st3 o3]. cbn [fst] in H1.
  destruct o3 as [[] | e |]; cbn [fst].
  2,3: apply (Hedges st3 H1 false); [done | by rewrite app_nil_r].
  unfold bind at 1.
  pose proof (keeps_subject_edges (R := visits) store fuel (subject store fuel) s depth
                (subject_type store s) IH st3) as H2.
  match type of H2 with visits _ (?r).1 => destruct r as [st4 o4] end. cbn [fst] in H2.
  assert (visits st2 st4) as H24 by (by etrans).
  destruct o4 as [[] | e |]; cbn [fst].
  2,3: apply (Hedges st4 H24 false); [done | by rewrite app_nil_r].
  apply (Hedges st4 H24 true); done.
Qed.

Lemma visits_predicate store fuel p o depth : keeps visits (predicate store fuel p o depth).
Proof. apply keeps_predicate_with. intros s d. apply visits_subject. Qed.

(** ** The driver *)

Lemma visits_pass_roots store fuel : keeps visits (pass_roots store fuel).
Proof.
  apply keeps_for_each. intros s. destruct (has_incoming _ s).
  - destruct (has_edge _ s s); [apply visits_subject | apply keeps_ret].
  - apply visits_subject.
Qed.

Lemma visits_pass_resources store fuel : keeps visits (pass_resources store fuel).
Proof.
  apply keeps_for_each. intros s.
  destruct (isBNode s); [apply keeps_ret | apply visits_subject].
Qed.

Lemma visits_pass_bnodes store fuel : keeps visits (pass_bnodes store fuel).
Proof.
  apply keeps_for_each. intros b.
  apply keeps_bind; [apply keeps_is_serialized | intros [|]]; [apply keeps_ret |].
  destruct (last _); [apply visits_subject | apply keeps_raise].
Qed.

(** One step of a run that began in [st0]: whatever holds of every state
    reached from [st0] holds of the state the run ends in. *)
Lemma reach_bind {A B : Type} (R : Session -> Session -> Prop) `{!Transitive R}
    (Post : Session -> Prop) (m : M A) (k : A -> M B) (st0 st : Session) :
  R st0 st -> keeps R m ->
  (forall st1, R st0 st1 -> Post st1) ->
  (forall a st1, R st0 st1 -> Post (k a st1).1) ->
  Post (bind m k st).1.
Proof.
  intros H0 Hm Hstop Hgo. unfold bind. specialize (Hm st).
  destruct (m st) as [st1 [a | e |]]; cbn [fst] in *.
  - apply Hgo. by etrans.
  - apply Hstop. by etrans.
  - apply Hstop. by etrans.
Qed.

Lemma serialize_blocks_once store fuel stream0 base0 arg st :
  NoDup (opens (trace (serialize store fuel stream0 base0 arg st).1))
  /\ NoDup (closes (trace (serialize store fuel stream0 base0 arg st).1)).
Proof.
  unfold serialize.
  set (st0 := set_max_depth (Some (default 3 arg))
                (set_stream stream0 (set_base base0 (set_trace []
                   (set_serialized (Some ∅) st))))).
  set (Done := fun st' : Session =>
                 NoDup (opens (trace st')) /\ NoDup (closes (trace st'))).
  assert (Hstop : forall st1, visits st0 st1 -> Done st1).
  { intros st1 H1. destruct (H1 ∅ eq_refl) as (V & l & _ & _ & Ht & Ho & Hc & _).
    unfold Done. rewrite Ht. done. }
  change (Done (((modify (set_serialized (Some ∅)));;;
                 (modify (set_trace []));;;
                 (modify (set_base base0));;;
                 (modify (set_stream stream0));;;
                 (modify (set_max_depth (Some (default 3 arg))));;;
                 md <- get_max_depth;;
                 (if bool_decide (md > 0) then
                    match declare_namespaces store (possible store) [("rdf", RDF_NS)] with
                    | Some nss =>
                        write ("<div xmlns=" +:+ Q +:+ "http://www.w3.org/1999/xhtml" +:+ Q);;;
                        for_each nss
                          (fun pn => write (NL +:+ "  xmlns:" +:+ pn.1 +:+ "=" +:+ Q
                                            +:+ pn.2 +:+ Q));;;
                        write ">";;;
                        pass_roots store fuel;;;
                        pass_resources store fuel;;;
                        pass_bnodes store fuel;;;
                        write (NL +:+ "</div>");;;
                        modify (set_serialized None)
                    | None => raise QNameError
                    end
                  else raise AssertionError)) st).1).
  do 5 (unfold bind at 1; unfold modify at 1).
  unfold bind at 1. unfold get_max_depth at 1. cbn [max_depth set_max_depth].
  fold st0.
  destruct (bool_decide (default 3 arg > 0)); [| by apply Hstop].
  destruct (declare_namespaces _ _ _) as [nss|]; [| by apply Hstop].
  apply (reach_bind visits Done _ _ st0); [done | apply sw_write | done |]. intros _ st1 H1.
  apply (reach_bind visits Done _ _ st0); [done | | done |].
  { apply keeps_for_each. intros pn. apply sw_write. }
  intros _ st2 H2.
  apply (reach_bind visits Done _ _ st0); [done | apply sw_write | done |]. intros _ st3 H3.
  apply (reach_bind visits Done _ _ st0); [done | apply visits_pass_roots | done |].
  intros _ st4 H4.
  apply (reach_bind visits Done _ _ st0); [done | apply visits_pass_resources | done |].
  intros _ st5 H5.
  apply (reach_bind visits Done _ _ st0); [done | apply visits_pass_bnodes | done |].
  intros _ st6 H6.
  apply (reach_bind visits Done _ _ st0); [done | apply sw_write | done |]. intros _ st7 H7.
  apply (Hstop st7 H7).
Qed.

(** C3: on a subject that is already in the visited table, [subject]
    returns at once, having written nothing and changed nothing, at every
    depth; and over one [serialize] call no subject has its block opened
    twice, nor closed twice. *)
Theorem C3_subject_at_most_once (store : Store) :
  (forall fuel s depth st V,
      serialized st = Some V -> s ∈ V ->
      subject store fuel s depth st = (st, Ok tt))
  /\ (forall fuel stream0 base0 arg st,
        NoDup (opens (trace (serialize store fuel stream0 base0 arg st).1))
        /\ NoDup (closes (trace (serialize store fuel stream0 base0 arg st).1))).
Proof.
  split.
  - intros fuel s depth st V. apply subject_seen.
  - intros fuel stream0 base0 arg st. apply serialize_blocks_once.
Qed.

Lemma C3_subject_at_most_once_witness :
  subject Examples.chain_store 2 (Examples.ex "A") 1 (Examples.running {[Examples.ex "A"]})
  = (Examples.running {[Examples.ex "A"]}, Ok tt).
Proof.
  apply (proj1 (C3_subject_at_most_once Examples.chain_store) 2%nat (Examples.ex "A") 1
           (Examples.running {[Examples.ex "A"]}) {[Examples.ex "A"]}).
  - reflexivity.
  - apply elem_of_singleton. reflexivity.
Defined.

(** ** Qualified names *)

Lemma getQName_run store u st :
  getQName store u st
  = (set_ns_rewrite (qname_rewrite store (namespaces st) (ns_rewrite st) u) st,
     Ok (qname_value store (namespaces st) (ns_rewrite st) u)).
Proof.
  unfold getQName, qname_rewrite, qname_value, qname_parts.
  destruct u as [u | b | l a d]; try by rewrite set_ns_rewrite_id.
  destruct (match compute_qname store u with
            | Some parts => Some parts
            | None => match store_prefix store u with
                      | Some pfx => Some (pfx, u, EmptyString)
                      | None => None
                      end
            end) as [[[prefix namespace] local] |]; [| by rewrite set_ns_rewrite_id].
  destruct (str_contains "." local); [by rewrite set_ns_rewrite_id |].
  unfold bind. by rewrite addNamespace_run.
Qed.

(** ** The opening block of a blank node *)

Lemma frame_subject_rest store fuel s depth type :
  keeps frame
    ((if has_outgoing (triples store) s then
        for_each (predicate_objects (triples store) s)
          (fun po =>
             if not_type_edge type po
             then predicate_with store fuel (subject store fuel) po.1 po.2 (depth + 1)
             else ret tt)
      else ret tt);;;
     log (Close s);;;
     write (indent_of depth +:+ "</div>")).
Proof.
  apply keeps_bind.
  - apply keeps_subject_edges. intros s' d'. apply frame_subject.
  - intros _. apply keeps_bind; [apply frame_log | intros _; apply sw_write].
Qed.

Lemma open_block_bnode store b type indent st :
  open_block store (BNode b) type indent st
  = (set_stream
       (stream st
        ++ [if more_than (triples_to (triples store) (BNode b)) 1 then
              indent +:+ "<div typeof=" +:+ Q
              +:+ fmt (qname_value store (namespaces st) (ns_rewrite st) (type_element type))
              +:+ Q +:+ " about=" +:+ Q +:+ fix_id b +:+ Q +:+ ">"
            else
              indent +:+ "<div typeof=" +:+ Q
              +:+ fmt (qname_value store (namespaces st) (ns_rewrite st) (type_element type))
              +:+ Q +:+ ">"])
       (set_ns_rewrite
          (qname_rewrite store (namespaces st) (ns_rewrite st) (type_element type)) st),
     Ok tt).
Proof.
  unfold open_block. cbn [isBNode term_str].
  destruct (more_than _ 1); unfold bind; by rewrite getQName_run.
Qed.

Lemma subject_bnode_stream store fuel b depth st V :
  serialized st = Some V -> BNode b ∉ V ->
  exists rest,
    stream (subject store (S fuel) (BNode b) depth st).1
    = stream st
      ++ (if more_than (triples_to (triples store) (BNode b)) 1 then
            indent_of depth +:+ "<div typeof=" +:+ Q
            +:+ fmt (qname_value store (namespaces st) (ns_rewrite st)
                       (type_element (subject_type store (BNode b))))
            +:+ Q +:+ " about=" +:+ Q +:+ fix_id b +:+ Q +:+ ">"
          else
            indent_of depth +:+ "<div typeof=" +:+ Q
            +:+ fmt (qname_value store (namespaces st) (ns_rewrite st)
                       (type_element (subject_type store (BNode b))))
            +:+ Q +:+ ">") :: rest.
Proof.
  intros HV Hb. rewrite (subject_unseen store fuel (BNode b) depth st V HV Hb).
  unfold bind at 1. rewrite open_block_bnode.
  match goal with
  | |- context [bind ?m ?k ?st3] =>
      pose proof (frame_subject_rest store fuel (BNode b) depth
                    (subject_type store (BNode b)) st3) as [[w Hw] _]
  end.
  exists w. rewrite Hw. cbn [stream set_stream set_ns_rewrite set_trace set_serialized
                             namespaces ns_rewrite].
  by rewrite <- List.app_assoc.
Qed.

(** C8: when a blank node that is not visited yet is materialized, the
    first thing [subject] writes is its opening block; the block carries an
    [about] attribute with the fixed-up node id when the node is the object
    of more than one statement, and no [about] attribute when it is the
    object of at most one. *)
Theorem C8_bnode_identifying_attribute (store : Store) (fuel : nat) (b : string)
    (depth : Z) (st : Session) (V : gset Term) :
  serialized st = Some V -> BNode b ∉ V ->
  exists q rest,
    (getQName store (type_element (subject_type store (BNode b))) st).2 = Ok q
    /\ ((1 < length (triples_to (triples store) (BNode b)))%nat ->
        stream (subject store (S fuel) (BNode b) depth st).1
        = stream st
          ++ (indent_of depth +:+ "<div typeof=" +:+ Q +:+ fmt q +:+ Q +:+ " about=" +:+ Q
              +:+ fix_id b +:+ Q +:+ ">") :: rest)
    /\ ((length (triples_to (triples store) (BNode b)) <= 1)%nat ->
        stream (subject store (S fuel) (BNode b) depth st).1
        = stream st
          ++ (indent_of depth +:+ "<div typeof=" +:+ Q +:+ fmt q +:+ Q +:+ ">") :: rest).
Proof.
  intros HV Hb.
  destruct (subject_bnode_stream store fuel b depth st V HV Hb) as [rest Hrest].
  exists (qname_value store (namespaces st) (ns_rewrite st)
            (type_element (subject_type store (BNode b)))), rest.
  split; [by rewrite getQName_run |]. rewrite Hrest. unfold more_than.
  split; intros Hn.
  - by rewrite bool_decide_eq_true_2.
  - by rewrite bool_decide_eq_false_2 by lia.
Qed.

Lemma C8_bnode_identifying_attribute_witness :
  exists q rest,
    (getQName Examples.cycle_store
       (type_element (subject_type Examples.cycle_store (BNode "a")))
       (Examples.running ∅)).2 = Ok q
    /\ ((1 < length (triples_to (triples Examples.cycle_store) (BNode "a")))%nat ->
        stream (subject Examples.cycle_store 3 (BNode "a") 1 (Examples.running ∅)).1
        = stream (Examples.running ∅)
          ++ (indent_of 1 +:+ "<div typeof=" +:+ Q +:+ fmt q +:+ Q +:+ " about=" +:+ Q
              +:+ fix_id "a" +:+ Q +:+ ">") :: rest)
    /\ ((length (triples_to (triples Examples.cycle_store) (BNode "a")) <= 1)%nat ->
        stream (subject Examples.cycle_store 3 (BNode "a") 1 (Examples.running ∅)).1
        = stream (Examples.running ∅)
          ++ (indent_of 1 +:+ "<div typeof=" +:+ Q +:+ fmt q +:+ Q +:+ ">") :: rest).
Proof.
  apply (C8_bnode_identifying_attribute Examples.cycle_store 2 "a" 1 (Examples.running ∅) ∅).
  - reflexivity.
  - apply not_elem_of_empty.
Defined.

(** ** The cases of [predicate] *)

Lemma predicate_class_run store fuel p a depth st V :
  serialized st = Some V ->
  is_class_resource store (URIRef a) = true ->
  is_collection_head store (URIRef a) = false ->
  predicate store fuel p (URIRef a) depth st
  = (set_stream
       (stream st
        ++ [indent_of depth +:+ "<div rel=" +:+ Q
            +:+ fmt (qname_value store (namespaces st) (ns_rewrite st) p) +:+ Q;
            " resource=" +:+ Q +:+ relativize (base st) a +:+ Q +:+ ">";
            "</div>"])
       (set_trace (trace st ++ [Ref (URIRef a)])
          (set_ns_rewrite (qname_rewrite store (namespaces st) (ns_rewrite st) p) st)),
     Ok tt).
Proof.
  intros HV Hclass Hhead.
  unfold predicate, predicate_with. cbn [isLiteral].
  unfold bind at 1. unfold is_serialized at 1. rewrite HV.
  destruct (bool_decide (URIRef a ∈ V) || negb (has_outgoing (triples store) (URIRef a))).
  - unfold reference_element, bind, write, log, modify, get. rewrite getQName_run. cbn.
    unfold set_stream, set_trace, set_ns_rewrite. cbn. by rewrite <- !List.app_assoc.
  - rewrite Hhead. unfold bind, write, log, modify, get. rewrite getQName_run. cbn.
    rewrite Hclass. cbn.
    unfold set_stream, set_trace, set_ns_rewrite. cbn. by rewrite <- !List.app_assoc.
Qed.

(** C7 (as amended): for an object that is an IRI typed [owl:Class] or
    [rdfs:Class] and that is not the head of a collection, [predicate]
    writes a reference-only element (the [rel] element with a [resource]
    attribute) and returns; no block is opened and the visited table is
    unchanged, at every depth, for every depth limit and whether the object
    was visited or not. *)
Theorem C7_class_object_referenced (store : Store) (fuel : nat) (p : Term) (a : string)
    (depth : Z) (st : Session) (V : gset Term) :
  serialized st = Some V ->
  is_class_resource store (URIRef a) = true ->
  is_collection_head store (URIRef a) = false ->
  exists q,
    (getQName store p st).2 = Ok q
    /\ (predicate store fuel p (URIRef a) depth st).2 = Ok tt
    /\ stream (predicate store fuel p (URIRef a) depth st).1
       = stream st
         ++ [indent_of depth +:+ "<div rel=" +:+ Q +:+ fmt q +:+ Q;
             " resource=" +:+ Q +:+ relativize (base st) a +:+ Q +:+ ">";
             "</div>"]
    /\ trace (predicate store fuel p (URIRef a) depth st).1 = trace st ++ [Ref (URIRef a)]
    /\ serialized (predicate store fuel p (URIRef a) depth st).1 = Some V.
Proof.
  intros HV Hclass Hhead.
  exists (qname_value store (namespaces st) (ns_rewrite st) p).
  split; [by rewrite getQName_run |].
  rewrite (predicate_class_run store fuel p a depth st V HV Hclass Hhead). by cbn.
Qed.

Lemma C7_class_object_referenced_witness :
  exists q,
    (getQName Examples.class_store (Examples.ex "p") (Examples.running ∅)).2 = Ok q
    /\ (predicate Examples.class_store 3 (Examples.ex "p") (URIRef "http://ex.org/K") 2
          (Examples.running ∅)).2 = Ok tt
    /\ stream (predicate Examples.class_store 3 (Examples.ex "p") (URIRef "http://ex.org/K") 2
                 (Examples.running ∅)).1
       = stream (Examples.running ∅)
         ++ [indent_of 2 +:+ "<div rel=" +:+ Q +:+ fmt q +:+ Q;
             " resource=" +:+ Q +:+ relativize (base (Examples.running ∅)) "http://ex.org/K"
             +:+ Q +:+ ">";
             "</div>"]
    /\ trace (predicate Examples.class_store 3 (Examples.ex "p") (URIRef "http://ex.org/K") 2
                (Examples.running ∅)).1
       = trace (Examples.running ∅) ++ [Ref (URIRef "http://ex.org/K")]
    /\ serialized (predicate Examples.class_store 3 (Examples.ex "p")
                     (URIRef "http://ex.org/K") 2 (Examples.running ∅)).1 = Some ∅.
Proof.
  apply (C7_class_object_referenced Examples.class_store 3 (Examples.ex "p")
           "http://ex.org/K" 2 (Examples.running ∅) ∅); reflexivity.
Defined.

(** C7, as stated, fails for a class-typed IRI that is the head of a
    collection: the collection case comes first, so the object is marked
    visited and flattened into list items, and no reference-only element
    is written. *)
Lemma C7_class_list_head_flattened :
  is_class_resource Examples.class_list_store (Examples.ex "K") = true
  /\ (predicate Examples.class_list_store 3 (Examples.ex "p") (Examples.ex "K") 2
        (Examples.running ∅)).2 = Ok tt
  /\ trace (predicate Examples.class_list_store 3 (Examples.ex "p") (Examples.ex "K") 2
              (Examples.running ∅)).1 = []
  /\ stream (predicate Examples.class_list_store 3 (Examples.ex "p") (Examples.ex "K") 2
               (Examples.running ∅)).1
     = [indent_of 2 +:+ "<div inlist=" +:+ Q +:+ Q +:+ " property=" +:+ Q +:+ "ex:p" +:+ Q
        +:+ " content=" +:+ Q +:+ "x" +:+ Q +:+ "></div>"]
  /\ (is_serialized (Examples.ex "K")
        (predicate Examples.class_list_store 3 (Examples.ex "p") (Examples.ex "K") 2
           (Examples.running ∅)).1).2 = Ok true.
Proof. repeat split; vm_compute; reflexivity. Qed.

Lemma is_class_resource_bnode store b : is_class_resource store (BNode b) = false.
Proof. unfold is_class_resource. by destruct (first _). Qed.

(** The first event of a materialization is the opening of the block. *)
Lemma subject_opens_first store fuel s depth st V :
  serialized st = Some V -> s ∉ V ->
  exists l, trace (subject store (S fuel) s depth st).1 = trace st ++ Open s :: l.
Proof.
  intros HV Hs. rewrite (subject_unseen store fuel s depth st V HV Hs).
  match goal with
  | |- context [bind ?m ?k ?st2] =>
      assert (keeps frame (bind m k)) as Hk
  end.
  { apply keeps_bind; [apply keeps_open_block | intros _; apply frame_subject_rest]. }
  match goal with
  | |- context [bind ?m ?k ?st2] => destruct (Hk st2) as (_ & _ & _ & _ & _ & [l Hl])
  end.
  exists l. rewrite Hl. cbn. by rewrite <- List.app_assoc.
Qed.

Lemma bind_trace_prefix {A B : Type} (m : M A) (k : A -> M B) (st : Session)
    (t : list Event) :
  (forall a, keeps frame (k a)) ->
  (exists l, trace (m st).1 = t ++ l) ->
  exists l, trace (bind m k st).1 = t ++ l.
Proof.
  intros Hk [l Hl]. unfold bind. destruct (m st) as [st1 [a | e |]]; cbn [fst] in *; eauto.
  destruct (Hk a st1) as (_ & _ & _ & _ & _ & [l' Hl']).
  exists (l ++ l'). by rewrite Hl', Hl, <- List.app_assoc.
Qed.

(** The inline case as a program: the [rel] element is opened without a
    target, the object is materialized one level deeper, the element is
    closed. *)
Lemma predicate_bnode_inline store fuel p b depth st V md :
  serialized st = Some V -> max_depth st = Some md ->
  BNode b ∉ V ->
  has_outgoing (triples store) (BNode b) = true ->
  length (subjects_of_obj (triples store) (BNode b)) = 1%nat ->
  is_collection_head store (BNode b) = false ->
  predicate store fuel p (BNode b) depth st
  = (q <- getQName store p;;
     write (indent_of depth +:+ "<div rel=" +:+ Q +:+ fmt q +:+ Q);;;
     write ">";;;
     subject store fuel (BNode b) (depth + 1);;;
     write (indent_of depth);;;
     write "</div>") st.
Proof.
  intros HV Hmd Hb Hout Hone Hhead.
  unfold predicate, predicate_with. cbn [isLiteral].
  unfold bind at 1. unfold is_serialized at 1. rewrite HV.
  rewrite bool_decide_eq_false_2 by done. rewrite Hout. cbn [negb orb].
  rewrite Hhead, is_class_resource_bnode. cbn [isBNode].
  unfold bind, write, modify, get_max_depth, is_serialized. rewrite !getQName_run.
  cbn [max_depth serialized set_stream set_ns_rewrite]. rewrite Hmd.
  destruct (bool_decide (depth <= md)).
  - by destruct (subject store fuel (BNode b) (depth + 1) _) as [st' [[] | e |]].
  - cbn [serialized set_stream set_ns_rewrite]. rewrite HV.
    rewrite (bool_decide_eq_false_2 (BNode b ∈ V)) by done. rewrite Hone.
    cbn [negb andb]. rewrite bool_decide_eq_true_2 by done.
    by destruct (subject store fuel (BNode b) (depth + 1) _) as [st' [[] | e |]].
Qed.

(** C6 (as amended): for an object that is a blank node not yet visited,
    with at least one statement of its own, that is the object of exactly
    one statement and is not the head of a collection, [predicate] runs the
    inline case at every depth, also beyond the depth limit: it opens the
    [rel] element without a target and materializes the object as a nested
    block, whose opening is the next event of the trace. *)
Theorem C6_single_use_bnode_inlined (store : Store) (fuel : nat) (p : Term) (b : string)
    (depth : Z) (st : Session) (V : gset Term) (md : Z) :
  serialized st = Some V -> max_depth st = Some md ->
  BNode b ∉ V ->
  has_outgoing (triples store) (BNode b) = true ->
  length (subjects_of_obj (triples store) (BNode b)) = 1%nat ->
  is_collection_head store (BNode b) = false ->
  predicate store (S fuel) p (BNode b) depth st
  = (q <- getQName store p;;
     write (indent_of depth +:+ "<div rel=" +:+ Q +:+ fmt q +:+ Q);;;
     write ">";;;
     subject store (S fuel) (BNode b) (depth + 1);;;
     write (indent_of depth);;;
     write "</div>") st
  /\ exists l,
       trace (predicate store (S fuel) p (BNode b) depth st).1
       = trace st ++ Open (BNode b) :: l.
Proof.
  intros HV Hmd Hb Hout Hone Hhead.
  rewrite (predicate_bnode_inline store (S fuel) p b depth st V md HV Hmd Hb Hout Hone Hhead).
  split; [done |].
  unfold bind at 1. rewrite getQName_run.
  unfold bind at 1, write at 1, modify at 1.
  unfold bind at 1, write at 1, modify at 1.
  match goal with
  | |- exists l, trace (bind ?m ?k ?st3).1 = _ =>
      destruct (bind_trace_prefix m k st3 (trace st ++ [Open (BNode b)])) as [l Hl]
  end.
  - intros _. apply keeps_bind; [apply sw_write | intros _; apply sw_write].
  - match goal with
    | |- exists l, trace (subject _ _ _ _ ?st3).1 = _ =>
        destruct (subject_opens_first store fuel (BNode b) (depth + 1) st3 V) as [l Hl];
          [done | done |]
    end.
    exists l. rewrite Hl. cbn. by rewrite <- List.app_assoc.
  - exists l. rewrite Hl. by rewrite <- List.app_assoc.
Qed.

Lemma C6_single_use_bnode_inlined_witness :
  predicate Examples.bnode_store 2 (Examples.ex "p") (BNode "b") 8 (Examples.running ∅)
  = (q <- getQName Examples.bnode_store (Examples.ex "p");;
     write (indent_of 8 +:+ "<div rel=" +:+ Q +:+ fmt q +:+ Q);;;
     write ">";;;
     subject Examples.bnode_store 2 (BNode "b") (8 + 1);;;
     write (indent_of 8);;;
     write "</div>") (Examples.running ∅)
  /\ exists l,
       trace (predicate Examples.bnode_store 2 (Examples.ex "p") (BNode "b") 8
                (Examples.running ∅)).1
       = trace (Examples.running ∅) ++ Open (BNode "b") :: l.
Proof.
  apply (C6_single_use_bnode_inlined Examples.bnode_store 1 (Examples.ex "p") "b" 8
           (Examples.running ∅) ∅ 3); try reflexivity.
  apply not_elem_of_empty.
Defined.

(** C6, as stated, fails for a blank node that is the head of a
    collection: unvisited, with statements of its own and referenced once,
    it is flattened into list items and no block is opened for it. *)
Lemma C6_list_head_not_inlined :
  has_outgoing (triples Examples.list_store) (BNode "l1") = true
  /\ length (subjects_of_obj (triples Examples.list_store) (BNode "l1")) = 1%nat
  /\ (predicate Examples.list_store 4 (Examples.ex "items") (BNode "l1") 8
        (Examples.running ∅)).2 = Ok tt
  /\ trace (predicate Examples.list_store 4 (Examples.ex "items") (BNode "l1") 8
              (Examples.running ∅)).1 = []
  /\ ~ (exists l,
          trace (predicate Examples.list_store 4 (Examples.ex "items") (BNode "l1") 8
                   (Examples.running ∅)).1
          = trace (Examples.running ∅) ++ Open (BNode "l1") :: l).
Proof.
  assert (trace (predicate Examples.list_store 4 (Examples.ex "items") (BNode "l1") 8
                   (Examples.running ∅)).1 = []) as Ht by (vm_compute; reflexivity).
  repeat split; try (vm_compute; reflexivity); try exact Ht.
  intros [l Hl]. rewrite Ht in Hl. discriminate Hl.
Qed.

(** ** Collections *)

Lemma rewrite_of_idem nss rw prefix namespace :
  rewrite_of nss (rewrite_of nss rw prefix namespace) prefix namespace
  = rewrite_of nss rw prefix namespace.
Proof.
  unfold rewrite_of.
  destruct (reserved_marked prefix || mapped_elsewhere nss prefix namespace); [| done].
  destruct (decide (is_Some (rw !! prefix))) as [Hs | Hn].
  - by rewrite decide_True.
  - destruct (fresh_prefix (S (size nss)) nss ("p" +:+ prefix)) as [q|] eqn:Hf.
    + rewrite decide_True; [done |]. rewrite lookup_insert_eq. by eexists.
    + by rewrite decide_False.
Qed.

Lemma qname_rewrite_idem store nss rw u :
  qname_rewrite store nss (qname_rewrite store nss rw u) u = qname_rewrite store nss rw u.
Proof.
  unfold qname_rewrite. destruct (qname_parts store u) as [[[prefix namespace] local] |];
    [apply rewrite_of_idem | done].
Qed.

Lemma qname_value_idem store nss rw u :
  qname_value store nss (qname_rewrite store nss rw u) u = qname_value store nss rw u.
Proof.
  unfold qname_value, qname_rewrite.
  destruct (qname_parts store u) as [[[prefix namespace] local] |]; [| done].
  by rewrite rewrite_of_idem.
Qed.

Lemma mark_items_spec items V t :
  t ∈ mark_items items V <-> t ∈ V \/ (t ∈ items /\ isURIRef t = false).
Proof.
  revert V. induction items as [|i items IH]; intros V; cbn [mark_items foldl].
  - split; [by left | intros [? | [Hin _]]; [done | by apply not_elem_of_nil in Hin]].
  - fold (mark_items items (if isURIRef i then V else {[i]} ∪ V)). rewrite IH.
    rewrite elem_of_cons. destruct (isURIRef i) eqn:Hi.
    + split; [intros [? | [? ?]]; eauto |].
      intros [? | [[-> | ?] Hu]]; eauto. congruence.
    + rewrite elem_of_union, elem_of_singleton.
      split; [intros [[-> | ?] | [? ?]]; eauto |].
      intros [? | [[-> | ?] Hu]]; eauto.
Qed.

Lemma list_item_run store p indent item st V :
  serialized st = Some V ->
  list_item store p indent item st
  = (set_serialized (Some (if isURIRef item then V else {[item]} ∪ V))
       (set_stream
          (stream st
           ++ [item_element (qname_value store (namespaces st) (ns_rewrite st) p)
                 (base st) indent item])
          (set_ns_rewrite (qname_rewrite store (namespaces st) (ns_rewrite st) p) st)),
     Ok tt).
Proof.
  intros HV. unfold list_item.
  destruct item as [u | b | l a d]; cbn [isURIRef];
    unfold bind, write, modify, get, ret, mark; rewrite getQName_run;
    cbn [serialized base stream set_stream set_ns_rewrite]; rewrite ?HV; try done.
  unfold set_serialized, set_stream, set_ns_rewrite. cbn. by rewrite HV.
Qed.

Lemma flatten_chain_run store p indent items :
  forall start, chain (triples store) start items ->
  forall (fuel : nat) st V,
    (length items < fuel)%nat -> serialized st = Some V ->
    for_collection store fuel (Some start) (list_item store p indent) st
    = (set_serialized (Some (mark_items items V))
         (set_stream
            (stream st
             ++ (item_element (qname_value store (namespaces st) (ns_rewrite st) p)
                   (base st) indent <$> items))
            (set_ns_rewrite
               (match items with
                | [] => ns_rewrite st
                | _ => qname_rewrite store (namespaces st) (ns_rewrite st) p
                end) st)),
       Ok tt).
Proof.
  intros start Hchain.
  induction Hchain as [cell Hfirst Hrest | cell item next items Hfirst Hrest Hchain IH];
    intros fuel st V Hfuel HV; (destruct fuel as [|fuel]; [cbn in Hfuel; lia |]);
    cbn [for_collection]; rewrite Hfirst, Hrest; cbn [first head].
  - unfold bind, ret. destruct fuel; cbn [for_collection];
      unfold ret, set_serialized, set_stream, set_ns_rewrite; cbn;
      rewrite app_nil_r, <- HV; by destruct st.
  - unfold bind at 1. rewrite (list_item_run store p indent item st V HV).
    rewrite (IH fuel _ (if isURIRef item then V else {[item]} ∪ V));
      [| cbn in Hfuel; lia | done].
    cbn [namespaces ns_rewrite base stream set_serialized set_stream set_ns_rewrite].
    rewrite qname_value_idem, qname_rewrite_idem.
    unfold set_serialized, set_stream, set_ns_rewrite. cbn.
    rewrite <- List.app_assoc. cbn. by destruct items.
Qed.

(** Where [predicate] flattens: an unvisited object with statements of its
    own whose first [rdf:first] object is truthy. *)
Lemma predicate_collection store fuel p o depth st V :
  serialized st = Some V -> isLiteral o = false -> o ∉ V ->
  has_outgoing (triples store) o = true ->
  is_collection_head store o = true ->
  predicate store fuel p o depth st
  = (mark o;;; flatten_collection store fuel p o (indent_of depth)) st.
Proof.
  intros HV Hlit Ho Hout Hhead. unfold predicate, predicate_with. rewrite Hlit.
  unfold bind at 1. unfold is_serialized at 1. rewrite HV.
  rewrite bool_decide_eq_false_2 by done. rewrite Hout. cbn [negb orb].
  by rewrite Hhead.
Qed.

(** C9: flattening a well-formed first/rest chain succeeds once the fuel
    covers the chain; it writes one list-item element per item, in chain
    order, and the visited table afterwards holds what it held before and
    the items that are not IRIs, and nothing else. *)
Theorem C9_collection_flattened (store : Store) (fuel : nat) (p cell : Term)
    (items : list Term) (indent : string) (st : Session) (V : gset Term) :
  chain (triples store) cell items ->
  (length items < fuel)%nat ->
  serialized st = Some V ->
  exists q V',
    (getQName store p st).2 = Ok q
    /\ (flatten_collection store fuel p cell indent st).2 = Ok tt
    /\ stream (flatten_collection store fuel p cell indent st).1
       = stream st ++ (item_element q (base st) indent <$> items)
    /\ serialized (flatten_collection store fuel p cell indent st).1 = Some V'
    /\ (forall t, t ∈ V' <-> t ∈ V \/ (t ∈ items /\ isURIRef t = false)).
Proof.
  intros Hchain Hfuel HV.
  exists (qname_value store (namespaces st) (ns_rewrite st) p), (mark_items items V).
  split; [by rewrite getQName_run |].
  unfold flatten_collection.
  rewrite (flatten_chain_run store p indent items cell Hchain fuel st V Hfuel HV).
  repeat split; try done; by apply mark_items_spec.
Qed.

Lemma C9_collection_flattened_witness :
  exists q V',
    (getQName Examples.list_store (Examples.ex "items") (Examples.running ∅)).2 = Ok q
    /\ (flatten_collection Examples.list_store 3 (Examples.ex "items") (BNode "l1")
          (indent_of 2) (Examples.running ∅)).2 = Ok tt
    /\ stream (flatten_collection Examples.list_store 3 (Examples.ex "items") (BNode "l1")
                 (indent_of 2) (Examples.running ∅)).1
       = stream (Examples.running ∅)
         ++ (item_element q (base (Examples.running ∅)) (indent_of 2)
               <$> [Literal "1" None None; Literal "2" None None])
    /\ serialized (flatten_collection Examples.list_store 3 (Examples.ex "items") (BNode "l1")
                     (indent_of 2) (Examples.running ∅)).1 = Some V'
    /\ (forall t, t ∈ V' <-> t ∈ (∅ : gset Term)
                             \/ (t ∈ [Literal "1" None None; Literal "2" None None]
                                 /\ isURIRef t = false)).
Proof.
  apply (C9_collection_flattened Examples.list_store 3 (Examples.ex "items") (BNode "l1")
           [Literal "1" None None; Literal "2" None None] (indent_of 2)
           (Examples.running ∅) ∅).
  - apply (chain_cell _ _ _ (BNode "l2")); [reflexivity | reflexivity |].
    apply (chain_cell _ _ _ RDF_nil); [reflexivity | reflexivity |].
    apply chain_end; reflexivity.
  - cbn. lia.
  - reflexivity.
Defined.

(** ** The final sweep over the blank nodes *)

(** Whatever order the store lists the statements of the two cycles in,
    the sweep calls [subject] on the last subject only, and one cycle is
    left without blocks. *)
Lemma sweep_misses_in_every_order (g : list Triple) :
  g ≡ₚ Examples.two_cycles ->
  leaves_subject_out (Examples.mk_store g) 6 = true.
Proof.
  intros Hp. symmetry in Hp. apply permutations_Permutation in Hp.
  assert (forallb (fun g => leaves_subject_out (Examples.mk_store g) 6)
            (permutations Examples.two_cycles) = true) as Hall by (vm_compute; reflexivity).
  rewrite forallb_forall in Hall. apply Hall. by apply list_elem_of_In.
Qed.

(** C2: on the two cycles the call ends normally with the blocks of [c]
    and [d] only: the sweep finds [a] unvisited and calls [subject] on the
    stale loop variable, the last subject of the store, which is [d]. *)
Theorem C2_sweep_uses_stale_subject :
  (run_serialize (init (Examples.mk_store Examples.two_cycles) 3) 6 [] None None).2 = Ok tt
  /\ opens (trace (run_serialize (init (Examples.mk_store Examples.two_cycles) 3)
                     6 [] None None).1)
     = [BNode "d"; BNode "c"]
  /\ BNode "a" ∈ subjects (triples (Examples.mk_store Examples.two_cycles))
  /\ BNode "a" ∉ opens (trace (run_serialize (init (Examples.mk_store Examples.two_cycles) 3)
                                 6 [] None None).1).
Proof.
  assert (opens (trace (run_serialize (init (Examples.mk_store Examples.two_cycles) 3)
                          6 [] None None).1)
          = [BNode "d"; BNode "c"]) as Ho by (vm_compute; reflexivity).
  split; [vm_compute; reflexivity |]. split; [exact Ho |].
  split; [apply list_elem_of_here |].
  rewrite Ho. intros Hin. apply elem_of_cons in Hin as [Hin | Hin]; [discriminate |].
  apply list_elem_of_singleton in Hin. discriminate.
Qed.

(** ** Rules for normal runs *)

Lemma runs_bind {A B : Type} (m : M A) (k : A -> M B) st V1 l1 V2 l2 :
  runs_to m st V1 l1 ->
  (forall a st1, serialized st1 = Some V1 -> max_depth st1 = max_depth st ->
                 runs_to (k a) st1 V2 l2) ->
  runs_to (bind m k) st V2 (l1 ++ l2).
Proof.
  intros (st1 & a & Hm & HV1 & Ht1 & Hd1) Hk.
  destruct (Hk a st1 HV1 Hd1) as (st2 & b & Hk2 & HV2 & Ht2 & Hd2).
  exists st2, b. unfold bind. rewrite Hm.
  split; [done |]. split; [done |]. split; [| congruence].
  by rewrite Ht2, Ht1, <- List.app_assoc.
Qed.

Lemma runs_ret {A : Type} (a : A) st V : serialized st = Some V -> runs_to (ret a) st V [].
Proof. intros HV. exists st, a. by rewrite app_nil_r. Qed.

Lemma runs_for_each_nil {A : Type} (body : A -> M unit) st V :
  serialized st = Some V -> runs_to (for_each [] body) st V [].
Proof. apply runs_ret. Qed.

Lemma runs_for_each_cons {A : Type} (body : A -> M unit) x xs st V1 l1 V2 l2 :
  runs_to (body x) st V1 l1 ->
  (forall st1, serialized st1 = Some V1 -> max_depth st1 = max_depth st ->
               runs_to (for_each xs body) st1 V2 l2) ->
  runs_to (for_each (x :: xs) body) st V2 (l1 ++ l2).
Proof. intros Hx Hxs. cbn [for_each]. apply (runs_bind _ _ st V1 l1); [done | by intros _]. Qed.

Lemma runs_open_block store s type indent st V :
  serialized st = Some V -> runs_to (open_block store s type indent) st V [].
Proof.
  intros HV. unfold runs_to, open_block.
  destruct (isBNode s); [destruct (more_than _ 1) |];
    unfold bind, write, modify, get; rewrite getQName_run;
    eexists _, _; (split; [reflexivity |]); cbn; by rewrite app_nil_r.
Qed.

Lemma runs_subject_seen store fuel s depth st V :
  serialized st = Some V -> s ∈ V -> runs_to (subject store fuel s depth) st V [].
Proof.
  intros HV Hs. exists st, tt. rewrite (subject_seen store fuel s depth st V HV Hs).
  by rewrite app_nil_r.
Qed.

Lemma filter_none {A : Type} (P : A -> Prop) `{!forall x, Decision (P x)} (l : list A) :
  ~ Exists P l -> filter P l = [].
Proof.
  induction l as [|x l IH]; [done |]. intros Hn. rewrite filter_cons.
  destruct (decide (P x)) as [Hx | _]; [destruct Hn; by left |].
  apply IH. intros He. apply Hn. by right.
Qed.

Lemma edges_guard store s (body : Term * Term -> M unit) :
  (if has_outgoing (triples store) s
   then for_each (predicate_objects (triples store) s) body else ret tt)
  = for_each (predicate_objects (triples store) s) body.
Proof.
  unfold has_outgoing, predicate_objects. case_bool_decide as Hex; [done |].
  by rewrite (filter_none _ _ Hex).
Qed.

(** A block: the subject is marked, its edges run in the table with the
    subject added, and the trace wraps their events. *)
Lemma runs_subject_block store fuel s depth st V V2 l :
  serialized st = Some V -> s ∉ V ->
  (forall st2, serialized st2 = Some ({[s]} ∪ V) -> max_depth st2 = max_depth st ->
     runs_to
       (for_each (predicate_objects (triples store) s)
          (fun po =>
             if not_type_edge (subject_type store s) po
             then predicate_with store fuel (subject store fuel) po.1 po.2 (depth + 1)
             else ret tt))
       st2 V2 l) ->
  runs_to (subject store (S fuel) s depth) st V2 (Open s :: l ++ [Close s]).
Proof.
  intros HV Hs Hedges. unfold runs_to.
  rewrite (subject_unseen store fuel s depth st V HV Hs). rewrite edges_guard.
  set (st2 := set_trace (trace st ++ [Open s]) (set_serialized (Some ({[s]} ∪ V)) st)).
  destruct (runs_open_block store s (subject_type store s) (indent_of depth) st2
              ({[s]} ∪ V) eq_refl) as (st3 & [] & Hrun3 & HV3 & Ht3 & Hd3).
  destruct (Hedges st3 HV3 Hd3) as (st4 & [] & Hrun4 & HV4 & Ht4 & Hd4).
  unfold bind at 1. rewrite Hrun3. unfold bind at 1. rewrite Hrun4.
  unfold bind, log, write, modify. eexists _, _. split; [reflexivity |].
  cbn. split; [done |]. split; [| by rewrite Hd4, Hd3].
  rewrite Ht4, Ht3, app_nil_r. unfold st2. cbn. by rewrite <- !List.app_assoc.
Qed.

(** Case 2 of [predicate]: the object is visited already, or has no
    statement of its own. *)
Lemma runs_predicate_reference store fuel subject_rec p o depth st V :
  isLiteral o = false -> serialized st = Some V ->
  o ∈ V \/ has_outgoing (triples store) o = false ->
  runs_to (predicate_with store fuel subject_rec p o depth) st V [Ref o].
Proof.
  intros Hlit HV Hcase. unfold runs_to, predicate_with. rewrite Hlit.
  unfold bind at 1. unfold is_serialized at 1. rewrite HV.
  assert (bool_decide (o ∈ V) || negb (has_outgoing (triples store) o) = true) as ->.
  { destruct Hcase as [Hin | Hno].
    - by rewrite bool_decide_eq_true_2.
    - rewrite Hno. apply orb_true_r. }
  unfold reference_element.
  destruct (isBNode o && more_than (triples_to (triples store) o) 0);
    unfold bind, write, log, modify, get; rewrite getQName_run;
    eexists _, _; (split; [reflexivity |]); by cbn.
Qed.

(** Case 4b of [predicate]: within the depth limit the object is
    materialized one level deeper. *)
Lemma runs_predicate_inline store fuel subject_rec p o depth st V md V2 l :
  isLiteral o = false -> serialized st = Some V -> o ∉ V ->
  has_outgoing (triples store) o = true ->
  is_collection_head store o = false ->
  is_class_resource store o = false ->
  max_depth st = Some md -> depth <= md ->
  (forall st1, serialized st1 = Some V -> max_depth st1 = Some md ->
               trace st1 = trace st ->
               runs_to (subject_rec o (depth + 1)) st1 V2 l) ->
  runs_to (predicate_with store fuel subject_rec p o depth) st V2 l.
Proof.
  intros Hlit HV Ho Hout Hhead Hclass Hmd Hle Hrec. unfold runs_to, predicate_with.
  rewrite Hlit. unfold bind at 1. unfold is_serialized at 1. rewrite HV.
  rewrite bool_decide_eq_false_2 by done. rewrite Hout. cbn [negb orb].
  rewrite Hhead, Hclass.
  unfold bind at 1. rewrite getQName_run.
  unfold bind at 1, write at 1, modify at 1.
  unfold bind at 1. unfold bind at 1. unfold get_max_depth at 1.
  cbn [max_depth set_stream set_ns_rewrite]. rewrite Hmd.
  rewrite bool_decide_eq_true_2 by done.
  unfold bind at 1, write at 1, modify at 1.
  match goal with
  | |- context [bind (subject_rec o (depth + 1)) _ ?st3] =>
      destruct (Hrec st3) as (st4 & [] & Hrun & HV4 & Ht4 & Hd4); [done | done | done |]
  end.
  unfold bind at 1. rewrite Hrun.
  unfold write, modify. eexists _, _. split; [reflexivity |].
  cbn. split; [done |]. split; [by rewrite Ht4 | by rewrite Hd4].
Qed.

(** Case 4d of [predicate]: beyond the depth limit an IRI is referenced. *)
Lemma runs_predicate_beyond store fuel subject_rec p u depth st V md :
  serialized st = Some V -> URIRef u ∉ V ->
  has_outgoing (triples store) (URIRef u) = true ->
  is_collection_head store (URIRef u) = false ->
  is_class_resource store (URIRef u) = false ->
  max_depth st = Some md -> md < depth ->
  runs_to (predicate_with store fuel subject_rec p (URIRef u) depth) st V [Ref (URIRef u)].
Proof.
  intros HV Ho Hout Hhead Hclass Hmd Hlt. unfold runs_to, predicate_with.
  cbn [isLiteral]. unfold bind at 1. unfold is_serialized at 1. rewrite HV.
  rewrite bool_decide_eq_false_2 by done. rewrite Hout. cbn [negb orb].
  rewrite Hhead, Hclass.
  unfold bind at 1. rewrite getQName_run.
  unfold bind at 1, write at 1, modify at 1.
  unfold bind at 1. unfold bind at 1. unfold get_max_depth at 1.
  cbn [max_depth set_stream set_ns_rewrite]. rewrite Hmd.
  rewrite bool_decide_eq_false_2 by lia. cbn [isBNode].
  unfold bind, get, log, write, modify. eexists _, _. split; [reflexivity |]. by cbn.
Qed.

Lemma runs_write s st V : serialized st = Some V -> runs_to (write s) st V [].
Proof. intros HV. exists (set_stream (stream st ++ [s]) st), tt. cbn. by rewrite app_nil_r. Qed.

Lemma runs_for_each_write {A : Type} (xs : list A) (f : A -> string) st V :
  serialized st = Some V -> runs_to (for_each xs (fun x => write (f x))) st V [].
Proof.
  revert st. induction xs as [|x xs IH]; intros st HV; [by apply runs_ret |].
  apply (runs_for_each_cons _ x xs st V [] V []); [by apply runs_write |].
  intros st1 HV1 _. by apply IH.
Qed.

Lemma ends_bind {A : Type} (m : M A) (k : A -> M unit) st V1 l1 l2 :
  runs_to m st V1 l1 ->
  (forall a st1, serialized st1 = Some V1 -> max_depth st1 = max_depth st ->
                 ends_with (k a) st1 l2) ->
  ends_with (bind m k) st (l1 ++ l2).
Proof.
  intros (st1 & a & Hm & HV1 & Ht1 & Hd1) Hk.
  destruct (Hk a st1 HV1 Hd1) as (st2 & Hk2 & Ht2).
  exists st2. unfold bind. rewrite Hm. split; [done |].
  by rewrite Ht2, Ht1, <- List.app_assoc.
Qed.

Lemma runs_to_eq {A : Type} (m : M A) st V l l' :
  runs_to m st V l -> l = l' -> runs_to m st V l'.
Proof. by intros H <-. Qed.

Lemma runs_for_each_one {A : Type} (body : A -> M unit) x st V l :
  runs_to (body x) st V l -> runs_to (for_each [x] body) st V l.
Proof.
  intros Hx. apply (runs_to_eq _ st V (l ++ [])); [| by rewrite app_nil_r].
  apply (runs_for_each_cons body x [] st V l V []); [done |].
  intros st1 HV1 _. by apply runs_ret.
Qed.

Lemma not_type_edge_none po : not_type_edge None po = true.
Proof.
  unfold not_type_edge. rewrite (bool_decide_eq_false_2 (Some po.2 = None)) by done.
  by rewrite andb_false_r.
Qed.

Lemma ends_with_eq (m : M unit) st l l' : ends_with m st l -> l = l' -> ends_with m st l'.
Proof. by intros H <-. Qed.

Lemma declare_namespaces_ok store ps dict :
  Forall (fun p => is_Some (compute_qname store (term_str p))) ps ->
  is_Some (declare_namespaces store ps dict).
Proof.
  intros Hps. revert dict. induction Hps as [|p ps [[[prefix namespace] local] Hp] _ IH];
    intros dict; cbn [declare_namespaces]; [by eexists |].
  rewrite Hp. apply IH.
Qed.

(** [serialize] after its preamble, when the depth limit is positive and
    the namespaces of the header can be computed. *)
Lemma serialize_body store fuel stream0 base0 md nss st :
  0 < md ->
  declare_namespaces store (possible store) [("rdf", RDF_NS)] = Some nss ->
  serialize store fuel stream0 base0 (Some md) st
  = (write ("<div xmlns=" +:+ Q +:+ "http://www.w3.org/1999/xhtml" +:+ Q);;;
     for_each nss (fun pn => write (NL +:+ "  xmlns:" +:+ pn.1 +:+ "=" +:+ Q +:+ pn.2 +:+ Q));;;
     write ">";;;
     pass_roots store fuel;;;
     pass_resources store fuel;;;
     pass_bnodes store fuel;;;
     write (NL +:+ "</div>");;;
     modify (set_serialized None))
      (set_max_depth (Some md)
         (set_stream stream0 (set_base base0 (set_trace [] (set_serialized (Some ∅) st))))).
Proof.
  intros Hmd Hns. unfold serialize.
  do 5 (unfold bind at 1; unfold modify at 1).
  unfold bind at 1. unfold get_max_depth at 1. cbn [max_depth set_max_depth from_option id].
  rewrite bool_decide_eq_true_2 by lia. by rewrite Hns.
Qed.

(** ** The chain A -> B -> C -> D *)

Section ChainGraph.
Variable store : Store.
Variables a b c d : string.
Variables p1 p2 p3 : Term.

Hypothesis Hg :
  triples store
  = [(URIRef a, p1, URIRef b); (URIRef b, p2, URIRef c); (URIRef c, p3, URIRef d)].
Hypothesis Hab : a ≠ b.
Hypothesis Hac : a ≠ c.
Hypothesis Had : a ≠ d.
Hypothesis Hbc : b ≠ c.
Hypothesis Hbd : b ≠ d.
Hypothesis Hcd : c ≠ d.
Hypothesis Hp1 : p1 ≠ RDF_type /\ p1 ≠ RDF_first.
Hypothesis Hp2 : p2 ≠ RDF_type /\ p2 ≠ RDF_first.
Hypothesis Hp3 : p3 ≠ RDF_type /\ p3 ≠ RDF_first.
Hypothesis Hq1 : is_Some (compute_qname store (term_str p1)).
Hypothesis Hq2 : is_Some (compute_qname store (term_str p2)).
Hypothesis Hq3 : is_Some (compute_qname store (term_str p3)).

Ltac query :=
  rewrite ?Hg; cbn [fmap list_fmap t_subj t_pred t_obj fst snd];
  rewrite ?filter_cons, ?filter_nil; cbn [t_subj t_pred t_obj fst snd];
  repeat (case_decide; simplify_eq/=; try tauto; try done).

Lemma chain_subjects : subjects (triples store) = [URIRef a; URIRef b; URIRef c].
Proof. unfold subjects. by rewrite Hg. Qed.

Lemma chain_edges_a :
  predicate_objects (triples store) (URIRef a) = [(p1, URIRef b)].
Proof. unfold predicate_objects. query. Qed.

Lemma chain_edges_b :
  predicate_objects (triples store) (URIRef b) = [(p2, URIRef c)].
Proof. unfold predicate_objects. query. Qed.

Lemma chain_edges_c :
  predicate_objects (triples store) (URIRef c) = [(p3, URIRef d)].
Proof. unfold predicate_objects. query. Qed.

Lemma chain_no_type s : objects (triples store) s RDF_type = [].
Proof.
  unfold objects. destruct Hp1, Hp2, Hp3.
  rewrite Hg, !filter_cons, filter_nil. cbn [t_subj t_pred t_obj fst snd].
  repeat (case_decide; try tauto); try done.
Qed.

Lemma chain_no_first s : objects (triples store) s RDF_first = [].
Proof.
  unfold objects. destruct Hp1, Hp2, Hp3.
  rewrite Hg, !filter_cons, filter_nil. cbn [t_subj t_pred t_obj fst snd].
  repeat (case_decide; try tauto); try done.
Qed.

Lemma chain_subject_type s : subject_type store s = None.
Proof. unfold subject_type. by rewrite chain_no_type. Qed.

Lemma chain_not_head s : is_collection_head store s = false.
Proof. unfold is_collection_head. by rewrite chain_no_first. Qed.

Lemma chain_not_class s : is_class_resource store s = false.
Proof.
  unfold is_class_resource, triples_choices. destruct Hp1, Hp2, Hp3.
  rewrite Hg, !filter_cons, filter_nil. cbn [t_subj t_pred t_obj fst snd].
  repeat (case_decide; try tauto); try done.
Qed.

Lemma chain_outgoing_b : has_outgoing (triples store) (URIRef b) = true.
Proof.
  unfold has_outgoing. apply bool_decide_eq_true_2. rewrite Hg.
  apply Exists_cons_tl, Exists_cons_hd. done.
Qed.

Lemma chain_outgoing_c : has_outgoing (triples store) (URIRef c) = true.
Proof.
  unfold has_outgoing. apply bool_decide_eq_true_2. rewrite Hg.
  apply Exists_cons_tl, Exists_cons_tl, Exists_cons_hd. done.
Qed.

Lemma chain_outgoing_d : has_outgoing (triples store) (URIRef d) = false.
Proof.
  unfold has_outgoing. apply bool_decide_eq_false_2. rewrite Hg.
  rewrite !Exists_cons, Exists_nil. cbn [t_subj fst].
  intros [He | [He | [He | []]]]; congruence.
Qed.

Lemma chain_incoming_a : has_incoming (triples store) (URIRef a) = false.
Proof.
  unfold has_incoming. apply bool_decide_eq_false_2. rewrite Hg.
  rewrite !Exists_cons, Exists_nil. cbn [t_obj snd].
  intros [He | [He | [He | []]]]; congruence.
Qed.

Lemma chain_incoming_b : has_incoming (triples store) (URIRef b) = true.
Proof.
  unfold has_incoming. apply bool_decide_eq_true_2. rewrite Hg.
  apply Exists_cons_hd. done.
Qed.

Lemma chain_incoming_c : has_incoming (triples store) (URIRef c) = true.
Proof.
  unfold has_incoming. apply bool_decide_eq_true_2. rewrite Hg.
  apply Exists_cons_tl, Exists_cons_hd. done.
Qed.

Lemma chain_no_loop s : has_edge (triples store) (URIRef s) (URIRef s) = false.
Proof.
  unfold has_edge. apply bool_decide_eq_false_2. rewrite Hg.
  rewrite !Exists_cons, Exists_nil. cbn [t_subj t_obj fst snd].
  intros [[He He'] | [[He He'] | [[He He'] | []]]]; congruence.
Qed.

Lemma chain_bnodes : bnodes store = [].
Proof. unfold bnodes. by rewrite chain_subjects. Qed.

(** The block of C: its only edge points to D, which has no statement. *)
Lemma chain_block_c fuel depth st V :
  serialized st = Some V -> URIRef c ∉ V ->
  runs_to (subject store (S fuel) (URIRef c) depth) st ({[URIRef c]} ∪ V)
    [Open (URIRef c); Ref (URIRef d); Close (URIRef c)].
Proof.
  intros HV Hc.
  apply (runs_subject_block store fuel (URIRef c) depth st V ({[URIRef c]} ∪ V)
           [Ref (URIRef d)]); [done | done |].
  intros st2 HV2 _. rewrite chain_edges_c, chain_subject_type.
  apply runs_for_each_one. rewrite not_type_edge_none. cbn [fst snd].
  apply runs_predicate_reference; [done | done |]. right. apply chain_outgoing_d.
Qed.

(** The block of B below the depth limit: its edge to C is a reference. *)
Lemma chain_block_b fuel depth st V :
  serialized st = Some V -> URIRef b ∉ V -> max_depth st = Some 2 -> 2 < depth + 1 ->
  runs_to (subject store (S fuel) (URIRef b) depth) st ({[URIRef b]} ∪ V)
    [Open (URIRef b); Ref (URIRef c); Close (URIRef b)].
Proof.
  intros HV Hb Hmd Hdeep.
  apply (runs_subject_block store fuel (URIRef b) depth st V ({[URIRef b]} ∪ V)
           [Ref (URIRef c)]); [done | done |].
  intros st2 HV2 Hmd2. rewrite chain_edges_b, chain_subject_type.
  apply runs_for_each_one. rewrite not_type_edge_none. cbn [fst snd].
  destruct (decide (URIRef c ∈ ({[URIRef b]} ∪ V))) as [Hin | Hout].
  - apply runs_predicate_reference; [done | done | by left].
  - apply (runs_predicate_beyond store fuel _ p2 c (depth + 1) st2 _ 2); try done.
    + apply chain_outgoing_c.
    + apply chain_not_head.
    + apply chain_not_class.
    + by rewrite Hmd2.
Qed.

(** The block of A at the top level: B is inlined, at depth 2. *)
Lemma chain_block_a fuel st V :
  serialized st = Some V -> URIRef a ∉ V -> URIRef b ∉ V -> max_depth st = Some 2 ->
  runs_to (subject store (S (S fuel)) (URIRef a) 1) st ({[URIRef b]} ∪ ({[URIRef a]} ∪ V))
    [Open (URIRef a); Open (URIRef b); Ref (URIRef c); Close (URIRef b); Close (URIRef a)].
Proof.
  intros HV Ha Hb Hmd.
  apply (runs_subject_block store (S fuel) (URIRef a) 1 st V
           ({[URIRef b]} ∪ ({[URIRef a]} ∪ V))
           [Open (URIRef b); Ref (URIRef c); Close (URIRef b)]); [done | done |].
  intros st2 HV2 Hmd2. rewrite chain_edges_a, chain_subject_type.
  apply runs_for_each_one. rewrite not_type_edge_none. cbn [fst snd].
  assert (URIRef b ∉ ({[URIRef a]} ∪ V)) as Hb2.
  { intros Hin. apply elem_of_union in Hin as [Hin | Hin]; [| done].
    apply elem_of_singleton in Hin. congruence. }
  apply (runs_predicate_inline store (S fuel) _ p1 (URIRef b) (1 + 1) st2
           ({[URIRef a]} ∪ V) 2); try done.
  - apply chain_outgoing_b.
  - apply chain_not_head.
  - apply chain_not_class.
  - by rewrite Hmd2.
  - intros st3 HV3 Hmd3 _. apply chain_block_b; try done.
Qed.

Lemma chain_possible : Forall (fun p => is_Some (compute_qname store (term_str p)))
                         (possible store).
Proof.
  apply Forall_forall. intros x Hx. unfold possible in Hx.
  rewrite elem_of_remove_dups in Hx.
  assert (objects_of_pred (triples store) RDF_type = []) as Hty.
  { unfold objects_of_pred. destruct Hp1, Hp2, Hp3.
    rewrite Hg, !filter_cons, filter_nil. cbn [t_pred fst snd].
    repeat (case_decide; try tauto); try done. }
  rewrite Hty in Hx. unfold predicates, all_objects in Hx. rewrite Hg in Hx.
  cbn in Hx. rewrite ?app_nil_r in Hx.
  apply elem_of_cons in Hx as [-> | Hx]; [done |].
  apply elem_of_cons in Hx as [-> | Hx]; [done |].
  apply list_elem_of_singleton in Hx as ->. done.
Qed.

Lemma chain_pass_roots fuel st :
  serialized st = Some ∅ -> max_depth st = Some 2 ->
  runs_to (pass_roots store (S (S fuel))) st ({[URIRef b]} ∪ ({[URIRef a]} ∪ ∅))
    [Open (URIRef a); Open (URIRef b); Ref (URIRef c); Close (URIRef b); Close (URIRef a)].
Proof.
  intros HV Hmd. unfold pass_roots. rewrite chain_subjects.
  eapply runs_to_eq.
  - eapply runs_for_each_cons.
    { rewrite chain_incoming_a. apply chain_block_a; try done; apply not_elem_of_empty. }
    intros st1 HV1 _. eapply runs_for_each_cons.
    { rewrite chain_incoming_b, chain_no_loop. by apply runs_ret. }
    intros st2 HV2 _. apply runs_for_each_one.
    rewrite chain_incoming_c, chain_no_loop. by apply runs_ret.
  - reflexivity.
Qed.

Lemma chain_pass_resources fuel st :
  serialized st = Some ({[URIRef b]} ∪ ({[URIRef a]} ∪ ∅)) ->
  runs_to (pass_resources store (S fuel)) st
    ({[URIRef c]} ∪ ({[URIRef b]} ∪ ({[URIRef a]} ∪ ∅)))
    [Open (URIRef c); Ref (URIRef d); Close (URIRef c)].
Proof.
  intros HV. unfold pass_resources. rewrite chain_subjects. cbn [isBNode].
  eapply runs_to_eq.
  - eapply runs_for_each_cons.
    { apply runs_subject_seen; [done |]. apply elem_of_union_r, elem_of_union_l.
      by apply elem_of_singleton. }
    intros st1 HV1 _. eapply runs_for_each_cons.
    { apply runs_subject_seen; [done |]. apply elem_of_union_l. by apply elem_of_singleton. }
    intros st2 HV2 _. apply runs_for_each_one.
    apply chain_block_c; [done |].
    rewrite !not_elem_of_union, !not_elem_of_singleton.
    split; [congruence |]. split; [congruence | apply not_elem_of_empty].
  - reflexivity.
Qed.

Lemma chain_serialize fuel stream0 base0 st :
  (2 <= fuel)%nat ->
  exists st',
    serialize store fuel stream0 base0 (Some 2) st = (st', Ok tt)
    /\ trace st'
       = [Open (URIRef a); Open (URIRef b); Ref (URIRef c); Close (URIRef b);
          Close (URIRef a); Open (URIRef c); Ref (URIRef d); Close (URIRef c)].
Proof.
  intros Hfuel. destruct fuel as [|[|fuel]]; [lia | lia |].
  destruct (declare_namespaces_ok store (possible store) [("rdf", RDF_NS)] chain_possible)
    as [nss Hnss].
  rewrite (serialize_body store _ stream0 base0 2 nss st); [| lia | done].
  set (st0 := set_max_depth (Some 2) _).
  assert (ends_with
            (write ("<div xmlns=" +:+ Q +:+ "http://www.w3.org/1999/xhtml" +:+ Q);;;
             for_each nss
               (fun pn => write (NL +:+ "  xmlns:" +:+ pn.1 +:+ "=" +:+ Q +:+ pn.2 +:+ Q));;;
             write ">";;;
             pass_roots store (S (S fuel));;;
             pass_resources store (S (S fuel));;;
             pass_bnodes store (S (S fuel));;;
             write (NL +:+ "</div>");;;
             modify (set_serialized None)) st0
            [Open (URIRef a); Open (URIRef b); Ref (URIRef c); Close (URIRef b);
             Close (URIRef a); Open (URIRef c); Ref (URIRef d); Close (URIRef c)]) as Hrun.
  { eapply ends_with_eq.
    - eapply ends_bind; [by apply runs_write |]. intros _ st1 HV1 Hd1.
      eapply ends_bind; [by apply runs_for_each_write |]. intros _ st2 HV2 Hd2.
      eapply ends_bind; [by apply runs_write |]. intros _ st3 HV3 Hd3.
      eapply ends_bind.
      { apply chain_pass_roots; [done |]. by rewrite Hd3, Hd2, Hd1. }
      intros _ st4 HV4 Hd4.
      eapply ends_bind; [by apply chain_pass_resources |]. intros _ st5 HV5 Hd5.
      eapply ends_bind.
      { unfold pass_bnodes. rewrite chain_bnodes. by apply runs_ret. }
      intros _ st6 HV6 Hd6.
      eapply ends_bind; [by apply runs_write |]. intros _ st7 HV7 Hd7.
      exists (set_serialized None st7). split; [done |]. cbn. by rewrite app_nil_r.
    - reflexivity. }
  destruct Hrun as (st' & Hrun & Ht). exists st'. split; [done |]. by rewrite Ht.
Qed.
End ChainGraph.

(** C1 (as amended): for a chain A -> B -> C -> D of distinct IRIs whose
    predicates are neither [rdf:type] nor [rdf:first] and have a qname,
    [serialize] with [max_depth=2] ends normally and writes, in this order:
    the block of A with the block of B inlined in it (the edge is emitted
    at depth 2), inside B a reference to C (that edge is emitted at depth
    4, beyond the limit), and then a second top-level block for C with a
    reference to D inside; D has no block. *)
Theorem C1_depth_boundary (store : Store) (a b c d : string) (p1 p2 p3 : Term)
    (fuel : nat) (stream0 : list string) (base0 : option string) (st : Session) :
  triples store
  = [(URIRef a, p1, URIRef b); (URIRef b, p2, URIRef c); (URIRef c, p3, URIRef d)] ->
  NoDup [a; b; c; d] ->
  Forall (fun p => p ≠ RDF_type /\ p ≠ RDF_first
                   /\ is_Some (compute_qname store (term_str p))) [p1; p2; p3] ->
  (2 <= fuel)%nat ->
  exists st',
    serialize store fuel stream0 base0 (Some 2) st = (st', Ok tt)
    /\ trace st'
       = [Open (URIRef a); Open (URIRef b); Ref (URIRef c); Close (URIRef b);
          Close (URIRef a); Open (URIRef c); Ref (URIRef d); Close (URIRef c)].
Proof.
  intros Hg Hnd Hps Hfuel.
  apply NoDup_cons in Hnd as [Ha Hnd]. apply NoDup_cons in Hnd as [Hb Hnd].
  apply NoDup_cons in Hnd as [Hc _].
  repeat rewrite not_elem_of_cons in Ha. repeat rewrite not_elem_of_cons in Hb.
  repeat rewrite not_elem_of_cons in Hc.
  destruct Ha as (Hab & Hac & Had & _), Hb as (Hbc & Hbd & _), Hc as (Hcd & _).
  apply Forall_cons in Hps as [(Ht1 & Hf1 & Hq1) Hps].
  apply Forall_cons in Hps as [(Ht2 & Hf2 & Hq2) Hps].
  apply Forall_cons in Hps as [(Ht3 & Hf3 & Hq3) _].
  by apply (chain_serialize store a b c d p1 p2 p3).
Qed.

Lemma C1_depth_boundary_witness :
  exists st',
    serialize Examples.chain_store 4 [] None (Some 2) (self_state (init Examples.chain_store 3))
    = (st', Ok tt)
    /\ trace st'
       = [Open (URIRef "http://ex.org/A"); Open (URIRef "http://ex.org/B");
          Ref (URIRef "http://ex.org/C"); Close (URIRef "http://ex.org/B");
          Close (URIRef "http://ex.org/A"); Open (URIRef "http://ex.org/C");
          Ref (URIRef "http://ex.org/D"); Close (URIRef "http://ex.org/C")].
Proof.
  apply (C1_depth_boundary Examples.chain_store "http://ex.org/A" "http://ex.org/B"
           "http://ex.org/C" "http://ex.org/D" (Examples.ex "p") (Examples.ex "p")
           (Examples.ex "p") 4 [] None (self_state (init Examples.chain_store 3))).
  - reflexivity.
  - repeat (apply NoDup_cons; split;
            [rewrite ?not_elem_of_cons; repeat split; try discriminate; apply not_elem_of_nil |]).
    apply NoDup_nil_2.
  - repeat (apply Forall_cons; split;
            [split; [discriminate | split; [discriminate | by eexists]] |]).
    apply Forall_nil_2.
  - lia.
Defined.

(** C1, as stated, fails on the chain of the example store: with
    [max_depth=2] the block of C is not opened inside the block of B. *)
Lemma C1_chain_c_not_inlined :
  (run_serialize (init Examples.chain_store 3) 4 [] None (Some 2)).2 = Ok tt
  /\ occurs_inside (Examples.ex "B") (Open (Examples.ex "C"))
       (trace (run_serialize (init Examples.chain_store 3) 4 [] None (Some 2)).1) = false
  /\ ~ chain_inlined_twice (Examples.ex "A") (Examples.ex "B") (Examples.ex "C")
         (Examples.ex "D")
         (trace (run_serialize (init Examples.chain_store 3) 4 [] None (Some 2)).1).
Proof.
  assert (occurs_inside (Examples.ex "B") (Open (Examples.ex "C"))
            (trace (run_serialize (init Examples.chain_store 3) 4 [] None (Some 2)).1)
          = false) as Hno by (vm_compute; reflexivity).
  split; [vm_compute; reflexivity |]. split; [exact Hno |].
  intros (_ & Hin & _). rewrite Hno in Hin. discriminate Hin.
Qed.

(** The document written for the chain, with [max_depth=2]. *)
Example chain_document :
  text (stream (run_serialize (init Examples.chain_store 3) 4 [] None (Some 2)).1)
  = dq "<div xmlns='http://www.w3.org/1999/xhtml'
  xmlns:rdf='http://www.w3.org/1999/02/22-rdf-syntax-ns#'
  xmlns:ex='http://ex.org/'>
  <div typeof='rdfs:Resource' about='http://ex.org/A'>
    <div rel='ex:p'>
      <div typeof='rdfs:Resource' about='http://ex.org/B'>
        <div rel='ex:p' resource='http://ex.org/C'></div>
      </div>
    </div>
  </div>
  <div typeof='rdfs:Resource' about='http://ex.org/C'>
    <div rel='ex:p' resource='http://ex.org/D'></div>
  </div>
</div>".
Proof. vm_compute. reflexivity. Qed.

(** * Further properties of the emitters *)

(** ** Qualified names *)

(** X1: [getQName] always returns; it returns [None] exactly for a term
    that is not an IRI, an IRI that neither [compute_qname] nor the store's
    prefix table can split, or an IRI whose local part has a dot, and then
    the session is unchanged; in every case only the prefix-rewrite table
    can change. *)
Theorem X1_getQName_none (store : Store) (u : Term) (st : Session) :
  exists st' q,
    getQName store u st = (st', Ok q)
    /\ (q = None <-> no_qname store u = true)
    /\ (q = None -> st' = st)
    /\ serialized st' = serialized st
    /\ stream st' = stream st
    /\ trace st' = trace st
    /\ namespaces st' = namespaces st.
Proof.
  rewrite getQName_run. eexists _, _. split; [reflexivity |].
  assert (qname_parts store u = None <-> no_qname store u = true) as Hparts.
  { unfold qname_parts, no_qname. destruct u as [i | |]; [| done | done].
    destruct (compute_qname store i) as [[[prefix namespace] local] |].
    - destruct (str_contains "." local); split; congruence.
    - destruct (store_prefix store i); cbn; split; congruence. }
  assert (qname_value store (namespaces st) (ns_rewrite st) u = None
          <-> qname_parts store u = None) as Hval.
  { unfold qname_value. destruct (qname_parts store u) as [[[prefix namespace] local] |];
      split; congruence. }
  split; [by rewrite Hval |]. split; [| done].
  intros Hq. apply Hval in Hq. unfold qname_rewrite. rewrite Hq.
  apply set_ns_rewrite_id.
Qed.

(** ** Literal objects *)

Lemma predicate_literal_run store fuel p l lang dt depth st :
  exists rw,
    predicate store fuel p (Literal l lang dt) depth st
    = (set_stream
         (stream st
          ++ [indent_of depth +:+ "<div property=" +:+ Q
              +:+ fmt (qname_value store (namespaces st) (ns_rewrite st) p) +:+ Q]
          ++ literal_attribute
               (match dt with
                | Some d =>
                    qname_value store (namespaces st)
                      (qname_rewrite store (namespaces st) (ns_rewrite st) p) (URIRef d)
                | None => None
                end) lang dt
          ++ [" content=" +:+ Q +:+ l +:+ Q +:+ ">"; "</div>"])
         (set_ns_rewrite rw st),
       Ok tt).
Proof.
  unfold predicate, predicate_with, literal_element, literal_attribute. cbn [isLiteral term_str].
  destruct lang as [a|], dt as [d|]; try destruct (str_truthy a); try destruct (str_truthy d);
    unfold bind, write, modify, ret; rewrite ?getQName_run; cbn;
    rewrite ?getQName_run; cbn;
    eexists; unfold set_stream, set_ns_rewrite; cbn;
    rewrite <- ?List.app_assoc; reflexivity.
Qed.

(** X2: for a literal object [predicate] writes one [property] element and
    returns, with any fuel and whether or not a session table exists: the
    element carries [xml:lang] when the literal has a non-empty language,
    else [datatype] (as a qname) when it has a non-empty datatype, else
    neither, and the lexical form as [content], verbatim; the visited table
    and the trace are unchanged. *)
Theorem X2_literal_element (store : Store) (fuel : nat) (p : Term) (l : string)
    (lang dt : option string) (depth : Z) (st : Session) :
  exists q qd,
    (getQName store p st).2 = Ok q
    /\ (forall d, dt = Some d ->
          (getQName store (URIRef d) (getQName store p st).1).2 = Ok qd)
    /\ (predicate store fuel p (Literal l lang dt) depth st).2 = Ok tt
    /\ stream (predicate store fuel p (Literal l lang dt) depth st).1
       = stream st
         ++ [indent_of depth +:+ "<div property=" +:+ Q +:+ fmt q +:+ Q]
         ++ literal_attribute qd lang dt
         ++ [" content=" +:+ Q +:+ l +:+ Q +:+ ">"; "</div>"]
    /\ serialized (predicate store fuel p (Literal l lang dt) depth st).1 = serialized st
    /\ trace (predicate store fuel p (Literal l lang dt) depth st).1 = trace st.
Proof.
  destruct (predicate_literal_run store fuel p l lang dt depth st) as [rw Hrun].
  rewrite Hrun. eexists _, _. split; [by rewrite getQName_run |].
  split; [| by cbn].
  intros d ->. by rewrite !getQName_run.
Qed.

(** ** Resource objects: reference or inline *)

Lemma predicate_reference_run store fuel p o depth st V :
  isLiteral o = false -> serialized st = Some V ->
  o ∈ V \/ has_outgoing (triples store) o = false ->
  predicate store fuel p o depth st
  = (set_stream
       (stream st
        ++ [indent_of depth +:+ "<div rel=" +:+ Q
            +:+ fmt (qname_value store (namespaces st) (ns_rewrite st) p) +:+ Q;
            " resource=" +:+ Q +:+ reference_target store (base st) o +:+ Q +:+ ">";
            "</div>"])
       (set_trace (trace st ++ [Ref o])
          (set_ns_rewrite (qname_rewrite store (namespaces st) (ns_rewrite st) p) st)),
     Ok tt).
Proof.
  intros Hlit HV Hcase. unfold predicate, predicate_with. rewrite Hlit.
  unfold bind at 1. unfold is_serialized at 1. rewrite HV.
  assert (bool_decide (o ∈ V) || negb (has_outgoing (triples store) o) = true) as ->.
  { destruct Hcase as [Hin | Hno].
    - by rewrite bool_decide_eq_true_2.
    - rewrite Hno. apply orb_true_r. }
  unfold reference_element, reference_target.
  destruct (isBNode o && more_than (triples_to (triples store) o) 0);
    unfold bind, write, log, modify, get; rewrite getQName_run; cbn;
    unfold set_stream, set_trace, set_ns_rewrite; cbn; by rewrite <- !List.app_assoc.
Qed.

(** X3: an object that is not a literal and is already visited, or has no
    statement of its own, is written as a reference-only element, with any
    fuel and at any depth: the [rel] element names the fixed-up node id for
    a blank node that is the object of some statement, else the IRI
    relative to the base; no block is opened and the visited table is
    unchanged. *)
Theorem X3_visited_or_leaf_referenced (store : Store) (fuel : nat) (p o : Term)
    (depth : Z) (st : Session) (V : gset Term) :
  isLiteral o = false -> serialized st = Some V ->
  o ∈ V \/ has_outgoing (triples store) o = false ->
  exists q,
    (getQName store p st).2 = Ok q
    /\ (predicate store fuel p o depth st).2 = Ok tt
    /\ stream (predicate store fuel p o depth st).1
       = stream st
         ++ [indent_of depth +:+ "<div rel=" +:+ Q +:+ fmt q +:+ Q;
             " resource=" +:+ Q +:+ reference_target store (base st) o +:+ Q +:+ ">";
             "</div>"]
    /\ trace (predicate store fuel p o depth st).1 = trace st ++ [Ref o]
    /\ serialized (predicate store fuel p o depth st).1 = Some V.
Proof.
  intros Hlit HV Hcase.
  rewrite (predicate_reference_run store fuel p o depth st V Hlit HV Hcase).
  eexists. split; [by rewrite getQName_run |]. by cbn.
Qed.

Lemma X3_visited_or_leaf_referenced_witness :
  exists q,
    (getQName Examples.chain_store (Examples.ex "p") (Examples.running ∅)).2 = Ok q
    /\ (predicate Examples.chain_store 0 (Examples.ex "p") (Examples.ex "D") 2
          (Examples.running ∅)).2 = Ok tt
    /\ stream (predicate Examples.chain_store 0 (Examples.ex "p") (Examples.ex "D") 2
                 (Examples.running ∅)).1
       = stream (Examples.running ∅)
         ++ [indent_of 2 +:+ "<div rel=" +:+ Q +:+ fmt q +:+ Q;
             " resource=" +:+ Q
             +:+ reference_target Examples.chain_store (base (Examples.running ∅))
                   (Examples.ex "D") +:+ Q +:+ ">";
             "</div>"]
    /\ trace (predicate Examples.chain_store 0 (Examples.ex "p") (Examples.ex "D") 2
                (Examples.running ∅)).1
       = trace (Examples.running ∅) ++ [Ref (Examples.ex "D")]
    /\ serialized (predicate Examples.chain_store 0 (Examples.ex "p") (Examples.ex "D") 2
                     (Examples.running ∅)).1 = Some ∅.
Proof.
  apply (X3_visited_or_leaf_referenced Examples.chain_store 0 (Examples.ex "p")
           (Examples.ex "D") 2 (Examples.running ∅) ∅).
  - reflexivity.
  - reflexivity.
  - right. reflexivity.
Defined.

Lemma predicate_beyond_run store fuel p o depth st V md :
  isLiteral o = false -> serialized st = Some V -> o ∉ V ->
  has_outgoing (triples store) o = true ->
  is_collection_head store o = false ->
  is_class_resource store o = false ->
  max_depth st = Some md -> md < depth ->
  (isBNode o = true -> length (subjects_of_obj (triples store) o) ≠ 1%nat) ->
  predicate store fuel p o depth st
  = (set_stream
       (stream st
        ++ [indent_of depth +:+ "<div rel=" +:+ Q
            +:+ fmt (qname_value store (namespaces st) (ns_rewrite st) p) +:+ Q;
            " resource=" +:+ Q
            +:+ (if isBNode o then fix_id (term_str o) else relativize (base st) (term_str o))
            +:+ Q +:+ ">";
            "</div>"])
       (set_trace (trace st ++ [Ref o])
          (set_ns_rewrite (qname_rewrite store (namespaces st) (ns_rewrite st) p) st)),
     Ok tt).
Proof.
  intros Hlit HV Ho Hout Hhead Hclass Hmd Hlt Hmany.
  unfold predicate, predicate_with. rewrite Hlit.
  unfold bind at 1. unfold is_serialized at 1. rewrite HV.
  rewrite bool_decide_eq_false_2 by done. rewrite Hout. cbn [negb orb].
  rewrite Hhead, Hclass.
  unfold bind at 1. rewrite getQName_run.
  unfold bind at 1, write at 1, modify at 1.
  unfold bind at 1. unfold bind at 1. unfold get_max_depth at 1.
  cbn [max_depth set_stream set_ns_rewrite]. rewrite Hmd.
  rewrite bool_decide_eq_false_2 by lia.
  destruct (isBNode o) eqn:Hb.
  - unfold bind at 1. unfold is_serialized at 1.
    cbn [serialized set_stream set_ns_rewrite]. rewrite HV.
    rewrite (bool_decide_eq_false_2 (o ∈ V)) by done.
    rewrite (bool_decide_eq_false_2 (length _ = 1%nat)) by (by apply Hmany).
    rewrite andb_false_r.
    unfold bind, log, write, modify. cbn.
    unfold set_stream, set_trace, set_ns_rewrite. cbn. by rewrite <- !List.app_assoc.
  - unfold bind, get, log, write, modify. cbn.
    unfold set_stream, set_trace, set_ns_rewrite. cbn. by rewrite <- !List.app_assoc.
Qed.

(** X4: beyond the depth limit, an unvisited object with statements of its
    own that is neither a collection head nor a class-typed IRI, and that
    is not a blank node referenced exactly once, is not inlined: a
    reference-only element is written (the fixed-up id for a blank node,
    the relative IRI otherwise), no block is opened and the visited table
    is unchanged. *)
Theorem X4_beyond_depth_referenced (store : Store) (fuel : nat) (p o : Term)
    (depth : Z) (st : Session) (V : gset Term) (md : Z) :
  isLiteral o = false -> serialized st = Some V -> o ∉ V ->
  has_outgoing (triples store) o = true ->
  is_collection_head store o = false ->
  is_class_resource store o = false ->
  max_depth st = Some md -> md < depth ->
  (isBNode o = true -> length (subjects_of_obj (triples store) o) ≠ 1%nat) ->
  exists q,
    (getQName store p st).2 = Ok q
    /\ (predicate store fuel p o depth st).2 = Ok tt
    /\ stream (predicate store fuel p o depth st).1
       = stream st
         ++ [indent_of depth +:+ "<div rel=" +:+ Q +:+ fmt q +:+ Q;
             " resource=" +:+ Q
             +:+ (if isBNode o then fix_id (term_str o)
                  else relativize (base st) (term_str o))
             +:+ Q +:+ ">";
             "</div>"]
    /\ trace (predicate store fuel p o depth st).1 = trace st ++ [Ref o]
    /\ serialized (predicate store fuel p o depth st).1 = Some V.
Proof.
  intros Hlit HV Ho Hout Hhead Hclass Hmd Hlt Hmany.
  rewrite (predicate_beyond_run store fuel p o depth st V md
             Hlit HV Ho Hout Hhead Hclass Hmd Hlt Hmany).
  eexists. split; [by rewrite getQName_run |]. by cbn.
Qed.

Lemma X4_beyond_depth_referenced_witness :
  exists q,
    (getQName Examples.chain_store (Examples.ex "p") (Examples.running ∅)).2 = Ok q
    /\ (predicate Examples.chain_store 0 (Examples.ex "p") (Examples.ex "C") 4
          (Examples.running ∅)).2 = Ok tt
    /\ stream (predicate Examples.chain_store 0 (Examples.ex "p") (Examples.ex "C") 4
                 (Examples.running ∅)).1
       = stream (Examples.running ∅)
         ++ [indent_of 4 +:+ "<div rel=" +:+ Q +:+ fmt q +:+ Q;
             " resource=" +:+ Q
             +:+ (if isBNode (Examples.ex "C") then fix_id (term_str (Examples.ex "C"))
                  else relativize (base (Examples.running ∅)) (term_str (Examples.ex "C")))
             +:+ Q +:+ ">";
             "</div>"]
    /\ trace (predicate Examples.chain_store 0 (Examples.ex "p") (Examples.ex "C") 4
                (Examples.running ∅)).1
       = trace (Examples.running ∅) ++ [Ref (Examples.ex "C")]
    /\ serialized (predicate Examples.chain_store 0 (Examples.ex "p") (Examples.ex "C") 4
                     (Examples.running ∅)).1 = Some ∅.
Proof.
  apply (X4_beyond_depth_referenced Examples.chain_store 0 (Examples.ex "p")
           (Examples.ex "C") 4 (Examples.running ∅) ∅ 3); try reflexivity.
  - apply not_elem_of_empty.
  - discriminate.
Defined.

Lemma predicate_within_inline store fuel p o depth st V md :
  isLiteral o = false -> serialized st = Some V -> o ∉ V ->
  has_outgoing (triples store) o = true ->
  is_collection_head store o = false ->
  is_class_resource store o = false ->
  max_depth st = Some md -> depth <= md ->
  predicate store fuel p o depth st
  = (q <- getQName store p;;
     write (indent_of depth +:+ "<div rel=" +:+ Q +:+ fmt q +:+ Q);;;
     write ">";;;
     subject store fuel o (depth + 1);;;
     write (indent_of depth);;;
     write "</div>") st.
Proof.
  intros Hlit HV Ho Hout Hhead Hclass Hmd Hle.
  unfold predicate, predicate_with. rewrite Hlit.
  unfold bind at 1. unfold is_serialized at 1. rewrite HV.
  rewrite bool_decide_eq_false_2 by done. rewrite Hout. cbn [negb orb].
  rewrite Hhead, Hclass.
  unfold bind, write, modify, get_max_depth. rewrite !getQName_run.
  cbn [max_depth set_stream set_ns_rewrite]. rewrite Hmd.
  rewrite bool_decide_eq_true_2 by done.
  by destruct (subject store fuel o (depth + 1) _) as [st' [[] | e |]].
Qed.

(** X5: within the depth limit, an unvisited object with statements of its
    own that is neither a collection head nor a class-typed IRI is inlined,
    blank node or IRI alike: [predicate] opens the [rel] element without a
    target, materializes the object one level deeper and closes the
    element; with fuel left, the opening of the object's block is the next
    event of the trace. *)
Theorem X5_within_depth_inlined (store : Store) (fuel : nat) (p o : Term)
    (depth : Z) (st : Session) (V : gset Term) (md : Z) :
  isLiteral o = false -> serialized st = Some V -> o ∉ V ->
  has_outgoing (triples store) o = true ->
  is_collection_head store o = false ->
  is_class_resource store o = false ->
  max_depth st = Some md -> depth <= md ->
  predicate store (S fuel) p o depth st
  = (q <- getQName store p;;
     write (indent_of depth +:+ "<div rel=" +:+ Q +:+ fmt q +:+ Q);;;
     write ">";;;
     subject store (S fuel) o (depth + 1);;;
     write (indent_of depth);;;
     write "</div>") st
  /\ exists l, trace (predicate store (S fuel) p o depth st).1 = trace st ++ Open o :: l.
Proof.
  intros Hlit HV Ho Hout Hhead Hclass Hmd Hle.
  rewrite (predicate_within_inline store (S fuel) p o depth st V md
             Hlit HV Ho Hout Hhead Hclass Hmd Hle).
  split; [done |].
  unfold bind at 1. rewrite getQName_run.
  unfold bind at 1, write at 1, modify at 1.
  unfold bind at 1, write at 1, modify at 1.
  match goal with
  | |- exists l, trace (bind ?m ?k ?st3).1 = _ =>
      destruct (bind_trace_prefix m k st3 (trace st ++ [Open o])) as [l Hl]
  end.
  - intros _. apply keeps_bind; [apply sw_write | intros _; apply sw_write].
  - match goal with
    | |- exists l, trace (subject _ _ _ _ ?st3).1 = _ =>
        destruct (subject_opens_first store fuel o (depth + 1) st3 V) as [l Hl];
          [done | done |]
    end.
    exists l. rewrite Hl. cbn. by rewrite <- List.app_assoc.
  - exists l. rewrite Hl. by rewrite <- List.app_assoc.
Qed.

Lemma X5_within_depth_inlined_witness :
  predicate Examples.chain_store 3 (Examples.ex "p") (Examples.ex "B") 2 (Examples.running ∅)
  = (q <- getQName Examples.chain_store (Examples.ex "p");;
     write (indent_of 2 +:+ "<div rel=" +:+ Q +:+ fmt q +:+ Q);;;
     write ">";;;
     subject Examples.chain_store 3 (Examples.ex "B") (2 + 1);;;
     write (indent_of 2);;;
     write "</div>") (Examples.running ∅)
  /\ exists l,
       trace (predicate Examples.chain_store 3 (Examples.ex "p") (Examples.ex "B") 2
                (Examples.running ∅)).1
       = trace (Examples.running ∅) ++ Open (Examples.ex "B") :: l.
Proof.
  apply (X5_within_depth_inlined Examples.chain_store 2 (Examples.ex "p") (Examples.ex "B") 2
           (Examples.running ∅) ∅ 3); try reflexivity.
  - apply not_elem_of_empty.
  - lia.
Defined.

(** ** The opening block of a resource *)

Lemma open_block_resource store s type indent st :
  isBNode s = false ->
  open_block store s type indent st
  = (set_stream
       (stream st
        ++ [indent +:+ "<div typeof=" +:+ Q
            +:+ fmt (qname_value store (namespaces st) (ns_rewrite st) (type_element type))
            +:+ Q +:+ " about=" +:+ Q +:+ relativize (base st) (term_str s) +:+ Q +:+ ">"])
       (set_ns_rewrite
          (qname_rewrite store (namespaces st) (ns_rewrite st) (type_element type)) st),
     Ok tt).
Proof.
  intros Hs. unfold open_block. rewrite Hs.
  unfold bind, get, write, modify. by rewrite getQName_run.
Qed.

(** Relations that every step keeps, the ghost steps included, are kept
    by [subject] and [predicate]. *)
Section StepwiseSubject.
Context {R : Session -> Session -> Prop} `{!Stepwise R}.
Hypothesis keeps_log : forall e, keeps R (log e).
Variable store : Store.

Lemma keeps_subject fuel s depth : keeps R (subject store fuel s depth).
Proof.
  revert s depth. induction fuel as [|fuel IH]; intros s depth; cbn [subject].
  - apply keeps_bind; [apply keeps_is_serialized | intros [|]];
      [apply keeps_ret | apply keeps_out_of_fuel].
  - apply keeps_bind; [apply keeps_is_serialized | intros [|]]; [apply keeps_ret |].
    apply keeps_bind; [apply sw_mark | intros _].
    apply keeps_bind; [apply keeps_log | intros _].
    apply keeps_bind; [apply keeps_open_block | intros _].
    apply keeps_bind; [by apply keeps_subject_edges | intros _].
    apply keeps_bind; [apply keeps_log | intros _]. apply sw_write.
Qed.

Lemma keeps_predicate fuel p o depth : keeps R (predicate store fuel p o depth).
Proof. apply keeps_predicate_with. intros s d. apply keeps_subject. Qed.

Lemma keeps_subject_rest fuel s depth type :
  keeps R
    ((if has_outgoing (triples store) s then
        for_each (predicate_objects (triples store) s)
          (fun po =>
             if not_type_edge type po
             then predicate_with store fuel (subject store fuel) po.1 po.2 (depth + 1)
             else ret tt)
      else ret tt);;;
     log (Close s);;;
     write (indent_of depth +:+ "</div>")).
Proof.
  apply keeps_bind.
  - apply keeps_subject_edges. intros s' d'. apply keeps_subject.
  - intros _. apply keeps_bind; [apply keeps_log | intros _; apply sw_write].
Qed.

Lemma keeps_passes fuel :
  keeps R (pass_roots store fuel) /\ keeps R (pass_resources store fuel)
  /\ keeps R (pass_bnodes store fuel).
Proof.
  split; [| split].
  - apply keeps_for_each. intros s. destruct (has_incoming _ s).
    + destruct (has_edge _ s s); [apply keeps_subject | apply keeps_ret].
    + apply keeps_subject.
  - apply keeps_for_each. intros s.
    destruct (isBNode s); [apply keeps_ret | apply keeps_subject].
  - apply keeps_for_each. intros b.
    apply keeps_bind; [apply keeps_is_serialized | intros [|]]; [apply keeps_ret |].
    destruct (last _); [apply keeps_subject | apply keeps_raise].
Qed.
End StepwiseSubject.

Global Instance grows_refl : Reflexive grows.
Proof. intros st V HV. by exists V. Qed.

Global Instance grows_trans : Transitive grows.
Proof.
  intros s1 s2 s3 H12 H23 V HV. destruct (H12 V HV) as (V2 & HV2 & Hs2).
  destruct (H23 V2 HV2) as (V3 & HV3 & Hs3). exists V3. split; [done | by etrans].
Qed.

Lemma grows_same st st' : serialized st' = serialized st -> grows st st'.
Proof. intros Hs V HV. exists V. by rewrite Hs. Qed.

Global Instance grows_stepwise : Stepwise grows.
Proof.
  split; try apply _.
  - intros s st. by apply grows_same.
  - intros t st V HV. unfold mark. rewrite HV. cbn.
    exists ({[t]} ∪ V). split; [done | apply union_subseteq_r].
  - intros o st. by apply grows_same.
  - intros m st _. by apply grows_same.
Qed.

Lemma grows_log e : keeps grows (log e).
Proof. intros st. by apply grows_same. Qed.

(** Materializing an unvisited subject leaves it in the table, however the
    run ends. *)
Lemma subject_marks store fuel s depth st V :
  serialized st = Some V -> s ∉ V ->
  exists V', serialized (subject store (S fuel) s depth st).1 = Some V' /\ {[s]} ∪ V ⊆ V'.
Proof.
  intros HV Hs. rewrite (subject_unseen store fuel s depth st V HV Hs).
  match goal with
  | |- context [bind ?m ?k ?st2] => assert (keeps grows (bind m k)) as Hk
  end.
  { apply keeps_bind; [apply keeps_open_block | intros _].
    apply (keeps_subject_rest grows_log). }
  match goal with
  | |- context [bind ?m ?k ?st2] => exact (Hk st2 ({[s]} ∪ V) eq_refl)
  end.
Qed.

Lemma subject_resource_stream store fuel s depth st V :
  isBNode s = false -> serialized st = Some V -> s ∉ V ->
  exists rest,
    stream (subject store (S fuel) s depth st).1
    = stream st
      ++ (indent_of depth +:+ "<div typeof=" +:+ Q
          +:+ fmt (qname_value store (namespaces st) (ns_rewrite st)
                     (type_element (subject_type store s)))
          +:+ Q +:+ " about=" +:+ Q +:+ relativize (base st) (term_str s) +:+ Q +:+ ">")
         :: rest.
Proof.
  intros Hb HV Hs. rewrite (subject_unseen store fuel s depth st V HV Hs).
  unfold bind at 1. rewrite (open_block_resource store s _ _ _ Hb).
  match goal with
  | |- context [bind ?m ?k ?st3] =>
      pose proof (frame_subject_rest store fuel s depth (subject_type store s) st3)
        as [[w Hw] _]
  end.
  exists w. rewrite Hw. cbn [stream set_stream set_ns_rewrite set_trace set_serialized
                             namespaces ns_rewrite base].
  by rewrite <- List.app_assoc.
Qed.

(** X6: when a subject that is not a blank node and not visited yet is
    materialized, the first thing [subject] writes is its opening block,
    with the qname of its type ([rdfs:Resource] when it has no usable
    [rdf:type]) and an [about] attribute holding its IRI relative to the
    base; and the subject is in the visited table however the run ends. *)
Theorem X6_resource_opening_block (store : Store) (fuel : nat) (s : Term)
    (depth : Z) (st : Session) (V : gset Term) :
  isBNode s = false -> serialized st = Some V -> s ∉ V ->
  exists q rest V',
    (getQName store (type_element (subject_type store s)) st).2 = Ok q
    /\ stream (subject store (S fuel) s depth st).1
       = stream st
         ++ (indent_of depth +:+ "<div typeof=" +:+ Q +:+ fmt q +:+ Q +:+ " about=" +:+ Q
             +:+ relativize (base st) (term_str s) +:+ Q +:+ ">") :: rest
    /\ serialized (subject store (S fuel) s depth st).1 = Some V'
    /\ s ∈ V'.
Proof.
  intros Hb HV Hs.
  destruct (subject_resource_stream store fuel s depth st V Hb HV Hs) as [rest Hrest].
  destruct (subject_marks store fuel s depth st V HV Hs) as (V' & HV' & Hsub).
  exists (qname_value store (namespaces st) (ns_rewrite st)
            (type_element (subject_type store s))), rest, V'.
  split; [by rewrite getQName_run |]. split; [done |]. split; [done |].
  apply Hsub, elem_of_union_l. by apply elem_of_singleton.
Qed.

Lemma X6_resource_opening_block_witness :
  exists q rest V',
    (getQName Examples.chain_store
       (type_element (subject_type Examples.chain_store (Examples.ex "A")))
       (Examples.running ∅)).2 = Ok q
    /\ stream (subject Examples.chain_store 3 (Examples.ex "A") 1 (Examples.running ∅)).1
       = stream (Examples.running ∅)
         ++ (indent_of 1 +:+ "<div typeof=" +:+ Q +:+ fmt q +:+ Q +:+ " about=" +:+ Q
             +:+ relativize (base (Examples.running ∅)) (term_str (Examples.ex "A"))
             +:+ Q +:+ ">") :: rest
    /\ serialized (subject Examples.chain_store 3 (Examples.ex "A") 1 (Examples.running ∅)).1
       = Some V'
    /\ Examples.ex "A" ∈ V'.
Proof.
  apply (X6_resource_opening_block Examples.chain_store 2 (Examples.ex "A") 1
           (Examples.running ∅) ∅).
  - reflexivity.
  - reflexivity.
  - apply not_elem_of_empty.
Defined.

(** ** Runs on stores without collections *)

Lemma nested_app l1 l2 : nested l1 -> nested l2 -> nested (l1 ++ l2).
Proof.
  intros H1 H2. induction H1 as [| o l _ IH | s la lb Ha _ _ IH]; cbn.
  - done.
  - by apply nested_ref.
  - rewrite <- List.app_assoc. cbn. by apply nested_block.
Qed.

Lemma settles_bind {A B : Type} (m : M A) (k : A -> M B) st V :
  settles m st V ->
  (forall a st1 V1, serialized st1 = Some V1 -> V ⊆ V1 ->
                    max_depth st1 = max_depth st -> settles (k a) st1 V1) ->
  settles (bind m k) st V.
Proof.
  intros (V1 & l1 & Hm & Hn1 & Hin1) Hk.
  assert (V ⊆ V1) as Hsub by (intros t Ht; apply Hin1; by left).
  destruct Hm as (st1 & a & Hrun1 & HV1 & Ht1 & Hd1).
  destruct (Hk a st1 V1 HV1 Hsub Hd1) as (V2 & l2 & Hk2 & Hn2 & Hin2).
  destruct Hk2 as (st2 & b & Hrun2 & HV2 & Ht2 & Hd2).
  exists V2, (l1 ++ l2). split; [| split].
  - exists st2, b. unfold bind. rewrite Hrun1.
    split; [done |]. split; [done |]. split; [| congruence].
    by rewrite Ht2, Ht1, <- List.app_assoc.
  - by apply nested_app.
  - intros t. rewrite opens_app, elem_of_app, Hin2, Hin1. tauto.
Qed.

Lemma settles_quiet {A : Type} (m : M A) st V :
  runs_to m st V [] -> settles m st V.
Proof.
  intros Hrun. exists V, []. split; [done |]. split; [apply nested_nil |].
  intros t. cbn. split; [by left | intros [? | Hin]; [done | by apply not_elem_of_nil in Hin]].
Qed.

Lemma settles_ref {A : Type} (m : M A) st V o :
  runs_to m st V [Ref o] -> settles m st V.
Proof.
  intros Hrun. exists V, [Ref o]. split; [done |].
  split; [apply nested_ref, nested_nil |].
  intros t. cbn. split; [by left | intros [? | Hin]; [done | by apply not_elem_of_nil in Hin]].
Qed.

Lemma settles_for_each {A : Type} (xs : list A) (body : A -> M unit) st V :
  serialized st = Some V ->
  (forall x st1 V1, x ∈ xs -> serialized st1 = Some V1 -> V ⊆ V1 ->
                    max_depth st1 = max_depth st -> settles (body x) st1 V1) ->
  settles (for_each xs body) st V.
Proof.
  revert st V. induction xs as [|x xs IH]; intros st V HV Hbody.
  - apply settles_quiet. by apply runs_ret.
  - cbn [for_each]. apply settles_bind.
    + apply Hbody; [apply list_elem_of_here | done | done | done].
    + intros _ st1 V1 HV1 Hsub Hd1. apply IH; [done |].
      intros y st2 V2 Hy HV2 Hsub2 Hd2. apply Hbody.
      * by apply list_elem_of_further.
      * done.
      * by etrans.
      * congruence.
Qed.

Lemma runs_getQName store u st V :
  serialized st = Some V -> runs_to (getQName store u) st V [].
Proof.
  intros HV. unfold runs_to. rewrite getQName_run. eexists _, _. split; [reflexivity |].
  cbn. by rewrite app_nil_r.
Qed.

Lemma unvisited_mono store V V1 : V ⊆ V1 -> (unvisited store V1 <= unvisited store V)%nat.
Proof.
  intros Hsub. apply subseteq_size. intros t Ht.
  apply elem_of_difference in Ht as [Hin Hout]. apply elem_of_difference.
  split; [done |]. intros HinV. by apply Hout, Hsub.
Qed.

Lemma unvisited_mark store V s :
  s ∈ subject_set store -> s ∉ V ->
  (unvisited store ({[s]} ∪ V) < unvisited store V)%nat.
Proof.
  intros Hs Hout. apply subset_size. split.
  - intros t Ht. apply elem_of_difference in Ht as [Hin Hn]. apply elem_of_difference.
    split; [done |]. intros HinV. by apply Hn, elem_of_union_r.
  - intros Hsub. assert (s ∈ subject_set store ∖ ({[s]} ∪ V)) as Hbad.
    { apply Hsub. by apply elem_of_difference. }
    apply elem_of_difference in Hbad as [_ Hbad]. apply Hbad, elem_of_union_l.
    by apply elem_of_singleton.
Qed.

Lemma has_outgoing_subject store s :
  has_outgoing (triples store) s = true -> s ∈ subject_set store.
Proof.
  unfold has_outgoing, subject_set, subjects. intros H. apply bool_decide_eq_true in H.
  apply elem_of_list_to_set. apply Exists_exists in H as (t & Hin & <-).
  by apply list_elem_of_fmap_2.
Qed.

Lemma edge_object_of_subject store s po :
  po ∈ predicate_objects (triples store) s -> s ∈ subject_set store.
Proof.
  unfold predicate_objects, subject_set, subjects. intros H.
  apply list_elem_of_fmap in H as (t & _ & Hin). apply list_elem_of_filter in Hin as [<- Hin].
  apply elem_of_list_to_set. by apply list_elem_of_fmap_2.
Qed.

Lemma settles_ext {A : Type} (m m' : M A) st V :
  m st = m' st -> settles m' st V -> settles m st V.
Proof. unfold settles, runs_to. by intros ->. Qed.

Section ListFree.
Variable store : Store.
Variable md : Z.
Hypothesis Hfree : list_free store.

(** The inline program settles when the nested [subject] does. *)
Lemma inline_settles fuel p o depth st V :
  (forall s d st1 V1, serialized st1 = Some V1 -> max_depth st1 = Some md ->
     (unvisited store V1 < fuel)%nat -> settles (subject store fuel s d) st1 V1) ->
  serialized st = Some V -> max_depth st = Some md ->
  (unvisited store V < fuel)%nat ->
  settles
    (q <- getQName store p;;
     write (indent_of depth +:+ "<div rel=" +:+ Q +:+ fmt q +:+ Q);;;
     write ">";;;
     subject store fuel o (depth + 1);;;
     write (indent_of depth);;;
     write "</div>") st V.
Proof.
  intros IH HV Hmd Hsz.
  apply settles_bind; [by apply settles_quiet, runs_getQName |].
  intros q st1 V1 HV1 Hs1 Hd1.
  apply settles_bind; [by apply settles_quiet, runs_write |].
  intros _ st2 V2 HV2 Hs2 Hd2.
  apply settles_bind; [by apply settles_quiet, runs_write |].
  intros _ st3 V3 HV3 Hs3 Hd3.
  apply settles_bind.
  { apply IH; [done | by rewrite Hd3, Hd2, Hd1 |].
    assert (V ⊆ V3) as Hsub by (by etrans; [| etrans]).
    pose proof (unvisited_mono store V V3 Hsub). lia. }
  intros _ st4 V4 HV4 Hs4 Hd4.
  apply settles_bind; [by apply settles_quiet, runs_write |].
  intros _ st5 V5 HV5 Hs5 Hd5. by apply settles_quiet, runs_write.
Qed.

Lemma predicate_settles fuel :
  (forall s d st V, serialized st = Some V -> max_depth st = Some md ->
     (unvisited store V < fuel)%nat -> settles (subject store fuel s d) st V) ->
  forall p o depth st V,
    serialized st = Some V -> max_depth st = Some md ->
    (unvisited store V < fuel)%nat ->
    settles (predicate store fuel p o depth) st V.
Proof.
  intros IH p o depth st V HV Hmd Hsz.
  destruct (isLiteral o) eqn:Hlit.
  { destruct o as [| | l lang dt]; try discriminate.
    destruct (predicate_literal_run store fuel p l lang dt depth st) as [rw Hrun].
    apply settles_quiet. unfold runs_to. rewrite Hrun. eexists _, _.
    split; [reflexivity |]. cbn. by rewrite app_nil_r. }
  destruct (decide (o ∈ V)) as [Hin | Hout].
  { apply (settles_ref _ _ _ o). unfold runs_to.
    rewrite (predicate_reference_run store fuel p o depth st V Hlit HV (or_introl Hin)).
    eexists _, _. split; [reflexivity |]. by cbn. }
  destruct (has_outgoing (triples store) o) eqn:Hog.
  2: { apply (settles_ref _ _ _ o). unfold runs_to.
       rewrite (predicate_reference_run store fuel p o depth st V Hlit HV (or_intror Hog)).
       eexists _, _. split; [reflexivity |]. by cbn. }
  destruct (is_class_resource store o) eqn:Hcl.
  { destruct o as [a | b | l lang dt]; [| by rewrite is_class_resource_bnode in Hcl | done].
    apply (settles_ref _ _ _ (URIRef a)). unfold runs_to.
    rewrite (predicate_class_run store fuel p a depth st V HV Hcl (Hfree _)).
    eexists _, _. split; [reflexivity |]. by cbn. }
  destruct (decide (depth <= md)) as [Hle | Hgt].
  { apply (settles_ext _ _ _ _
             (predicate_within_inline store fuel p o depth st V md Hlit HV Hout Hog
                (Hfree o) Hcl Hmd Hle)).
    by apply inline_settles. }
  destruct o as [a | b | l lang dt]; [| | done].
  - apply (settles_ref _ _ _ (URIRef a)). unfold runs_to.
    rewrite (predicate_beyond_run store fuel p (URIRef a) depth st V md
               Hlit HV Hout Hog (Hfree _) Hcl Hmd); [| lia | done].
    eexists _, _. split; [reflexivity |]. by cbn.
  - destruct (decide (length (subjects_of_obj (triples store) (BNode b)) = 1%nat))
      as [Hone | Hmany].
    + apply (settles_ext _ _ _ _
               (predicate_bnode_inline store fuel p b depth st V md HV Hmd Hout Hog Hone
                  (Hfree _))).
      by apply inline_settles.
    + apply (settles_ref _ _ _ (BNode b)). unfold runs_to.
      rewrite (predicate_beyond_run store fuel p (BNode b) depth st V md
                 Hlit HV Hout Hog (Hfree _) Hcl Hmd); [| lia | done].
      eexists _, _. split; [reflexivity |]. by cbn.
Qed.

Lemma subject_settles fuel :
  forall s depth st V,
    serialized st = Some V -> max_depth st = Some md ->
    (unvisited store V < fuel)%nat ->
    settles (subject store fuel s depth) st V.
Proof.
  induction fuel as [|fuel IH]; intros s depth st V HV Hmd Hsz; [lia |].
  destruct (decide (s ∈ V)) as [Hin | Hout].
  { by apply settles_quiet, runs_subject_seen. }
  unfold settles, runs_to.
  rewrite (subject_unseen store fuel s depth st V HV Hout), edges_guard.
  set (st2 := set_trace (trace st ++ [Open s]) (set_serialized (Some ({[s]} ∪ V)) st)).
  destruct (runs_open_block store s (subject_type store s) (indent_of depth) st2
              ({[s]} ∪ V) eq_refl) as (st3 & [] & Hrun3 & HV3 & Ht3 & Hd3).
  assert (settles
            (for_each (predicate_objects (triples store) s)
               (fun po =>
                  if not_type_edge (subject_type store s) po
                  then predicate_with store fuel (subject store fuel) po.1 po.2 (depth + 1)
                  else ret tt)) st3 ({[s]} ∪ V)) as Hedges.
  { apply settles_for_each; [done |].
    intros po st4 V4 Hpo HV4 Hsub4 Hd4.
    destruct (not_type_edge (subject_type store s) po);
      [| by apply settles_quiet, runs_ret].
    apply (predicate_settles fuel IH); [done | by rewrite Hd4, Hd3 |].
    pose proof (unvisited_mono store _ _ Hsub4).
    pose proof (unvisited_mark store V s (edge_object_of_subject store s po Hpo) Hout).
    lia. }
  destruct Hedges as (V4 & l & (st4 & [] & Hrun4 & HV4 & Ht4 & Hd4) & Hn & Hmem).
  exists V4, (Open s :: l ++ [Close s]). split; [| split].
  - unfold bind at 1. rewrite Hrun3. unfold bind at 1. rewrite Hrun4.
    unfold bind, log, write, modify. eexists _, _. split; [reflexivity |].
    cbn. split; [done |]. split; [| by rewrite Hd4, Hd3].
    rewrite Ht4, Ht3, app_nil_r. unfold st2. cbn. by rewrite <- !List.app_assoc.
  - apply nested_block; [done | apply nested_nil].
  - intros t. cbn. rewrite opens_app. cbn. rewrite app_nil_r, elem_of_cons, Hmem.
    rewrite elem_of_union, elem_of_singleton. tauto.
Qed.

(** A run of [subject] that settles leaves its subject in the table. *)
Lemma subject_settles_marked fuel s depth st V :
  serialized st = Some V -> max_depth st = Some md ->
  (unvisited store V < fuel)%nat ->
  exists V' l,
    runs_to (subject store fuel s depth) st V' l
    /\ nested l
    /\ (forall t, t ∈ V' <-> t ∈ V \/ t ∈ opens l)
    /\ s ∈ V'.
Proof.
  intros HV Hmd Hsz.
  destruct (subject_settles fuel s depth st V HV Hmd Hsz) as (V' & l & Hrun & Hn & Hmem).
  exists V', l. split; [done |]. split; [done |]. split; [done |].
  destruct (decide (s ∈ V)) as [Hin | Hout]; [apply Hmem; by left |].
  destruct fuel as [|fuel]; [lia |].
  destruct (subject_marks store fuel s depth st V HV Hout) as (V2 & HV2 & Hsub).
  destruct Hrun as (st' & a & Hrun & HV' & _). rewrite Hrun in HV2. cbn in HV2.
  rewrite HV' in HV2. injection HV2 as ->.
  apply Hsub, elem_of_union_l. by apply elem_of_singleton.
Qed.
End ListFree.

Lemma unvisited_le store V : (unvisited store V <= size (subject_set store))%nat.
Proof.
  apply subseteq_size. intros t Ht. by apply elem_of_difference in Ht as [? _].
Qed.

Lemma last_is_Some {A : Type} (l : list A) (x : A) : x ∈ l -> is_Some (last l).
Proof.
  intros Hin. destruct l as [|y l] using rev_ind; [by apply not_elem_of_nil in Hin |].
  rewrite last_snoc. by eexists.
Qed.

Lemma runs_is_serialized t st V :
  serialized st = Some V -> runs_to (is_serialized t) st V [].
Proof.
  intros HV. unfold runs_to, is_serialized. rewrite HV. eexists _, _.
  split; [reflexivity |]. by rewrite app_nil_r.
Qed.

(** One step of a clean run, with a fact [Extra] about the table it
    reaches handed on to the rest of the run. *)
Lemma clean_step {A : Type} (md : Z) (m : M A) (k : A -> M unit) st V
    (Extra : gset Term -> Prop) (Post : Session -> Prop) :
  clean_state md st V ->
  (exists V' l, runs_to m st V' l /\ nested l
                /\ (forall t, t ∈ V' <-> t ∈ V \/ t ∈ opens l) /\ Extra V') ->
  (forall a st1 V1, clean_state md st1 V1 -> V ⊆ V1 -> Extra V1 ->
                    exists st', k a st1 = (st', Ok tt) /\ Post st') ->
  exists st', bind m k st = (st', Ok tt) /\ Post st'.
Proof.
  intros (HV & Hmd & Hn & Hmem) (V1 & l & (st1 & a & Hrun & HV1 & Ht1 & Hd1) & Hnl & Hmem1 & Hx)
    Hk.
  unfold bind. rewrite Hrun. apply (Hk a st1 V1); [| | done].
  - split; [done |]. split; [by rewrite Hd1 |]. split.
    + rewrite Ht1. by apply nested_app.
    + intros t. rewrite Ht1, opens_app, elem_of_app, Hmem1, Hmem. tauto.
  - intros t Ht. apply Hmem1. by left.
Qed.

Lemma settles_extra {A : Type} (m : M A) st V :
  settles m st V ->
  exists V' l, runs_to m st V' l /\ nested l
               /\ (forall t, t ∈ V' <-> t ∈ V \/ t ∈ opens l) /\ True.
Proof. intros (V' & l & ? & ? & ?). by exists V', l. Qed.

Section ListFreeDriver.
Variable store : Store.
Variable md : Z.
Hypothesis Hfree : list_free store.

Lemma pass_roots_settles fuel st V :
  serialized st = Some V -> max_depth st = Some md ->
  (size (subject_set store) < fuel)%nat ->
  settles (pass_roots store fuel) st V.
Proof.
  intros HV Hmd Hfuel. apply settles_for_each; [done |].
  intros s st1 V1 _ HV1 _ Hd1.
  assert (settles (subject store fuel s 1) st1 V1) as Hs.
  { apply (subject_settles store md Hfree); [done | by rewrite Hd1 |].
    pose proof (unvisited_le store V1). lia. }
  destruct (has_incoming _ s); [| done].
  destruct (has_edge _ s s); [done | by apply settles_quiet, runs_ret].
Qed.

Lemma pass_bnodes_settles fuel st V :
  serialized st = Some V -> max_depth st = Some md ->
  (size (subject_set store) < fuel)%nat ->
  settles (pass_bnodes store fuel) st V.
Proof.
  intros HV Hmd Hfuel. apply settles_for_each; [done |].
  intros b st1 V1 Hb HV1 _ Hd1.
  apply settles_bind; [by apply settles_quiet, runs_is_serialized |].
  intros seen st2 V2 HV2 _ Hd2. destruct seen; [by apply settles_quiet, runs_ret |].
  assert (b ∈ subjects (triples store)) as Hin.
  { unfold bnodes in Hb. rewrite elem_of_remove_dups in Hb.
    by apply list_elem_of_filter in Hb as [_ ?]. }
  destruct (last_is_Some _ _ Hin) as [s Hs]. rewrite Hs.
  apply (subject_settles store md Hfree); [done | by rewrite Hd2, Hd1 |].
  pose proof (unvisited_le store V2). lia.
Qed.

(** A pass that calls [subject] on some of the subjects and skips the
    others leaves every subject it called in the table. *)
Lemma pass_covers fuel (body : Term -> M unit) (C : Term -> Prop) xs st V :
  (forall x, body x = subject store fuel x 1 \/ body x = ret tt) ->
  (forall x, C x -> body x = subject store fuel x 1) ->
  serialized st = Some V -> max_depth st = Some md ->
  (size (subject_set store) < fuel)%nat ->
  exists V' l,
    runs_to (for_each xs body) st V' l
    /\ nested l
    /\ (forall t, t ∈ V' <-> t ∈ V \/ t ∈ opens l)
    /\ (forall s, s ∈ xs -> C s -> s ∈ V').
Proof.
  intros Hbody HC HV Hmd Hfuel. revert st V HV Hmd.
  induction xs as [|x xs IH]; intros st V HV Hmd.
  { exists V, []. split; [by apply runs_ret |]. split; [apply nested_nil |].
    split; [| by intros s Hs; apply not_elem_of_nil in Hs].
    intros t. cbn. split; [by left |].
    intros [? | Hin]; [done | by apply not_elem_of_nil in Hin]. }
  assert (exists V1 l1,
            runs_to (body x) st V1 l1
            /\ nested l1 /\ (forall t, t ∈ V1 <-> t ∈ V \/ t ∈ opens l1)
            /\ (C x -> x ∈ V1)) as (V1 & l1 & Hrun1 & Hn1 & Hmem1 & Hx).
  { destruct (Hbody x) as [Hsub | Hskip].
    - rewrite Hsub.
      destruct (subject_settles_marked store md Hfree fuel x 1 st V HV Hmd)
        as (V1 & l1 & ? & ? & ? & ?); [pose proof (unvisited_le store V); lia |].
      by exists V1, l1.
    - exists V, []. split; [rewrite Hskip; by apply runs_ret |]. split; [apply nested_nil |].
      split.
      + intros t. cbn. split; [by left |].
        intros [? | Hin]; [done | by apply not_elem_of_nil in Hin].
      + intros Hc. rewrite (HC x Hc) in Hskip.
        destruct (subject_settles_marked store md Hfree fuel x 1 st V HV Hmd)
          as (V1 & l1 & (st1 & [] & Hr & HV1 & Ht1 & _) & _ & Hm & Hin);
          [pose proof (unvisited_le store V); lia |].
        rewrite Hskip in Hr. injection Hr as <-. rewrite HV in HV1. by injection HV1 as ->. }
  destruct Hrun1 as (st1 & [] & Hrun1 & HV1 & Ht1 & Hd1).
  destruct (IH st1 V1 HV1) as (V2 & l2 & (st2 & [] & Hrun2 & HV2 & Ht2 & Hd2) & Hn2 & Hmem2 & Hc);
    [by rewrite Hd1 |].
  exists V2, (l1 ++ l2). split; [| split; [| split]].
  - exists st2, tt. cbn [for_each]. unfold bind. rewrite Hrun1.
    split; [done |]. split; [done |]. split; [| congruence].
    by rewrite Ht2, Ht1, <- List.app_assoc.
  - by apply nested_app.
  - intros t. rewrite opens_app, elem_of_app, Hmem2, Hmem1. tauto.
  - intros s Hs Hcs. apply elem_of_cons in Hs as [-> | Hs]; [| by apply Hc].
    apply Hmem2. left. by apply Hx.
Qed.

Lemma serialize_list_free fuel stream0 base0 st :
  0 < md ->
  Forall (fun p => is_Some (compute_qname store (term_str p))) (possible store) ->
  (size (subject_set store) < fuel)%nat ->
  exists st',
    serialize store fuel stream0 base0 (Some md) st = (st', Ok tt)
    /\ serialized st' = None
    /\ nested (trace st')
    /\ (forall s, s ∈ subjects (triples store) ->
          isBNode s = false \/ has_incoming (triples store) s = false
          \/ has_edge (triples store) s s = true ->
          s ∈ opens (trace st')).
Proof.
  intros Hmd Hq Hfuel.
  destruct (declare_namespaces_ok store (possible store) [("rdf", RDF_NS)] Hq) as [nss Hnss].
  rewrite (serialize_body store fuel stream0 base0 md nss st Hmd Hnss).
  set (st0 := set_max_depth (Some md) _).
  assert (clean_state md st0 ∅) as H0.
  { split; [done |]. split; [done |]. split; [apply nested_nil |].
    intros t. cbn. split; intros Hin; [by apply not_elem_of_empty in Hin |
                                       by apply not_elem_of_nil in Hin]. }
  apply (clean_step md _ _ st0 ∅ (fun _ => True) _ H0).
  { apply settles_extra, settles_quiet, runs_write. apply H0. }
  intros _ st1 V1 H1 _ _.
  apply (clean_step md _ _ st1 V1 (fun _ => True) _ H1).
  { apply settles_extra, settles_quiet, runs_for_each_write. apply H1. }
  intros _ st2 V2 H2 _ _.
  apply (clean_step md _ _ st2 V2 (fun _ => True) _ H2).
  { apply settles_extra, settles_quiet, runs_write. apply H2. }
  intros _ st3 V3 H3 _ _.
  apply (clean_step md _ _ st3 V3
           (fun V' => forall s, s ∈ subjects (triples store) ->
                        has_incoming (triples store) s = false
                        \/ has_edge (triples store) s s = true -> s ∈ V')
           _ H3).
  { apply (pass_covers fuel _
             (fun s => has_incoming (triples store) s = false
                       \/ has_edge (triples store) s s = true));
      [| | apply H3 | apply H3 | done].
    - intros x. destruct (has_incoming _ x); [destruct (has_edge _ x x) |]; auto.
    - intros x [Hx | Hx]; rewrite Hx; [done |]. by destruct (has_incoming _ x). }
  intros _ st4 V4 H4 _ Hroots.
  apply (clean_step md _ _ st4 V4
           (fun V' => forall s, s ∈ subjects (triples store) -> isBNode s = false -> s ∈ V')
           _ H4).
  { apply (pass_covers fuel _ (fun s => isBNode s = false));
      [| | apply H4 | apply H4 | done].
    - intros x. destruct (isBNode x); auto.
    - by intros x ->. }
  intros _ st5 V5 H5 Hsub5 Hcover.
  apply (clean_step md _ _ st5 V5 (fun _ => True) _ H5).
  { apply settles_extra, pass_bnodes_settles; [apply H5 | apply H5 | done]. }
  intros _ st6 V6 H6 Hsub6 _.
  apply (clean_step md _ _ st6 V6 (fun _ => True) _ H6).
  { apply settles_extra, settles_quiet, runs_write. apply H6. }
  intros _ st7 V7 (HV7 & Hd7 & Hn7 & Hmem7) Hsub7 _.
  exists (set_serialized None st7). split; [done |]. cbn.
  split; [done |]. split; [done |].
  intros s Hs [Hb | Hroot]; apply Hmem7, Hsub7, Hsub6.
  - by apply Hcover.
  - by apply Hsub5, Hroots.
Qed.
End ListFreeDriver.

Lemma chain_store_list_free : list_free Examples.chain_store.
Proof.
  intros o. unfold is_collection_head, objects. cbn [triples Examples.chain_store Examples.mk_store].
  rewrite !filter_cons, filter_nil.
  repeat (case_decide as Hd; [destruct Hd as [_ Hd]; discriminate Hd | clear Hd]).
  reflexivity.
Qed.

Lemma chain_store_qnames :
  Forall (fun p => is_Some (compute_qname Examples.chain_store (term_str p)))
    (possible Examples.chain_store).
Proof.
  assert (possible Examples.chain_store = [Examples.ex "p"]) as -> by (vm_compute; reflexivity).
  apply Forall_cons. split; [by eexists | apply Forall_nil_2].
Qed.

Lemma chain_store_subjects : size (subject_set Examples.chain_store) = 3%nat.
Proof. vm_compute. reflexivity. Qed.

(** X7: on a store without collections, [subject] returns normally as
    soon as the fuel exceeds the number of subjects not visited yet: the
    recursion through [predicate] ends because every nested call marks a
    new subject.  The events it adds are well nested, its subject is in
    the table afterwards, and the table holds what it held before and the
    subjects whose blocks were opened, and nothing else. *)
Theorem X7_subject_settles (store : Store) (md : Z) (fuel : nat) (s : Term) (depth : Z)
    (st : Session) (V : gset Term) :
  list_free store ->
  serialized st = Some V -> max_depth st = Some md ->
  (unvisited store V < fuel)%nat ->
  exists st' V' l,
    subject store fuel s depth st = (st', Ok tt)
    /\ serialized st' = Some V'
    /\ trace st' = trace st ++ l
    /\ nested l
    /\ s ∈ V'
    /\ (forall t, t ∈ V' <-> t ∈ V \/ t ∈ opens l).
Proof.
  intros Hfree HV Hmd Hsz.
  destruct (subject_settles_marked store md Hfree fuel s depth st V HV Hmd Hsz)
    as (V' & l & (st' & [] & Hrun & HV' & Ht & _) & Hn & Hmem & Hs).
  by exists st', V', l.
Qed.

Lemma X7_subject_settles_witness :
  exists st' V' l,
    subject Examples.chain_store 4 (Examples.ex "A") 1 (Examples.running ∅) = (st', Ok tt)
    /\ serialized st' = Some V'
    /\ trace st' = trace (Examples.running ∅) ++ l
    /\ nested l
    /\ Examples.ex "A" ∈ V'
    /\ (forall t, t ∈ V' <-> t ∈ (∅ : gset Term) \/ t ∈ opens l).
Proof.
  apply (X7_subject_settles Examples.chain_store 3 4 (Examples.ex "A") 1
           (Examples.running ∅) ∅).
  - apply chain_store_list_free.
  - reflexivity.
  - reflexivity.
  - pose proof (unvisited_le Examples.chain_store ∅) as Hle.
    rewrite chain_store_subjects in Hle. lia.
Defined.

(** X8: on a store without collections, with a positive depth limit and
    qnames for every predicate, type and datatype, [serialize] returns
    normally as soon as the fuel exceeds the number of distinct subjects;
    it leaves the visited table reset to [None], and in the document every
    block that was opened is closed, in nesting order. *)
Theorem X8_serialize_returns_well_nested (store : Store) (md : Z) (fuel : nat)
    (stream0 : list string) (base0 : option string) (st : Session) :
  list_free store ->
  0 < md ->
  Forall (fun p => is_Some (compute_qname store (term_str p))) (possible store) ->
  (size (subject_set store) < fuel)%nat ->
  exists st',
    serialize store fuel stream0 base0 (Some md) st = (st', Ok tt)
    /\ serialized st' = None
    /\ nested (trace st').
Proof.
  intros Hfree Hmd Hq Hfuel.
  destruct (serialize_list_free store md Hfree fuel stream0 base0 st Hmd Hq Hfuel)
    as (st' & Hrun & Hs & Hn & _).
  by exists st'.
Qed.

Lemma X8_serialize_returns_well_nested_witness :
  exists st',
    serialize Examples.chain_store 4 [] None (Some 3) (self_state (init Examples.chain_store 3))
    = (st', Ok tt)
    /\ serialized st' = None
    /\ nested (trace st').
Proof.
  apply (X8_serialize_returns_well_nested Examples.chain_store 3 4 [] None).
  - apply chain_store_list_free.
  - lia.
  - apply chain_store_qnames.
  - rewrite chain_store_subjects. lia.
Defined.

(** X9: under the same conditions, after [serialize] every subject that is
    not a blank node, or is the object of no statement, or has a statement
    pointing to itself, has a block in the document, exactly one: only
    blank nodes reached from elsewhere depend on the final sweep. *)
Theorem X9_roots_and_resources_materialized (store : Store) (md : Z) (fuel : nat)
    (stream0 : list string) (base0 : option string) (st : Session) (s : Term) :
  list_free store ->
  0 < md ->
  Forall (fun p => is_Some (compute_qname store (term_str p))) (possible store) ->
  (size (subject_set store) < fuel)%nat ->
  s ∈ subjects (triples store) ->
  isBNode s = false \/ has_incoming (triples store) s = false
  \/ has_edge (triples store) s s = true ->
  s ∈ opens (trace (serialize store fuel stream0 base0 (Some md) st).1)
  /\ NoDup (opens (trace (serialize store fuel stream0 base0 (Some md) st).1)).
Proof.
  intros Hfree Hmd Hq Hfuel Hs Hcase.
  split; [| apply serialize_blocks_once].
  destruct (serialize_list_free store md Hfree fuel stream0 base0 st Hmd Hq Hfuel)
    as (st' & Hrun & _ & _ & Hcover).
  rewrite Hrun. by apply Hcover.
Qed.

Lemma X9_roots_and_resources_materialized_witness :
  Examples.ex "C"
  ∈ opens (trace (serialize Examples.chain_store 4 [] None (Some 3)
                    (self_state (init Examples.chain_store 3))).1)
  /\ NoDup (opens (trace (serialize Examples.chain_store 4 [] None (Some 3)
                            (self_state (init Examples.chain_store 3))).1)).
Proof.
  apply (X9_roots_and_resources_materialized Examples.chain_store 3 4 [] None).
  - apply chain_store_list_free.
  - lia.
  - apply chain_store_qnames.
  - rewrite chain_store_subjects. lia.
  - apply list_elem_of_further, list_elem_of_further, list_elem_of_here.
  - by left.
Defined.

(** ** What a run leaves alone *)

(** X10: however they end, [subject] and [predicate] only append to the
    stream and to the trace, only add to the visited table and to the
    prefix rewrites, and leave the namespace table, the base and the depth
    limit as they were. *)
Theorem X10_emitters_only_append (store : Store) (fuel : nat) (s p o : Term)
    (depth : Z) (st : Session) :
  frame st (subject store fuel s depth st).1
  /\ grows st (subject store fuel s depth st).1
  /\ frame st (predicate store fuel p o depth st).1
  /\ grows st (predicate store fuel p o depth st).1.
Proof.
  split; [apply frame_subject |].
  split; [apply (keeps_subject grows_log) |].
  split; [apply frame_predicate | apply (keeps_predicate grows_log)].
Qed.

Lemma frame_serialize_tail store fuel nss :
  keeps frame
    (write ("<div xmlns=" +:+ Q +:+ "http://www.w3.org/1999/xhtml" +:+ Q);;;
     for_each nss (fun pn => write (NL +:+ "  xmlns:" +:+ pn.1 +:+ "=" +:+ Q +:+ pn.2 +:+ Q));;;
     write ">";;;
     pass_roots store fuel;;;
     pass_resources store fuel;;;
     pass_bnodes store fuel;;;
     write (NL +:+ "</div>");;;
     modify (set_serialized None)).
Proof.
  destruct (keeps_passes (R := frame) frame_log store fuel) as (Hroots & Hres & Hbn).
  apply keeps_bind; [apply sw_write | intros _].
  apply keeps_bind; [apply keeps_for_each; intros pn; apply sw_write | intros _].
  apply keeps_bind; [apply sw_write | intros _].
  apply keeps_bind; [done | intros _].
  apply keeps_bind; [done | intros _].
  apply keeps_bind; [done | intros _].
  apply keeps_bind; [apply sw_write | intros _].
  intros st. by apply frame_same.
Qed.

(** X11: however it ends, [serialize] only appends to what the stream held
    before the call; it never writes [self.namespaces], only adds to the
    prefix rewrites kept in the object, and leaves the base and the depth
    limit of the call in the object. *)
Theorem X11_serialize_only_appends (store : Store) (fuel : nat) (stream0 : list string)
    (base0 : option string) (arg : option Z) (st : Session) :
  (exists w, stream (serialize store fuel stream0 base0 arg st).1 = stream0 ++ w)
  /\ namespaces (serialize store fuel stream0 base0 arg st).1 = namespaces st
  /\ ns_rewrite st ⊆ ns_rewrite (serialize store fuel stream0 base0 arg st).1
  /\ base (serialize store fuel stream0 base0 arg st).1 = base0
  /\ max_depth (serialize store fuel stream0 base0 arg st).1 = Some (default 3 arg).
Proof.
  set (st0 := set_max_depth (Some (default 3 arg))
                (set_stream stream0 (set_base base0 (set_trace []
                   (set_serialized (Some ∅) st))))).
  assert (frame st0 (serialize store fuel stream0 base0 arg st).1) as Hf.
  { unfold serialize.
    do 5 (unfold bind at 1; unfold modify at 1).
    unfold bind at 1. unfold get_max_depth at 1. cbn [max_depth set_max_depth].
    fold st0.
    destruct (bool_decide (default 3 arg > 0)); [| reflexivity].
    destruct (declare_namespaces _ _ _) as [nss|]; [| reflexivity].
    apply frame_serialize_tail. }
  destruct Hf as ([w Hw] & Hn & Hr & Hm & Hb & _).
  split; [by exists w |]. split; [done |]. split; [done |]. by split.
Qed.

(** ** The preamble of [serialize] *)

Lemma declare_namespaces_fail store ps dict x :
  x ∈ ps -> compute_qname store (term_str x) = None ->
  declare_namespaces store ps dict = None.
Proof.
  intros Hin Hx. revert dict. induction ps as [|p ps IH]; intros dict;
    [by apply not_elem_of_nil in Hin |].
  cbn [declare_namespaces]. apply elem_of_cons in Hin as [<- | Hin]; [by rewrite Hx |].
  destruct (compute_qname store (term_str p)) as [[[prefix namespace] local] |]; [| done].
  by apply IH.
Qed.

(** X12: when the namespace manager cannot split a predicate, an
    [rdf:type] object or the datatype of a literal object of the store,
    [serialize] (with a positive depth limit) raises before it writes
    anything: the stream holds what it held, no block is opened, and the
    visited table is left as the empty table the call had just created. *)
Theorem X12_unsplittable_term_rejected (store : Store) (fuel : nat)
    (stream0 : list string) (base0 : option string) (md : Z) (st : Session) (p : Term) :
  0 < md ->
  p ∈ possible store ->
  compute_qname store (term_str p) = None ->
  exists st',
    serialize store fuel stream0 base0 (Some md) st = (st', Raise QNameError)
    /\ stream st' = stream0
    /\ trace st' = []
    /\ serialized st' = Some ∅.
Proof.
  intros Hmd Hp Hnone. unfold serialize.
  do 5 (unfold bind at 1; unfold modify at 1).
  unfold bind at 1. unfold get_max_depth at 1. cbn [max_depth set_max_depth from_option id].
  rewrite bool_decide_eq_true_2 by lia.
  rewrite (declare_namespaces_fail store _ _ p Hp Hnone). by eexists.
Qed.

Lemma X12_unsplittable_term_rejected_witness :
  exists st',
    serialize Examples.opaque_store 3 ["<html>"] None (Some 3)
      (self_state (init Examples.opaque_store 3))
    = (st', Raise QNameError)
    /\ stream st' = ["<html>"]
    /\ trace st' = []
    /\ serialized st' = Some ∅.
Proof.
  apply (X12_unsplittable_term_rejected Examples.opaque_store 3 ["<html>"] None 3
           (self_state (init Examples.opaque_store 3)) (URIRef "urn:x")).
  - lia.
  - vm_compute. apply list_elem_of_here.
  - reflexivity.
Defined.

Lemma dict_set_keys k v (dict : list (string * string)) :
  NoDup dict.*1 ->
  NoDup (dict_set k v dict).*1
  /\ (forall x, x ∈ (dict_set k v dict).*1 <-> x = k \/ x ∈ dict.*1).
Proof.
  induction dict as [|[k' v'] dict IH]; intros Hnd; cbn [dict_set].
  - split; [apply NoDup_singleton |]. intros x. cbn. rewrite elem_of_cons. tauto.
  - cbn in Hnd. apply NoDup_cons in Hnd as [Hk' Hnd]. destruct (IH Hnd) as [IHn IHm].
    destruct (decide (k = k')) as [-> | Hne]; cbn.
    + split; [by apply NoDup_cons |]. intros x. rewrite elem_of_cons. tauto.
    + split.
      * apply NoDup_cons. split; [| done]. rewrite IHm. intros [-> | Hin]; done.
      * intros x. rewrite !elem_of_cons, IHm. tauto.
Qed.

Lemma declare_namespaces_keys store ps dict nss :
  declare_namespaces store ps dict = Some nss ->
  NoDup dict.*1 ->
  NoDup nss.*1 /\ (forall x, x ∈ dict.*1 -> x ∈ nss.*1).
Proof.
  revert dict. induction ps as [|p ps IH]; intros dict Hd Hnd; cbn [declare_namespaces] in Hd.
  - injection Hd as <-. by split.
  - destruct (compute_qname store (term_str p)) as [[[prefix namespace] local] |]; [| done].
    destruct (dict_set_keys prefix namespace dict Hnd) as [Hn Hm].
    destruct (IH _ Hd Hn) as [Hn' Hm']. split; [done |].
    intros x Hx. apply Hm', Hm. by right.
Qed.

Lemma for_each_write_run {A : Type} (xs : list A) (f : A -> string) st :
  for_each xs (fun x => write (f x)) st = (set_stream (stream st ++ (f <$> xs)) st, Ok tt).
Proof.
  revert st. induction xs as [|x xs IH]; intros st; cbn [for_each fmap list_fmap].
  - unfold ret. rewrite app_nil_r. by destruct st.
  - unfold bind, write at 1, modify. rewrite IH. unfold set_stream. cbn.
    by rewrite <- List.app_assoc.
Qed.

(** X13: when [serialize] returns normally, the stream holds what it held
    before, then the opening of the root element, one [xmlns] attribute per
    prefix of the header with no prefix declared twice and [rdf] among
    them, the end of the opening tag, the blocks, and the closing tag of
    the root element as the last chunk; and the visited table is reset. *)
Theorem X13_document_frame (store : Store) (fuel : nat) (stream0 : list string)
    (base0 : option string) (arg : option Z) (st st' : Session) :
  serialize store fuel stream0 base0 arg st = (st', Ok tt) ->
  exists nss body,
    declare_namespaces store (possible store) [("rdf", RDF_NS)] = Some nss
    /\ NoDup nss.*1
    /\ "rdf" ∈ nss.*1
    /\ stream st'
       = stream0 ++ [document_open] ++ (xmlns_attribute <$> nss) ++ [">"] ++ body
         ++ [NL +:+ "</div>"]
    /\ serialized st' = None.
Proof.
  unfold serialize.
  do 5 (unfold bind at 1; unfold modify at 1).
  unfold bind at 1. unfold get_max_depth at 1. cbn [max_depth set_max_depth].
  set (st0 := set_max_depth (Some (default 3 arg)) _).
  destruct (bool_decide (default 3 arg > 0)); [| done].
  destruct (declare_namespaces store (possible store) [("rdf", RDF_NS)]) as [nss|] eqn:Hnss;
    [| done].
  destruct (declare_namespaces_keys store _ _ nss Hnss) as [Hnd Hrdf];
    [apply NoDup_singleton |].
  destruct (keeps_passes (R := frame) frame_log store fuel) as (Hroots & Hres & Hbn).
  unfold bind at 1, write at 1, modify at 1.
  unfold bind at 1. rewrite for_each_write_run.
  unfold bind at 1, write at 1, modify at 1.
  set (st3 := set_stream _ _).
  unfold bind at 1. specialize (Hroots st3).
  destruct (pass_roots store fuel st3) as [st4 [[] | e |]]; [| done | done].
  unfold bind at 1. specialize (Hres st4).
  destruct (pass_resources store fuel st4) as [st5 [[] | e |]]; [| done | done].
  unfold bind at 1. specialize (Hbn st5).
  destruct (pass_bnodes store fuel st5) as [st6 [[] | e |]]; [| done | done].
  unfold bind, write, modify. intros [= <-].
  destruct Hroots as ([w4 Hw4] & _), Hres as ([w5 Hw5] & _), Hbn as ([w6 Hw6] & _).
  cbn [fst] in *.
  exists nss, (w4 ++ w5 ++ w6). split; [done |]. split; [done |].
  split; [apply Hrdf, list_elem_of_here |]. split; [| done].
  cbn [stream set_serialized set_stream]. rewrite Hw6, Hw5, Hw4. unfold st3. cbn.
  rewrite <- !List.app_assoc. reflexivity.
Qed.

Lemma X13_document_frame_witness :
  exists nss body,
    declare_namespaces Examples.chain_store (possible Examples.chain_store) [("rdf", RDF_NS)]
    = Some nss
    /\ NoDup nss.*1
    /\ "rdf" ∈ nss.*1
    /\ stream (serialize Examples.chain_store 4 [] None (Some 3)
                 (self_state (init Examples.chain_store 3))).1
       = [] ++ [document_open] ++ (xmlns_attribute <$> nss) ++ [">"] ++ body
         ++ [NL +:+ "</div>"]
    /\ serialized (serialize Examples.chain_store 4 [] None (Some 3)
                     (self_state (init Examples.chain_store 3))).1 = None.
Proof.
  apply (X13_document_frame Examples.chain_store 4 [] None (Some 3)
           (self_state (init Examples.chain_store 3))).
  vm_compute. reflexivity.
Defined.

(** ** Prefixes in practice *)

(** Relations kept by the four kinds of steps are kept by every emitter
    and by the passes of the driver. *)
Section EveryStep.
Context {R : Session -> Session -> Prop} `{!Reflexive R} `{!Transitive R}.
Hypothesis step_write : forall s, keeps R (write s).
Hypothesis step_mark : forall t, keeps R (mark t).
Hypothesis step_log : forall e, keeps R (log e).
Hypothesis step_qname : forall store u, keeps R (getQName store u).
Variable store : Store.

Ltac every_step :=
  first
    [ apply keeps_ret
    | apply keeps_out_of_fuel
    | apply keeps_raise
    | apply keeps_get
    | apply keeps_get_max_depth
    | apply keeps_is_serialized
    | apply step_write
    | apply step_mark
    | apply step_log
    | apply step_qname
    | assumption
    | apply keeps_bind; [| intros ?]
    | apply keeps_for_each; intros ?
    | match goal with
      | |- keeps _ (if ?b then _ else _) => destruct b
      | |- keeps _ (match ?x with _ => _ end) => destruct x
      end ].

Lemma every_for_collection fuel cell body :
  (forall item, keeps R (body item)) -> keeps R (for_collection store fuel cell body).
Proof.
  intros Hb. revert cell. induction fuel as [|fuel IH]; intros [c|]; cbn [for_collection];
    try apply keeps_ret; try apply keeps_out_of_fuel.
  apply keeps_bind; [| intros; apply IH].
  destruct (first _); [apply Hb | apply keeps_ret].
Qed.

Lemma every_predicate_with fuel subject_rec p o depth :
  (forall s d, keeps R (subject_rec s d)) ->
  keeps R (predicate_with store fuel subject_rec p o depth).
Proof.
  intros Hrec. unfold predicate_with.
  destruct (isLiteral o); [unfold literal_element; repeat every_step |].
  apply keeps_bind; [apply keeps_is_serialized | intros seen].
  destruct (seen || _); [unfold reference_element; repeat every_step |].
  destruct (is_collection_head store o).
  - apply keeps_bind; [apply step_mark | intros _].
    apply every_for_collection. intros item. unfold list_item. repeat every_step.
  - pose proof (fun s d => Hrec s d). repeat every_step; apply Hrec.
Qed.

Lemma every_subject fuel s depth : keeps R (subject store fuel s depth).
Proof.
  revert s depth. induction fuel as [|fuel IH]; intros s depth; cbn [subject].
  - repeat every_step.
  - apply keeps_bind; [apply keeps_is_serialized | intros [|]]; [apply keeps_ret |].
    apply keeps_bind; [apply step_mark | intros _].
    apply keeps_bind; [apply step_log | intros _].
    apply keeps_bind; [unfold open_block; repeat every_step | intros _].
    apply keeps_bind; [| intros _; repeat every_step].
    destruct (has_outgoing _ _); [| apply keeps_ret].
    apply keeps_for_each. intros po. destruct (not_type_edge _ po); [| apply keeps_ret].
    by apply every_predicate_with.
Qed.

Lemma every_predicate fuel p o depth : keeps R (predicate store fuel p o depth).
Proof. apply every_predicate_with. intros s d. apply every_subject. Qed.

Lemma every_serialize fuel stream0 base0 arg :
  (forall f, (forall st, namespaces (f st) = namespaces st) ->
             (forall st, ns_rewrite (f st) = ns_rewrite st) -> keeps R (modify f)) ->
  keeps R (serialize store fuel stream0 base0 arg).
Proof.
  intros Hmod. unfold serialize.
  do 5 (apply keeps_bind; [by apply Hmod | intros _]).
  apply keeps_bind; [apply keeps_get_max_depth | intros d].
  destruct (bool_decide (d > 0)); [| apply keeps_raise].
  destruct (declare_namespaces _ _ _); [| apply keeps_raise].
  apply keeps_bind; [apply step_write | intros _].
  apply keeps_bind; [apply keeps_for_each; intros pn; apply step_write | intros _].
  apply keeps_bind; [apply step_write | intros _].
  apply keeps_bind; [| intros _].
  { apply keeps_for_each. intros s. destruct (has_incoming _ s).
    - destruct (has_edge _ s s); [apply every_subject | apply keeps_ret].
    - apply every_subject. }
  apply keeps_bind; [| intros _].
  { apply keeps_for_each. intros s.
    destruct (isBNode s); [apply keeps_ret | apply every_subject]. }
  apply keeps_bind; [| intros _].
  { apply keeps_for_each. intros b.
    apply keeps_bind; [apply keeps_is_serialized | intros [|]]; [apply keeps_ret |].
    destruct (last _); [apply every_subject | apply keeps_raise]. }
  apply keeps_bind; [apply step_write | intros _]. by apply Hmod.
Qed.
End EveryStep.

Global Instance keeps_tidy_refl : Reflexive keeps_tidy.
Proof. by intros st H. Qed.

Global Instance keeps_tidy_trans : Transitive keeps_tidy.
Proof. intros s1 s2 s3 H12 H23 H. by apply H23, H12. Qed.

Lemma tidy_same st st' :
  namespaces st' = namespaces st -> ns_rewrite st' = ns_rewrite st -> keeps_tidy st st'.
Proof. intros Hn Hr [H1 H2]. split; [by rewrite Hn | by rewrite Hr]. Qed.

Lemma tidy_rewrite_of rw prefix namespace :
  (forall k v, rw !! k = Some v -> reserved_marked k = true /\ v = "p" +:+ k) ->
  (forall k v, rewrite_of ∅ rw prefix namespace !! k = Some v ->
               reserved_marked k = true /\ v = "p" +:+ k)
  /\ default prefix (rewrite_of ∅ rw prefix namespace !! prefix)
     = (if reserved_marked prefix then "p" +:+ prefix else prefix).
Proof.
  intros Hrw. unfold rewrite_of, mapped_elsewhere. rewrite lookup_empty. cbn [default from_option id].
  rewrite (bool_decide_eq_false_2 (namespace ≠ namespace)) by (by intros H).
  rewrite orb_false_r. destruct (reserved_marked prefix) eqn:Hres.
  - destruct (decide (is_Some (rw !! prefix))) as [[v Hv] | Hn].
    + split; [done |]. rewrite Hv. cbn. by destruct (Hrw _ _ Hv) as [_ ->].
    + cbn [fresh_prefix]. rewrite decide_False by (rewrite lookup_empty; by intros [? ?]).
      split; [| by rewrite lookup_insert_eq].
      intros k v Hk. destruct (decide (k = prefix)) as [-> | Hne].
      * rewrite lookup_insert_eq in Hk. by injection Hk as <-.
      * rewrite lookup_insert_ne in Hk by done. by apply Hrw.
  - split; [done |]. destruct (rw !! prefix) as [v|] eqn:Hv; [| done].
    destruct (Hrw _ _ Hv) as [Hbad _]. congruence.
Qed.

Lemma tidy_getQName store u st :
  tidy st ->
  getQName store u st = ((getQName store u st).1, Ok (qname_closed store u))
  /\ tidy (getQName store u st).1.
Proof.
  intros [Hn Hrw]. rewrite getQName_run. cbn [fst]. rewrite Hn.
  unfold qname_value, qname_rewrite, qname_closed, tidy.
  destruct (qname_parts store u) as [[[prefix namespace] local] |]; cbn.
  - destruct (tidy_rewrite_of (ns_rewrite st) prefix namespace Hrw) as [Ht Hv].
    rewrite Hv. by split.
  - by split.
Qed.

(** X14: in an object as the constructor builds it, and after any number
    of [serialize], [subject] and [predicate] runs on it, the namespace
    table is empty and the only prefix rewrites are from a prefix that
    starts with [_] to that prefix with one [p] in front.  So the qname of
    an IRI does not depend on what was serialized before: it is the prefix
    from [compute_qname] (or from the store, for an IRI that is a namespace
    itself), with [p] in front when it starts with [_], a colon, and the
    local part; the loop that looks for an unused prefix never iterates. *)
Theorem X14_qname_closed_form (store : Store) (u : Term) (st : Session) :
  tidy st ->
  (getQName store u st).2 = Ok (qname_closed store u)
  /\ tidy (getQName store u st).1
  /\ (forall fuel stream0 base0 arg, tidy (serialize store fuel stream0 base0 arg st).1)
  /\ (forall fuel s depth, tidy (subject store fuel s depth st).1)
  /\ (forall fuel p o depth, tidy (predicate store fuel p o depth st).1).
Proof.
  intros Ht.
  assert (forall s, keeps keeps_tidy (write s)) as Hw by (intros s x; by apply tidy_same).
  assert (forall t, keeps keeps_tidy (mark t)) as Hm.
  { intros t x. unfold mark. destruct (serialized x); [by apply tidy_same | reflexivity]. }
  assert (forall e, keeps keeps_tidy (log e)) as Hl by (intros e x; by apply tidy_same).
  assert (forall store u, keeps keeps_tidy (getQName store u)) as Hq.
  { intros store' u' x Hx. by apply tidy_getQName. }
  destruct (tidy_getQName store u st Ht) as [Hrun Htidy].
  split; [by rewrite Hrun |]. split; [done |]. split; [| split].
  - intros fuel stream0 base0 arg.
    apply (every_serialize Hw Hm Hl Hq store fuel stream0 base0 arg); [| done].
    intros f Hfn Hfr x. apply tidy_same; [apply Hfn | apply Hfr].
  - intros fuel s depth. by apply (every_subject Hw Hm Hl Hq store fuel s depth).
  - intros fuel p o depth. by apply (every_predicate Hw Hm Hl Hq store fuel p o depth).
Qed.

Lemma X14_qname_closed_form_witness :
  (getQName Examples.chain_store (Examples.ex "p")
     (self_state (init Examples.chain_store 3))).2
  = Ok (qname_closed Examples.chain_store (Examples.ex "p"))
  /\ tidy (getQName Examples.chain_store (Examples.ex "p")
             (self_state (init Examples.chain_store 3))).1
  /\ (forall fuel stream0 base0 arg,
        tidy (serialize Examples.chain_store fuel stream0 base0 arg
                (self_state (init Examples.chain_store 3))).1)
  /\ (forall fuel s depth,
        tidy (subject Examples.chain_store fuel s depth
                (self_state (init Examples.chain_store 3))).1)
  /\ (forall fuel p o depth,
        tidy (predicate Examples.chain_store fuel p o depth
                (self_state (init Examples.chain_store 3))).1).
Proof.
  apply (X14_qname_closed_form Examples.chain_store (Examples.ex "p")
           (self_state (init Examples.chain_store 3))).
  split; [reflexivity |]. intros k v Hk. cbn in Hk. rewrite lookup_empty in Hk.
  discriminate Hk.
Defined.

(** ** Repeated runs *)

Section Agree.
Variable store : Store.

Lemma agree_ret {A : Type} (a : A) : agree (ret a).
Proof. by intros st1 st2 H. Qed.

Lemma agree_raise {A : Type} (e : Exn) : agree (@raise A e).
Proof. by intros st1 st2 H. Qed.

Lemma agree_out_of_fuel {A : Type} : agree (@out_of_fuel A).
Proof. by intros st1 st2 H. Qed.

Lemma agree_bind {A B : Type} (m : M A) (k : A -> M B) :
  agree m -> (forall a, agree (k a)) -> agree (bind m k).
Proof.
  intros Hm Hk st1 st2 H. unfold bind. destruct (Hm st1 st2 H) as [H' Ho].
  destruct (m st1) as [st1' o1], (m st2) as [st2' o2]. cbn [fst snd] in *. subst o2.
  destruct o1 as [a | e |]; [by apply Hk | done | done].
Qed.

Lemma agree_for_each {A : Type} (xs : list A) (body : A -> M unit) :
  (forall x, agree (body x)) -> agree (for_each xs body).
Proof.
  intros Hb. induction xs as [|x xs IH]; cbn [for_each]; [apply agree_ret |].
  apply agree_bind; [apply Hb | by intros _].
Qed.

Lemma agree_write s : agree (write s).
Proof.
  intros st1 st2 (Hs & Hm & Hb & Hw & Ht & H1 & H2). split; [| done].
  unfold alike. split_and!; [done | done | done | cbn; by rewrite Hw | done | |];
    by apply (tidy_same _ _ eq_refl eq_refl).
Qed.

Lemma agree_log e : agree (log e).
Proof.
  intros st1 st2 (Hs & Hm & Hb & Hw & Ht & H1 & H2). split; [| done].
  unfold alike. split_and!; [done | done | done | done | cbn; by rewrite Ht | |];
    by apply (tidy_same _ _ eq_refl eq_refl).
Qed.

Lemma agree_mark t : agree (mark t).
Proof.
  intros st1 st2 H. pose proof H as (Hs & Hm & Hb & Hw & Ht & H1 & H2).
  unfold mark. rewrite Hs.
  destruct (serialized st2) as [V|]; [| done].
  split; [| done]. unfold alike. split_and!; [done | done | done | done | done | |];
    by apply (tidy_same _ _ eq_refl eq_refl).
Qed.

Lemma agree_is_serialized t : agree (is_serialized t).
Proof.
  intros st1 st2 H. pose proof H as (Hs & _). unfold is_serialized. rewrite Hs.
  by destruct (serialized st2).
Qed.

Lemma agree_get_max_depth : agree get_max_depth.
Proof.
  intros st1 st2 H. pose proof H as (_ & Hm & _). unfold get_max_depth. rewrite Hm.
  by destruct (max_depth st2).
Qed.

Lemma agree_get_base : agree (get base).
Proof. intros st1 st2 H. pose proof H as (_ & _ & Hb & _). unfold get. cbn. by rewrite Hb. Qed.

Lemma agree_getQName u : agree (getQName store u).
Proof.
  intros st1 st2 (Hs & Hm & Hb & Hw & Ht & H1 & H2).
  destruct (tidy_getQName store u st1 H1) as [Hr1 Ht1].
  destruct (tidy_getQName store u st2 H2) as [Hr2 Ht2].
  split; [| by rewrite Hr1, Hr2].
  revert Ht1 Ht2. rewrite !getQName_run. cbn [fst]. intros Ht1 Ht2.
  unfold alike. by split_and!.
Qed.

Ltac agree_step :=
  first
    [ apply agree_ret
    | apply agree_out_of_fuel
    | apply agree_raise
    | apply agree_get_base
    | apply agree_get_max_depth
    | apply agree_is_serialized
    | apply agree_write
    | apply agree_mark
    | apply agree_log
    | apply agree_getQName
    | assumption
    | apply agree_bind; [| intros ?]
    | apply agree_for_each; intros ?
    | match goal with
      | |- agree (if ?b then _ else _) => destruct b
      | |- agree (match ?x with _ => _ end) => destruct x
      end ].

Lemma agree_for_collection fuel cell body :
  (forall item, agree (body item)) -> agree (for_collection store fuel cell body).
Proof.
  intros Hb. revert cell. induction fuel as [|fuel IH]; intros [c|]; cbn [for_collection];
    try apply agree_ret; try apply agree_out_of_fuel.
  apply agree_bind; [| intros; apply IH].
  destruct (first _); [apply Hb | apply agree_ret].
Qed.

Lemma agree_predicate_with fuel subject_rec p o depth :
  (forall s d, agree (subject_rec s d)) ->
  agree (predicate_with store fuel subject_rec p o depth).
Proof.
  intros Hrec. unfold predicate_with.
  destruct (isLiteral o); [unfold literal_element; repeat agree_step |].
  apply agree_bind; [apply agree_is_serialized | intros seen].
  destruct (seen || _); [unfold reference_element; repeat agree_step |].
  destruct (is_collection_head store o).
  - apply agree_bind; [apply agree_mark | intros _].
    apply agree_for_collection. intros item. unfold list_item. repeat agree_step.
  - pose proof (fun s d => Hrec s d). repeat agree_step; apply Hrec.
Qed.

Lemma agree_subject fuel s depth : agree (subject store fuel s depth).
Proof.
  revert s depth. induction fuel as [|fuel IH]; intros s depth; cbn [subject].
  - repeat agree_step.
  - apply agree_bind; [apply agree_is_serialized | intros [|]]; [apply agree_ret |].
    apply agree_bind; [apply agree_mark | intros _].
    apply agree_bind; [apply agree_log | intros _].
    apply agree_bind; [unfold open_block; repeat agree_step | intros _].
    apply agree_bind; [| intros _; repeat agree_step].
    destruct (has_outgoing _ _); [| apply agree_ret].
    apply agree_for_each. intros po. destruct (not_type_edge _ po); [| apply agree_ret].
    by apply agree_predicate_with.
Qed.

Lemma agree_document fuel :
  agree
    (md <- get_max_depth;;
     if bool_decide (md > 0) then
       match declare_namespaces store (possible store) [("rdf", RDF_NS)] with
       | None => raise QNameError
       | Some nss =>
           write ("<div xmlns=" +:+ Q +:+ "http://www.w3.org/1999/xhtml" +:+ Q);;;
           for_each nss
             (fun pn => write (NL +:+ "  xmlns:" +:+ pn.1 +:+ "=" +:+ Q +:+ pn.2 +:+ Q));;;
           write ">";;;
           pass_roots store fuel;;;
           pass_resources store fuel;;;
           pass_bnodes store fuel;;;
           write (NL +:+ "</div>");;;
           modify (set_serialized None)
       end
     else raise AssertionError).
Proof.
  apply agree_bind; [apply agree_get_max_depth | intros d].
  destruct (bool_decide (d > 0)); [| apply agree_raise].
  destruct (declare_namespaces _ _ _); [| apply agree_raise].
  apply agree_bind; [apply agree_write | intros _].
  apply agree_bind; [apply agree_for_each; intros pn; apply agree_write | intros _].
  apply agree_bind; [apply agree_write | intros _].
  apply agree_bind; [| intros _].
  { apply agree_for_each. intros s. destruct (has_incoming _ s).
    - destruct (has_edge _ s s); [apply agree_subject | apply agree_ret].
    - apply agree_subject. }
  apply agree_bind; [| intros _].
  { apply agree_for_each. intros s.
    destruct (isBNode s); [apply agree_ret | apply agree_subject]. }
  apply agree_bind; [| intros _].
  { apply agree_for_each. intros b.
    apply agree_bind; [apply agree_is_serialized | intros [|]]; [apply agree_ret |].
    destruct (last _); [apply agree_subject | apply agree_raise]. }
  apply agree_bind; [apply agree_write | intros _].
  intros st1 st2 (Hs & Hm & Hb & Hw & Ht & H1 & H2). split; [| done].
  unfold alike. split_and!; [done | done | done | done | done | |];
    by apply (tidy_same _ _ eq_refl eq_refl).
Qed.
End Agree.

(** X15: the document does not depend on what the object serialized
    before.  From any two states of an object whose prefix tables are as
    the constructor and earlier runs leave them, [serialize] with the same
    arguments ends the same way (normally, with the same exception, or out
    of fuel), and leaves the same stream, the same blocks and the same
    visited table. *)
Theorem X15_serialize_repeatable (store : Store) (fuel : nat) (stream0 : list string)
    (base0 : option string) (arg : option Z) (st1 st2 : Session) :
  tidy st1 -> tidy st2 ->
  (serialize store fuel stream0 base0 arg st1).2
  = (serialize store fuel stream0 base0 arg st2).2
  /\ stream (serialize store fuel stream0 base0 arg st1).1
     = stream (serialize store fuel stream0 base0 arg st2).1
  /\ trace (serialize store fuel stream0 base0 arg st1).1
     = trace (serialize store fuel stream0 base0 arg st2).1
  /\ serialized (serialize store fuel stream0 base0 arg st1).1
     = serialized (serialize store fuel stream0 base0 arg st2).1.
Proof.
  intros H1 H2.
  set (enter := fun st => set_max_depth (Some (default 3 arg))
                  (set_stream stream0 (set_base base0 (set_trace []
                     (set_serialized (Some ∅) st))))).
  assert (alike (enter st1) (enter st2)) as Ha.
  { unfold alike. split_and!; [done | done | done | done | done | |];
      by apply (tidy_same _ _ eq_refl eq_refl). }
  destruct (agree_document store fuel _ _ Ha) as [(Hs & _ & _ & Hw & Ht & _) Ho].
  assert (forall st, serialize store fuel stream0 base0 arg st
                     = (md <- get_max_depth;;
                        if bool_decide (md > 0) then
                          match declare_namespaces store (possible store) [("rdf", RDF_NS)] with
                          | None => raise QNameError
                          | Some nss =>
                              write ("<div xmlns=" +:+ Q +:+ "http://www.w3.org/1999/xhtml"
                                     +:+ Q);;;
                              for_each nss
                                (fun pn => write (NL +:+ "  xmlns:" +:+ pn.1 +:+ "=" +:+ Q
                                                  +:+ pn.2 +:+ Q));;;
                              write ">";;;
                              pass_roots store fuel;;;
                              pass_resources store fuel;;;
                              pass_bnodes store fuel;;;
                              write (NL +:+ "</div>");;;
                              modify (set_serialized None)
                          end
                        else raise AssertionError) (enter st)) as Hrun.
  { intros st. reflexivity. }
  rewrite !Hrun. by repeat split.
Qed.

Lemma X15_serialize_repeatable_witness :
  (serialize Examples.chain_store 4 [] None (Some 3)
     (self_state (init Examples.chain_store 3))).2
  = (serialize Examples.chain_store 4 [] None (Some 3)
       (serialize Examples.chain_store 4 ["<html>"] None (Some 2)
          (self_state (init Examples.chain_store 3))).1).2
  /\ stream (serialize Examples.chain_store 4 [] None (Some 3)
               (self_state (init Examples.chain_store 3))).1
     = stream (serialize Examples.chain_store 4 [] None (Some 3)
                 (serialize Examples.chain_store 4 ["<html>"] None (Some 2)
                    (self_state (init Examples.chain_store 3))).1).1
  /\ trace (serialize Examples.chain_store 4 [] None (Some 3)
              (self_state (init Examples.chain_store 3))).1
     = trace (serialize Examples.chain_store 4 [] None (Some 3)
                (serialize Examples.chain_store 4 ["<html>"] None (Some 2)
                   (self_state (init Examples.chain_store 3))).1).1
  /\ serialized (serialize Examples.chain_store 4 [] None (Some 3)
                   (self_state (init Examples.chain_store 3))).1
     = serialized (serialize Examples.chain_store 4 [] None (Some 3)
                     (serialize Examples.chain_store 4 ["<html>"] None (Some 2)
                        (self_state (init Examples.chain_store 3))).1).1.
Proof.
  apply (X15_serialize_repeatable Examples.chain_store 4 [] None (Some 3)).
  - split; [reflexivity |]. intros k v Hk. cbn in Hk. rewrite lookup_empty in Hk.
    discriminate Hk.
  - split; [vm_compute; reflexivity |]. intros k v Hk. vm_compute in Hk. discriminate Hk.
Defined.
